(** * Drone path optimizer: risk field, planner and mission driver

    A shallow embedding of [pathfinder.js] (class [Pathfinder]),
    [weatherSystem.js] (class [WeatherSystem]) and the mission functions of
    [src/main.js], followed by the properties stated about them.

    Numbers.  The source computes with JavaScript numbers.  Every definition
    below is written once, over an interface [JSNum] of the operations the
    source uses ([+ - * /], [Math.sqrt], [Math.floor], [<], [<=]).  Two
    instances are given:
    - [Float64]: IEEE 754 binary64 (the primitive floats), which is what the
      source runs on; the model computes under it;
    - [RNum]: the real numbers, i.e. the same program with exact arithmetic;
      the universally quantified properties are proved under it.
    Grid indices, cell coordinates and terrain risks are integers in the
    source (loop counters, results of [Math.floor], the constants 10 and
    100); they are modelled in [Z] and enter arithmetic through [ofZ]. *)

From Stdlib Require Import ZArith List Bool Lia Reals Lra FinFun Permutation.
From Stdlib Require Floats.
Import ListNotations.

Set Implicit Arguments.
Open Scope Z_scope.

(* ================================================================== *)
(** * JavaScript numbers *)

Record JSNum : Type := {
  num    : Type;
  ofZ    : Z -> num;                (* an integer literal or counter *)
  nadd   : num -> num -> num;
  nsub   : num -> num -> num;
  nmul   : num -> num -> num;
  ndiv   : num -> num -> num;
  nsqrt  : num -> num;              (* Math.sqrt *)
  nltb   : num -> num -> bool;      (* a < b *)
  nleb   : num -> num -> bool;      (* a <= b *)
  nfloor : num -> Z                 (* Math.floor, the result as an integer *)
}.

Declare Scope js_scope.
Delimit Scope js_scope with J.
Notation "a + b" := (nadd _ a b) : js_scope.
Notation "a - b" := (nsub _ a b) : js_scope.
Notation "a * b" := (nmul _ a b) : js_scope.
Notation "a / b" := (ndiv _ a b) : js_scope.
Notation "a <? b" := (nltb _ a b) : js_scope.
Notation "a <=? b" := (nleb _ a b) : js_scope.
Notation "a >? b" := (nltb _ b a) : js_scope.
Notation "a >=? b" := (nleb _ b a) : js_scope.

Section Numbers.
Context {N : JSNum}.

(** A decimal literal [p/q] of the source, e.g. [0.6] as [dec 6 10]. *)
Definition dec (p q : Z) : num N := (ofZ N p / ofZ N q)%J.

(** [Math.max(a, b)] and [Math.min(a, b)]. *)
Definition nmax (a b : num N) : num N := if (a <? b)%J then b else a.
Definition nmin (a b : num N) : num N := if (b <? a)%J then b else a.

(** [Math.pow(a, 2)]. *)
Definition pow2 (a : num N) : num N := (a * a)%J.

Record LatLng := { lat : num N; lng : num N }.

Record Bounds := {
  minLat : num N; maxLat : num N; minLng : num N; maxLng : num N
}.
End Numbers.

Arguments LatLng : clear implicits.
Arguments Bounds : clear implicits.

(** ** The real-number instance *)

Definition Rltb (a b : R) : bool := if Rlt_dec a b then true else false.
Definition Rleb (a b : R) : bool := if Rle_dec a b then true else false.

Definition RNum : JSNum := {|
  num := R; ofZ := IZR;
  nadd := Rplus; nsub := Rminus; nmul := Rmult; ndiv := Rdiv;
  nsqrt := sqrt; nltb := Rltb; nleb := Rleb; nfloor := Int_part
|}.
Canonical Structure RNum.

(** ** The binary64 instance *)

Definition float_ofZ (z : Z) : PrimFloat.float :=
  FloatOps.SF2Prim
    (SpecFloat.binary_normalize FloatOps.prec FloatOps.emax z 0 false).

(** [Math.floor] of a finite double [(-1)^s * m * 2^e]; an arithmetic right
    shift rounds towards minus infinity.  [Math.floor] of an infinity or of
    NaN is not an integer; no index of the model is computed from one. *)
Definition float_floor (f : PrimFloat.float) : Z :=
  match FloatOps.Prim2SF f with
  | SpecFloat.S754_finite s m e => Z.shiftl (SpecFloat.cond_Zopp s (Zpos m)) e
  | _ => 0
  end.

Definition Float64 : JSNum := {|
  num := PrimFloat.float; ofZ := float_ofZ;
  nadd := PrimFloat.add; nsub := PrimFloat.sub;
  nmul := PrimFloat.mul; ndiv := PrimFloat.div;
  nsqrt := PrimFloat.sqrt; nltb := PrimFloat.ltb; nleb := PrimFloat.leb;
  nfloor := float_floor
|}.
Canonical Structure Float64.

(* ================================================================== *)
(** * Arrays and loops *)

Module Grid.

(** [l[i] = v] for an index inside the array. *)
Fixpoint setNth {B : Type} (i : nat) (v : B) (l : list B) : list B :=
  match l, i with
  | [], _ => []
  | _ :: t, O => v :: t
  | h :: t, S j => h :: setNth j v t
  end.

Section Grid.
Context {A : Type}.

(** [for (let i = 0; i < n; i++)]: the values the counter takes. *)
Definition range (n : Z) : list Z := map Z.of_nat (seq 0 (Z.to_nat n)).

(** A loop over [l] whose body updates the state [s]. *)
Definition forEach {S B : Type} (l : list B) (body : B -> S -> S) (s : S) : S :=
  fold_left (fun s b => body b s) l s.

(** [new Array(n).fill(0).map(() => new Array(n).fill(v))]. *)
Definition make (n : Z) (v : A) : list (list A) :=
  repeat (repeat v (Z.to_nat n)) (Z.to_nat n).

(** [g[y][x]]; every read of the source is at a cell inside the grid, [d]
    stands for a read outside. *)
Definition get (d : A) (g : list (list A)) (x y : Z) : A :=
  nth (Z.to_nat x) (nth (Z.to_nat y) g []) d.

(** [g[y][x] = v]. *)
Definition set (g : list (list A)) (x y : Z) (v : A) : list (list A) :=
  setNth (Z.to_nat y) (setNth (Z.to_nat x) v (nth (Z.to_nat y) g [])) g.

(** The grid has [n] rows of [n] cells. *)
Definition square (n : Z) (g : list (list A)) : Prop :=
  length g = Z.to_nat n /\ Forall (fun row => length row = Z.to_nat n) g.
End Grid.
End Grid.

(* ================================================================== *)
(** * Geographic region and grid cells

    [Pathfinder] and [WeatherSystem] each carry the same two methods,
    [latLngToGrid] and [isValid], with the same text; they are written once
    here and each class's method is this function at the class's own
    [gridSize] and [bounds]. *)

(** A grid cell [{x, y}]. *)
Notation "'Node'" := (Z * Z)%type (only parsing).

Module Geo.
Section Geo.
Context {N : JSNum}.
Variable gridSize : Z.
Variable bounds : Bounds N.

Definition isValid (x y : Z) : bool :=
  (x >=? 0) && (x <? gridSize) && (y >=? 0) && (y <? gridSize).

Definition latLngToGrid (latlng : LatLng N) : Node :=
  let latRange := (maxLat bounds - minLat bounds)%J in
  let lngRange := (maxLng bounds - minLng bounds)%J in
  let y := nfloor N (((lat latlng - minLat bounds) / latRange) * ofZ N gridSize)%J in
  let x := nfloor N (((lng latlng - minLng bounds) / lngRange) * ofZ N gridSize)%J in
  (Z.max 0 (Z.min x (gridSize - 1)), Z.max 0 (Z.min y (gridSize - 1))).
End Geo.
End Geo.

(* ================================================================== *)
(** * WeatherSystem (weatherSystem.js) *)

Module WeatherSystem.

Inductive PatternType : Type := STORM | WIND.

Section WeatherSystem.
Context {N : JSNum}.
Local Notation "# z" := (ofZ N z) (at level 5, z at level 0, format "# z").

Record Pattern := {
  x : num N; y : num N;
  radius : num N;
  type : PatternType;
  intensity : num N;
  driftX : num N; driftY : num N
}.

Record Cell := {
  wind : num N; rain : num N; visibility : num N; risk : num N
}.

Record state := {
  gridSize : Z;
  weatherGrid : list (list (option Cell));   (* null before updateGrid *)
  bounds : option (Bounds N);                (* null before init *)
  patterns : list Pattern;
  timeOffset : num N
}.

Definition setX (p : Pattern) (v : num N) : Pattern :=
  {| x := v; y := y p; radius := radius p; type := type p;
     intensity := intensity p; driftX := driftX p; driftY := driftY p |}.
Definition setY (p : Pattern) (v : num N) : Pattern :=
  {| x := x p; y := v; radius := radius p; type := type p;
     intensity := intensity p; driftX := driftX p; driftY := driftY p |}.

(** [constructor(gridSize = 60)]. *)
Definition create (gridSize : Z) : state :=
  {| gridSize := gridSize; weatherGrid := []; bounds := None;
     patterns := []; timeOffset := #0 |}.

Definition isValid (ws : state) (cx cy : Z) : bool :=
  Geo.isValid (gridSize ws) cx cy.

(** [latLngToGrid] reads [this.bounds]; [b] is that field, not null. *)
Definition latLngToGrid (ws : state) (b : Bounds N) (latlng : LatLng N) : Node :=
  Geo.latLngToGrid (gridSize ws) b latlng.

(** [generatePatterns]; [rnd k] is the value of the [k]-th call of
    [Math.random()]: one for the number of systems, then seven per system
    in the order of the object literal. *)
Definition generatePatterns (rnd : nat -> num N) (ws : state) : state :=
  let numSystems := 3 + nfloor N (rnd 0%nat * #3)%J in
  let mk (i : nat) : Pattern :=
    let r (k : nat) := rnd (1 + 7 * i + k)%nat in
    {| x := (r 0%nat * #(gridSize ws))%J;
       y := (r 1%nat * #(gridSize ws))%J;
       radius := (#5 + r 2%nat * #10)%J;
       type := if (r 3%nat >? dec 5 10)%J then STORM else WIND;
       intensity := (dec 5 10 + r 4%nat * dec 5 10)%J;
       driftX := ((r 5%nat - dec 5 10) * dec 1 10)%J;
       driftY := ((r 6%nat - dec 5 10) * dec 1 10)%J |} in
  {| gridSize := gridSize ws; weatherGrid := weatherGrid ws;
     bounds := bounds ws;
     patterns := map mk (seq 0 (Z.to_nat numSystems));
     timeOffset := timeOffset ws |}.

(** The body of [patterns.forEach] in [updateGrid]: the influence of one
    system on the cell [(cx, cy)], accumulated in [(wind, rain, visibility)]. *)
Definition influence (cx cy : Z) (acc : num N * num N * num N) (p : Pattern)
  : num N * num N * num N :=
  let '(wind, rain, visibility) := acc in
  let dist := nsqrt N (pow2 (#cx - x p) + pow2 (#cy - y p))%J in
  if (dist <? radius p)%J then
    let falloff := (#1 - dist / radius p)%J in
    let power := (falloff * intensity p)%J in
    match type p with
    | STORM => ((wind + power * #60)%J, (rain + power * #40)%J,
                (visibility - power * #80)%J)
    | WIND => ((wind + power * #80)%J, rain, (visibility - power * #20)%J)
    end
  else acc.

(** The cell written at [(cx, cy)]; [noise] is the value of [Math.random()]
    drawn for that cell. *)
Definition cellWeather (ws : state) (noise : num N) (cx cy : Z) : Cell :=
  let '(wind, rain, visibility) :=
    fold_left (influence cx cy) (patterns ws) (#0, #0, #100) in
  let wind := nmin #100 (nmax #0 (wind + noise * #5)%J) in
  let rain := nmin #50 (nmax #0 rain) in
  let visibility := nmin #100 (nmax #0 visibility) in
  let risk := #0 in
  let risk := (risk + nmax #0 ((wind - #20) * dec 15 10))%J in
  let risk := (risk + nmax #0 ((rain - #10) * #2))%J in
  let risk := (risk + nmax #0 ((#80 - visibility) * dec 15 10))%J in
  {| wind := wind; rain := rain; visibility := visibility;
     risk := nmin #100 risk |}.

Definition updateGrid (noise : Z -> Z -> num N) (ws : state) : state :=
  {| gridSize := gridSize ws;
     weatherGrid :=
       Grid.forEach (Grid.range (gridSize ws)) (fun cy =>
         Grid.forEach (Grid.range (gridSize ws)) (fun cx g =>
           Grid.set g cx cy (Some (cellWeather ws (noise cx cy) cx cy))))
         (weatherGrid ws);
     bounds := bounds ws; patterns := patterns ws;
     timeOffset := timeOffset ws |}.

(** [init(bounds)]. *)
Definition init (b : Bounds N) (rnd : nat -> num N) (noise : Z -> Z -> num N)
                (ws : state) : state :=
  let ws1 := {| gridSize := gridSize ws;
                weatherGrid := Grid.make (gridSize ws) None;
                bounds := Some b; patterns := patterns ws;
                timeOffset := timeOffset ws |} in
  updateGrid noise (generatePatterns rnd ws1).

(** The body of [patterns.forEach] in [update]: drift, then the four
    wrap-around tests in the order of the source. *)
Definition movePattern (gridSize : Z) (deltaTime : num N) (p : Pattern) : Pattern :=
  let p := setX p (x p + driftX p * deltaTime)%J in
  let p := setY p (y p + driftY p * deltaTime)%J in
  let p := if (x p <? #0)%J then setX p (x p + #gridSize)%J else p in
  let p := if (x p >=? #gridSize)%J then setX p (x p - #gridSize)%J else p in
  let p := if (y p <? #0)%J then setY p (y p + #gridSize)%J else p in
  let p := if (y p >=? #gridSize)%J then setY p (y p - #gridSize)%J else p in
  p.

(** [update(deltaTime = 1)]. *)
Definition update (deltaTime : num N) (noise : Z -> Z -> num N) (ws : state) : state :=
  updateGrid noise
    {| gridSize := gridSize ws; weatherGrid := weatherGrid ws;
       bounds := bounds ws;
       patterns := map (movePattern (gridSize ws) deltaTime) (patterns ws);
       timeOffset := (timeOffset ws + deltaTime)%J |}.

Definition clearCell : Cell :=
  {| wind := #0; rain := #0; visibility := #100; risk := #0 |}.

(** [getWeatherAt(latlng)]; [None] is [null]. *)
Definition getWeatherAt (ws : state) (latlng : LatLng N) : option Cell :=
  match bounds ws with
  | None => None
  | Some b =>
      let gridPos := latLngToGrid ws b latlng in
      if isValid ws (fst gridPos) (snd gridPos)
      then Grid.get None (weatherGrid ws) (fst gridPos) (snd gridPos)
      else Some clearCell
  end.

(** [getRisk(latlng)]: [w ? w.risk : 0]. *)
Definition getRisk (ws : state) (latlng : LatLng N) : num N :=
  match getWeatherAt ws latlng with
  | Some w => risk w
  | None => #0
  end.
End WeatherSystem.

Arguments Pattern : clear implicits.
Arguments Cell : clear implicits.
Arguments state : clear implicits.
End WeatherSystem.

(* ================================================================== *)
(** * Pathfinder (pathfinder.js) *)

Module Pathfinder.

(** The keys [`${x},${y}`] of the maps and of the closed set name the cell
    [(x, y)]; the text is an injective encoding of the pair, which is used
    as the key.  A [Map] is the list of its entries, the latest first. *)
Definition node_eqb (a b : Node) : bool :=
  (fst a =? fst b) && (snd a =? snd b).

Definition mapGet {V : Type} (k : Node) (m : list (Node * V)) : option V :=
  match find (fun e => node_eqb (fst e) k) m with
  | Some e => Some (snd e)
  | None => None
  end.

Definition mapHas {V : Type} (k : Node) (m : list (Node * V)) : bool :=
  match mapGet k m with Some _ => true | None => false end.

Definition mapSet {V : Type} (k : Node) (v : V) (m : list (Node * V))
  : list (Node * V) := (k, v) :: m.

(** [closedSet.has(key)] and [closedSet.add(key)]; the latest cell first. *)
Definition setHas (k : Node) (s : list Node) : bool := existsb (node_eqb k) s.
Definition setAdd (k : Node) (s : list Node) : list Node :=
  if setHas k s then s else k :: s.

Definition directions : list (Z * Z) :=
  [ (0, -1); (0, 1); (-1, 0); (1, 0); (-1, -1); (1, -1); (-1, 1); (1, 1) ].

Section Pathfinder.
Context {N : JSNum}.
Local Notation "# z" := (ofZ N z) (at level 5, z at level 0, format "# z").

(** A [Pathfinder] whose [initGrid] has run ([bounds] is set). *)
Record state := {
  gridSize : Z;
  grid : list (list Z);                      (* obstacle risk, grid[y][x] *)
  bounds : Bounds N;
  weatherSystem : option (WeatherSystem.state N)
}.

Definition setGrid (pf : state) (g : list (list Z)) : state :=
  {| gridSize := gridSize pf; grid := g; bounds := bounds pf;
     weatherSystem := weatherSystem pf |}.

Definition setWeatherSystem (ws : WeatherSystem.state N) (pf : state) : state :=
  {| gridSize := gridSize pf; grid := grid pf; bounds := bounds pf;
     weatherSystem := Some ws |}.

(** [initGrid(bounds)]: base risk 10 everywhere. *)
Definition initGrid (b : Bounds N) (pf : state) : state :=
  {| gridSize := gridSize pf; grid := Grid.make (gridSize pf) 10;
     bounds := b; weatherSystem := weatherSystem pf |}.

Definition isValid (pf : state) (x y : Z) : bool :=
  Geo.isValid (gridSize pf) x y.

Definition latLngToGrid (pf : state) (latlng : LatLng N) : Node :=
  Geo.latLngToGrid (gridSize pf) (bounds pf) latlng.

Definition gridToLatLng (pf : state) (node : Node) : LatLng N :=
  let latStep := ((maxLat (bounds pf) - minLat (bounds pf)) / #(gridSize pf))%J in
  let lngStep := ((maxLng (bounds pf) - minLng (bounds pf)) / #(gridSize pf))%J in
  {| lat := (minLat (bounds pf) + (#(snd node) + dec 5 10) * latStep)%J;
     lng := (minLng (bounds pf) + (#(fst node) + dec 5 10) * lngStep)%J |}.

Definition getNeighbors (pf : state) (x y : Z) : list Node :=
  Grid.forEach directions (fun dir neighbors =>
    let nx := x + fst dir in
    let ny := y + snd dir in
    if isValid pf nx ny then neighbors ++ [(nx, ny)] else neighbors) [].

Definition heuristic (a b : Node) : num N :=
  nsqrt N (pow2 (#(fst a) - #(fst b)) + pow2 (#(snd a) - #(snd b)))%J.

(** One turn of the loop of [isPointInPolygon]: the edge from [vj] to [vi]. *)
Definition crosses (point vi vj : LatLng N) : bool :=
  let x := lat point in let y := lng point in
  let xi := lat vi in let yi := lng vi in
  let xj := lat vj in let yj := lng vj in
  negb (eqb (yi >? y)%J (yj >? y)%J)
  && (x <? (xj - xi) * (y - yi) / (yj - yi) + xi)%J.

(** The loop [for (i = 0, j = vs.length - 1; i < vs.length; j = i++)]:
    [vj] is [vs[j]], the list holds [vs[i]], [vs[i+1]], ... *)
Fixpoint polygonLoop (point vj : LatLng N) (vs : list (LatLng N))
                     (inside : bool) : bool :=
  match vs with
  | [] => inside
  | vi :: rest =>
      polygonLoop point vi rest
        (if crosses point vi vj then negb inside else inside)
  end.

Definition isPointInPolygon (point : LatLng N) (vs : list (LatLng N)) : bool :=
  match vs with
  | [] => false
  | v :: _ => polygonLoop point (last vs v) vs false
  end.

(** [for (let poly of polygons) if (...) { grid[y][x] = 100; break; }]. *)
Fixpoint markCell (point : LatLng N) (polygons : list (list (LatLng N)))
                  (x y : Z) (g : list (list Z)) : list (list Z) :=
  match polygons with
  | [] => g
  | poly :: rest =>
      if isPointInPolygon point poly then Grid.set g x y 100
      else markCell point rest x y g
  end.

(** The body of [for (let n of neighbors)] in [applyRiskDiffusion]. *)
Definition maxNeighborRisk (pf : state) (x y : Z) : Z :=
  Grid.forEach (getNeighbors pf x y) (fun n maxNeighborRisk =>
    if Grid.get 0 (grid pf) (fst n) (snd n) >? maxNeighborRisk
    then Grid.get 0 (grid pf) (fst n) (snd n)
    else maxNeighborRisk) 0.

Definition diffuseCell (pf : state) (x y : Z) (newGrid : list (list Z))
  : list (list Z) :=
  if Grid.get 0 (grid pf) x y >=? 100 then newGrid
  else
    let m := maxNeighborRisk pf x y in
    if m >? 15 then
      let decay := dec 6 10 in
      let diffusedRisk := nfloor N (#m * decay)%J in
      if diffusedRisk >? Grid.get 0 newGrid x y
      then Grid.set newGrid x y diffusedRisk
      else newGrid
    else newGrid.

Definition applyRiskDiffusion (pf : state) : state :=
  let newGrid := map (fun row => row) (grid pf) in
  setGrid pf
    (Grid.forEach (Grid.range (gridSize pf)) (fun y =>
       Grid.forEach (Grid.range (gridSize pf)) (fun x newGrid =>
         diffuseCell pf x y newGrid)) newGrid).

(** Step 1 of [markObstacles]: the cells whose centre is in a polygon. *)
Definition markSolid (polygons : list (list (LatLng N))) (pf : state) : state :=
  let latStep := ((maxLat (bounds pf) - minLat (bounds pf)) / #(gridSize pf))%J in
  let lngStep := ((maxLng (bounds pf) - minLng (bounds pf)) / #(gridSize pf))%J in
  setGrid pf
    (Grid.forEach (Grid.range (gridSize pf)) (fun y =>
       Grid.forEach (Grid.range (gridSize pf)) (fun x g =>
         let centerLat := (minLat (bounds pf) + (#y + dec 5 10) * latStep)%J in
         let centerLng := (minLng (bounds pf) + (#x + dec 5 10) * lngStep)%J in
         let point := {| lat := centerLat; lng := centerLng |} in
         markCell point polygons x y g))
       (Grid.make (gridSize pf) 10)).

Definition markObstacles (polygons : list (list (LatLng N))) (pf : state) : state :=
  applyRiskDiffusion (applyRiskDiffusion (markSolid polygons pf)).

(** [getRisk(latlng)]. *)
Definition getRisk (pf : state) (latlng : LatLng N) : num N :=
  let node := latLngToGrid pf latlng in
  let risk := #0 in
  let risk := if isValid pf (fst node) (snd node)
              then #(Grid.get 0 (grid pf) (fst node) (snd node)) else risk in
  let risk := match weatherSystem pf with
              | Some ws => nmax risk (WeatherSystem.getRisk ws latlng)
              | None => risk
              end in
  nmin #100 risk.

(** ** A* search *)

(** An entry [{x, y, f}] of [openSet]. *)
Record OpenNode := { ox : Z; oy : Z; f : num N }.

(** The local variables of [findPath] that the loop updates. *)
Record Search := {
  openSet : list OpenNode;
  cameFrom : list (Node * Node);
  gScore : list (Node * num N);
  fScore : list (Node * num N);
  closedSet : list Node
}.

(** [gScore.get(key)] where the key is present (every read of the source
    is: the key of a cell is set before the cell enters [openSet], and the
    other read is guarded by [gScore.has]). *)
Definition scoreGet (k : Node) (m : list (Node * num N)) : num N :=
  match mapGet k m with Some v => v | None => #0 end.

(** [openSet.sort((a, b) => a.f - b.f)]: the stable sort by [f]; an entry
    stays behind those with an [f] that is not larger. *)
Fixpoint insertByF (a : OpenNode) (l : list OpenNode) : list OpenNode :=
  match l with
  | [] => [a]
  | b :: t => if (f b <? f a)%J then b :: insertByF a t else a :: b :: t
  end.

Definition sortByF (l : list OpenNode) : list OpenNode :=
  fold_right insertByF [] l.

(** [openSet.find(n => n.x === neighbor.x && n.y === neighbor.y)], as the
    test the source makes of it. *)
Definition inOpenSet (neighbor : Node) (l : list OpenNode) : bool :=
  existsb (fun n => (ox n =? fst neighbor) && (oy n =? snd neighbor)) l.

Definition distCost (current neighbor : Node) : num N :=
  nsqrt N (pow2 (#(fst neighbor) - #(fst current))
           + pow2 (#(snd neighbor) - #(snd current)))%J.

Definition riskCost (riskValue : Z) (riskWeight : num N) : num N :=
  ((#riskValue * riskWeight) / #10)%J.

(** [Math.max(0, (100 - userRiskTolerance) / 2)]. *)
Definition riskWeightOf (userRiskTolerance : num N) : num N :=
  nmax #0 ((#100 - userRiskTolerance) / #2)%J.

Definition tentativeG (pf : state) (riskWeight : num N) (s : Search)
                      (current neighbor : Node) : num N :=
  let riskValue := Grid.get 0 (grid pf) (fst neighbor) (snd neighbor) in
  (scoreGet current (gScore s) + distCost current neighbor
   + riskCost riskValue riskWeight)%J.

(** The body of [for (let neighbor of neighbors)]. *)
Definition expand (pf : state) (riskWeight : num N) (endNode current : Node)
                  (neighbor : Node) (s : Search) : Search :=
  if setHas neighbor (closedSet s) then s
  else
    let riskValue := Grid.get 0 (grid pf) (fst neighbor) (snd neighbor) in
    if riskValue >=? 100 then s
    else
      let tentative_gScore := tentativeG pf riskWeight s current neighbor in
      if negb (mapHas neighbor (gScore s))
         || (tentative_gScore <? scoreGet neighbor (gScore s))%J
      then
        let cameFrom' := mapSet neighbor current (cameFrom s) in
        let gScore' := mapSet neighbor tentative_gScore (gScore s) in
        let fScore' :=
          mapSet neighbor (tentative_gScore + heuristic neighbor endNode)%J
                 (fScore s) in
        let openSet' :=
          if inOpenSet neighbor (openSet s) then openSet s
          else openSet s ++ [ {| ox := fst neighbor; oy := snd neighbor;
                                 f := scoreGet neighbor fScore' |} ] in
        {| openSet := openSet'; cameFrom := cameFrom'; gScore := gScore';
           fScore := fScore'; closedSet := closedSet s |}
      else s.

(** The loop of [reconstructPath], on cells.  It follows [cameFrom] from
    key to key; it leaves the loop within one turn per entry of
    [cameFrom] unless a key repeats, and then the source never leaves it:
    [None] is that case. *)
Fixpoint reconstructLoop (fuel : nat) (cameFrom : list (Node * Node))
                         (key : Node) (totalPath : list Node)
  : option (list Node) :=
  match mapGet key cameFrom with
  | None => Some totalPath
  | Some current =>
      match fuel with
      | O => None
      | S fuel' => reconstructLoop fuel' cameFrom current (current :: totalPath)
      end
  end.

Definition reconstructCells (cameFrom : list (Node * Node)) (current : Node)
  : option (list Node) :=
  reconstructLoop (length cameFrom) cameFrom current [current].

Definition reconstructPath (pf : state) (cameFrom : list (Node * Node))
                           (current : Node) : option (list (LatLng N)) :=
  option_map (map (gridToLatLng pf)) (reconstructCells cameFrom current).

(** What one turn of [while (openSet.length > 0)] does. *)
Inductive Turn :=
| Return (route : option (list (LatLng N)))   (* a [return] statement *)
| Continue (s : Search).                      (* back to the loop test *)

Definition turn (pf : state) (riskWeight : num N) (endNode : Node)
                (s : Search) : Turn :=
  match sortByF (openSet s) with
  | [] => Return (Some [])
  | current :: rest =>
      if (ox current =? fst endNode) && (oy current =? snd endNode)
      then Return (reconstructPath pf (cameFrom s) (ox current, oy current))
      else
        let s1 := {| openSet := rest; cameFrom := cameFrom s;
                     gScore := gScore s; fScore := fScore s;
                     closedSet := setAdd (ox current, oy current) (closedSet s) |} in
        Continue
          (Grid.forEach (getNeighbors pf (ox current) (oy current))
             (expand pf riskWeight endNode (ox current, oy current)) s1)
  end.

(** The loop, run for at most [fuel] turns; [None] when the turns are used
    up, or when [reconstructPath] does not return. *)
Fixpoint searchLoop (fuel : nat) (pf : state) (riskWeight : num N)
                    (endNode : Node) (s : Search)
  : option (list (LatLng N)) :=
  match fuel with
  | O => None
  | S fuel' =>
      match turn pf riskWeight endNode s with
      | Return route => route
      | Continue s' => searchLoop fuel' pf riskWeight endNode s'
      end
  end.

(** The test [!isValid(start) || !isValid(end)] of [findPath]. *)
Definition outsideBounds (pf : state) (startNode endNode : Node) : bool :=
  negb (isValid pf (fst startNode) (snd startNode))
  || negb (isValid pf (fst endNode) (snd endNode)).

Definition startSearch (startNode endNode : Node) : Search :=
  let gScore0 := mapSet startNode #0 [] in
  let fScore0 := mapSet startNode (heuristic startNode endNode) [] in
  {| openSet := [ {| ox := fst startNode; oy := snd startNode;
                     f := scoreGet startNode fScore0 |} ];
     cameFrom := []; gScore := gScore0; fScore := fScore0;
     closedSet := [] |}.

Definition findPathFuel (fuel : nat) (pf : state)
                        (startLatLng endLatLng : LatLng N)
                        (userRiskTolerance : num N)
  : option (list (LatLng N)) :=
  let startNode := latLngToGrid pf startLatLng in
  let endNode := latLngToGrid pf endLatLng in
  if outsideBounds pf startNode endNode then Some []
  else
    let riskWeight := riskWeightOf userRiskTolerance in
    searchLoop fuel pf riskWeight endNode (startSearch startNode endNode).

(** One turn per cell of the grid, and one more, always suffice (shown
    below), so this is [findPath]. *)
Definition enoughFuel (pf : state) : nat :=
  S (Z.to_nat (gridSize pf) * Z.to_nat (gridSize pf)).

Definition findPath (pf : state) (startLatLng endLatLng : LatLng N)
                    (userRiskTolerance : num N) : list (LatLng N) :=
  match findPathFuel (enoughFuel pf) pf startLatLng endLatLng userRiskTolerance with
  | Some route => route
  | None => []
  end.
End Pathfinder.

Arguments state : clear implicits.
Arguments OpenNode : clear implicits.
Arguments Search : clear implicits.
Arguments Turn : clear implicits.
End Pathfinder.

(* ================================================================== *)
(** * Mission driver (src/main.js)

    [state], [missionState] and the functions [startMission],
    [pauseMission], [resumeMission], [abortMission], [finishMission] and
    [simulationLoop].  The map, the markers, the telemetry widgets and the
    timers ([setInterval], [clearInterval]) are display and scheduling; the
    model keeps the fields the functions compute with and the text given to
    [updateStatus]. *)

Module Mission.

Inductive StatusText : Type :=
| MISSION_ACTIVE | PAUSED | ABORTED | DANGER_REROUTING
| WARNING_HIGH_RISK_ZONE | LOW_BATTERY | MISSION_COMPLETE.

Section Mission.
Context {N : JSNum}.
Local Notation "# z" := (ofZ N z) (at level 5, z at level 0, format "# z").

Record missionState := {
  active : bool;
  paused : bool;
  path : list (LatLng N);
  currentIndex : Z;
  progress : num N;
  battery : num N;
  trailPoints : list (LatLng N)
}.

Record World := {
  pathfinder : Pathfinder.state N;
  endPoint : LatLng N;                          (* state.endPoint *)
  calculatedPath : option (list (LatLng N));    (* state.calculatedPath *)
  mission : missionState;
  status : StatusText                          (* the last updateStatus *)
}.

Definition withMission (w : World) (m : missionState) (t : StatusText) : World :=
  {| pathfinder := pathfinder w; endPoint := endPoint w;
     calculatedPath := calculatedPath w; mission := m; status := t |}.

Definition noPoint : LatLng N := {| lat := #0; lng := #0 |}.

Definition startMission (w : World) : World :=
  match calculatedPath w with
  | None => w
  | Some p =>
      if (Z.of_nat (length p) <? 2)%Z then w
      else
        withMission w
          {| active := true; paused := false; path := p;
             currentIndex := 0; progress := #0; battery := #100;
             trailPoints := [nth 0 p noPoint] |}
          MISSION_ACTIVE
  end.

Definition pauseMission (w : World) : World :=
  let m := mission w in
  if negb (active m) then w
  else
    withMission w
      {| active := active m; paused := true; path := path m;
         currentIndex := currentIndex m; progress := progress m;
         battery := battery m; trailPoints := trailPoints m |}
      PAUSED.

Definition resumeMission (w : World) : World :=
  let m := mission w in
  if negb (active m) then w
  else
    withMission w
      {| active := active m; paused := false; path := path m;
         currentIndex := currentIndex m; progress := progress m;
         battery := battery m; trailPoints := trailPoints m |}
      MISSION_ACTIVE.

Definition abortMission (w : World) : World :=
  let m := mission w in
  withMission w
    {| active := false; paused := false; path := path m;
       currentIndex := currentIndex m; progress := progress m;
       battery := battery m; trailPoints := trailPoints m |}
    ABORTED.

Definition finishMission (w : World) : World :=
  let m := mission w in
  withMission w
    {| active := false; paused := paused m; path := path m;
       currentIndex := currentIndex m; progress := progress m;
       battery := battery m; trailPoints := trailPoints m |}
    MISSION_COMPLETE.

(** The callback given to [setTimeout] in [simulationLoop]; [currentPos]
    is the position the enclosing call computed. *)
Definition reroute (currentPos : LatLng N) (w : World) : World :=
  let newPath := Pathfinder.findPath (pathfinder w) currentPos (endPoint w) #10 in
  if (Z.of_nat (length newPath) >? 0)%Z then
    let m := mission w in
    let w1 :=
      {| pathfinder := pathfinder w; endPoint := endPoint w;
         calculatedPath := Some newPath;
         mission := {| active := active m; paused := paused m;
                       path := newPath; currentIndex := 0; progress := #0;
                       battery := battery m; trailPoints := trailPoints m |};
         status := status w |} in
    resumeMission (startMission w1)
  else abortMission w.

(** [simulationLoop]: the world after the call and, when it scheduled the
    re-route callback, the position it captured. *)
Definition simulationLoop (w : World) : World * option (LatLng N) :=
  let m := mission w in
  if (battery m <=? #0)%J then (abortMission w, None)
  else
    let progress1 := (progress m + dec 2 10)%J in
    let '(progress2, index2) :=
      if (progress1 >=? #1)%J then (#0, currentIndex m + 1)
      else (progress1, currentIndex m) in
    let m2 := {| active := active m; paused := paused m; path := path m;
                 currentIndex := index2; progress := progress2;
                 battery := battery m; trailPoints := trailPoints m |} in
    if (index2 >=? Z.of_nat (length (path m)) - 1)%Z
    then (finishMission (withMission w m2 (status w)), None)
    else
      let currNode := nth (Z.to_nat index2) (path m) noPoint in
      let nextNode := nth (Z.to_nat (index2 + 1)) (path m) noPoint in
      let currentPos :=
        {| lat := (lat currNode + (lat nextNode - lat currNode) * progress2)%J;
           lng := (lng currNode + (lng nextNode - lng currNode) * progress2)%J |} in
      let m3 := {| active := active m; paused := paused m; path := path m;
                   currentIndex := index2; progress := progress2;
                   battery := (battery m - dec 5 10)%J;
                   trailPoints := trailPoints m ++ [currentPos] |} in
      let risk := Pathfinder.getRisk (pathfinder w) currentPos in
      let lowBattery (w' : World) : World :=
        if (battery (mission w') <? #20)%J
        then withMission w' (mission w') LOW_BATTERY else w' in
      if (risk >? #60)%J then
        let w3 := withMission w m3 DANGER_REROUTING in
        if active m3 && negb (paused m3)
        then (pauseMission w3, Some currentPos)
        else (lowBattery w3, None)
      else if (risk >? #30)%J
      then (lowBattery (withMission w m3 WARNING_HIGH_RISK_ZONE), None)
      else (lowBattery (withMission w m3 MISSION_ACTIVE), None).
End Mission.

Arguments missionState : clear implicits.
Arguments World : clear implicits.
End Mission.

(* ================================================================== *)
(** * Route statistics (src/main.js)

    Step 2, "Risk Analysis", of the click handler of the optimize button:
    the risk shown on the dashboard for the route that [findPath] returned. *)

Module Dashboard.
Section Dashboard.
Context {N : JSNum}.
Local Notation "# z" := (ofZ N z) (at level 5, z at level 0, format "# z").

(** [path.forEach(pt => { totalPathRisk += pathfinder.getRisk(pt); })]. *)
Definition totalPathRisk (pf : Pathfinder.state N) (path : list (LatLng N)) : num N :=
  Grid.forEach path
    (fun pt totalPathRisk => (totalPathRisk + Pathfinder.getRisk pf pt)%J) #0.

(** [path.length > 0 ? (totalPathRisk / path.length) : 0]. *)
Definition averageRisk (pf : Pathfinder.state N) (path : list (LatLng N)) : num N :=
  if (Z.of_nat (length path) >? 0)%Z
  then (totalPathRisk pf path / #(Z.of_nat (length path)))%J
  else #0.

(** [Math.max(0, (averageRisk - 10) * (100 / 90))], then the cap at 100. *)
Definition displayRisk (pf : Pathfinder.state N) (path : list (LatLng N)) : num N :=
  let displayRisk := nmax #0 ((averageRisk pf path - #10) * (#100 / #90))%J in
  if (displayRisk >? #100)%J then #100 else displayRisk.

(** Step 1, "Battery / Distance".  [totalDist] is the length of the route in
    kilometres, summed by Leaflet's [distanceTo]; [batteryLimit] is
    [parseFloat(inputBattery.value) || 15].  The route is refused when
    [totalDist > batteryLimit]. *)
Definition estBatteryUsage (totalDist batteryLimit : num N) : num N :=
  ((totalDist / batteryLimit) * #100)%J.

Definition insufficientPower (totalDist batteryLimit : num N) : bool :=
  (totalDist >? batteryLimit)%J.

(** Step 3, "Time Saved Calculation". *)
Definition timeSavedMin (totalDist displayRisk : num N) : num N :=
  let speedKmph := #60 in
  let distKm := totalDist in
  let timeHours := (distKm / speedKmph)%J in
  let timeMinutes := (timeHours * #60)%J in
  let riskFactor := ((displayRisk / #100) * dec 5 10)%J in
  let hypotheticalTime := (timeMinutes * (#1 + riskFactor))%J in
  (hypotheticalTime - timeMinutes)%J.
End Dashboard.
End Dashboard.

(* ================================================================== *)
(** * Vocabulary of the properties *)

(** The cells in the order the two nested loops visit them. *)
Definition cellsOf (xs ys : list Z) : list Node :=
  flat_map (fun y => map (fun x => (x, y)) xs) ys.

Definition cells (n : Z) : list Node := cellsOf (Grid.range n) (Grid.range n).

(** What one diffusion pass leaves in the cell [(x, y)] when it held [old]. *)
Definition diffused {N : JSNum} (pf : Pathfinder.state N) (x y old : Z) : Z :=
  if Grid.get 0 (Pathfinder.grid pf) x y >=? 100 then old
  else
    let m := Pathfinder.maxNeighborRisk pf x y in
    if m >? 15 then
      let diffusedRisk := nfloor N (nmul N (ofZ N m) (dec 6 10)) in
      if diffusedRisk >? old then diffusedRisk else old
    else old.

(** [M] is the largest risk among the neighbours of [(x, y)]. *)
Definition maxOfNeighbors {N : JSNum} (pf : Pathfinder.state N) (x y M : Z) : Prop :=
  (exists c, In c (Pathfinder.getNeighbors pf x y)
             /\ Grid.get 0 (Pathfinder.grid pf) (fst c) (snd c) = M)
  /\ forall c, In c (Pathfinder.getNeighbors pf x y) ->
               Grid.get 0 (Pathfinder.grid pf) (fst c) (snd c) <= M.

(** [c] is one of the 8 cells around [(x, y)] in a grid of [n] by [n]
    cells: a cell of the grid one step away along an axis or a diagonal. *)
Definition around (n x y : Z) (c : Node) : Prop :=
  (0 <= fst c < n /\ 0 <= snd c < n)
  /\ Z.max (Z.abs (fst c - x)) (Z.abs (snd c - y)) = 1.

(** [M] is the largest risk, in the grid before the pass, among the 8 cells
    around [(x, y)]. *)
Definition maxAround {N : JSNum} (pf : Pathfinder.state N) (x y M : Z) : Prop :=
  (exists c, around (Pathfinder.gridSize pf) x y c
             /\ Grid.get 0 (Pathfinder.grid pf) (fst c) (snd c) = M)
  /\ forall c, around (Pathfinder.gridSize pf) x y c ->
               Grid.get 0 (Pathfinder.grid pf) (fst c) (snd c) <= M.

(** The weather systems that the program can hold: [init] has run, and
    [update] any number of times since. *)
Inductive initialised {N : JSNum} : WeatherSystem.state N -> Prop :=
| initialised_init b rnd noise ws :
    initialised (WeatherSystem.init b rnd noise ws)
| initialised_update dt noise ws :
    initialised ws -> initialised (WeatherSystem.update dt noise ws).

(** What [updateGrid] last wrote: a square grid, each cell the value
    [cellWeather] computes from the systems, for some draw of the noise. *)
Definition recomputed {N : JSNum} (ws : WeatherSystem.state N) : Prop :=
  Grid.square (WeatherSystem.gridSize ws) (WeatherSystem.weatherGrid ws)
  /\ forall x y, 0 <= x < WeatherSystem.gridSize ws ->
                 0 <= y < WeatherSystem.gridSize ws ->
       exists noise,
         Grid.get None (WeatherSystem.weatherGrid ws) x y
         = Some (WeatherSystem.cellWeather ws noise x y).

(** The cells of the entries of the frontier [openSet], in order. *)
Definition openCells {N : JSNum} (l : list (Pathfinder.OpenNode N)) : list Node :=
  map (fun n => (Pathfinder.ox n, Pathfinder.oy n)) l.

(** The number of cells that follow the first occurrence of [k] in [l]; the
    closed set is kept latest first, so these were closed before [k]. *)
Fixpoint tailAfter (l : list Node) (k : Node) : nat :=
  match l with
  | [] => 0
  | c :: t => if Pathfinder.node_eqb c k then length t else tailAfter t k
  end.

(** The number of cells closed before [k]; for a cell not closed yet, the
    number of closed cells. *)
Definition rank (closed : list Node) (k : Node) : nat :=
  if Pathfinder.setHas k closed then tailAfter closed k else length closed.

(** What every turn of the loop of [findPath] keeps: no cell twice in the
    frontier or in the closed set, none in both, all of them cells of the
    grid, and every entry of [cameFrom] leads from a neighbour closed
    earlier to a cell of risk below 100. *)
Record Inv {N : JSNum} (pf : Pathfinder.state N) (s : Pathfinder.Search N) : Prop := {
  inv_open_nodup : NoDup (openCells (Pathfinder.openSet s));
  inv_closed_nodup : NoDup (Pathfinder.closedSet s);
  inv_disjoint : forall c, In c (openCells (Pathfinder.openSet s)) ->
                           ~ In c (Pathfinder.closedSet s);
  inv_open_valid : forall c, In c (openCells (Pathfinder.openSet s)) ->
                             Pathfinder.isValid pf (fst c) (snd c) = true;
  inv_closed_valid : forall c, In c (Pathfinder.closedSet s) ->
                               Pathfinder.isValid pf (fst c) (snd c) = true;
  inv_cameFrom : forall k p, Pathfinder.mapGet k (Pathfinder.cameFrom s) = Some p ->
                   (rank (Pathfinder.closedSet s) p < rank (Pathfinder.closedSet s) k)%nat;
  inv_entered : forall k p, Pathfinder.mapGet k (Pathfinder.cameFrom s) = Some p ->
                  In k (Pathfinder.getNeighbors pf (fst p) (snd p))
                  /\ Grid.get 0 (Pathfinder.grid pf) (fst k) (snd k) < 100
}.

(** The states the loop of [findPath] is in after [k] turns. *)
Inductive afterTurns {N : JSNum} (pf : Pathfinder.state N) (riskWeight : num N)
          (endNode : Node) (s0 : Pathfinder.Search N)
  : nat -> Pathfinder.Search N -> Prop :=
| afterTurns_O : afterTurns pf riskWeight endNode s0 O s0
| afterTurns_S k s s' :
    afterTurns pf riskWeight endNode s0 k s ->
    Pathfinder.turn pf riskWeight endNode s = Pathfinder.Continue s' ->
    afterTurns pf riskWeight endNode s0 (S k) s'.

(** The centre of the cell [(x, y)] lies in one of the polygons. *)
Definition inObstacle {N : JSNum} (polygons : list (list (LatLng N)))
           (pf : Pathfinder.state N) (x y : Z) : bool :=
  existsb (Pathfinder.isPointInPolygon (Pathfinder.gridToLatLng pf (x, y))) polygons.

(** The body of the loops of step 1 of [markObstacles]. *)
Definition markBody {N : JSNum} (polygons : list (list (LatLng N)))
           (pf : Pathfinder.state N) (x y : Z) (g : list (list Z)) : list (list Z) :=
  Pathfinder.markCell (Pathfinder.gridToLatLng pf (x, y)) polygons x y g.

(** Each cell of the list is the [cameFrom] of the next one. *)
Fixpoint linked (cf : list (Node * Node)) (l : list Node) : Prop :=
  match l with
  | a :: (b :: _) as rest => Pathfinder.mapGet b cf = Some a /\ linked cf rest
  | _ => True
  end.

(** Each cell of the list after the first is a neighbour of the one before
    and has a risk below 100. *)
Fixpoint walk {N : JSNum} (pf : Pathfinder.state N) (l : list Node) : Prop :=
  match l with
  | a :: (b :: _) as rest =>
      In b (Pathfinder.getNeighbors pf (fst a) (snd a))
      /\ Grid.get 0 (Pathfinder.grid pf) (fst b) (snd b) < 100
      /\ walk pf rest
  | _ => True
  end.

(** What the loop keeps about the start cell: it has no entry in
    [cameFrom], every other cell met so far has one, and the start cell is
    closed from the first turn on. *)
Record Origin {N : JSNum} (startNode : Node) (s : Pathfinder.Search N) : Prop := {
  origin_entries : forall c,
    In c (openCells (Pathfinder.openSet s)) \/ In c (Pathfinder.closedSet s) ->
    c = startNode \/ exists p, Pathfinder.mapGet c (Pathfinder.cameFrom s) = Some p;
  origin_free : Pathfinder.mapGet startNode (Pathfinder.cameFrom s) = None;
  origin_closed : In startNode (Pathfinder.closedSet s)
                  \/ (openCells (Pathfinder.openSet s) = [startNode]
                      /\ Pathfinder.closedSet s = [])
}.

(* ================================================================== *)
(** * Scenes *)

(** The Euclidean length of a route of cells. *)
Fixpoint routeLength {N : JSNum} (route : list Node) : num N :=
  match route with
  | a :: (b :: _) as rest => nadd N (Pathfinder.distCost a b) (routeLength rest)
  | _ => ofZ N 0
  end.

(** [route] leads from [startNode] to [endNode] through cells of the grid
    with risk below 100, each a neighbour of the one before. *)
Fixpoint stepsOk {N : JSNum} (pf : Pathfinder.state N) (route : list Node) : bool :=
  match route with
  | a :: (b :: _) as rest =>
      Pathfinder.setHas b (Pathfinder.getNeighbors pf (fst a) (snd a)) && stepsOk pf rest
  | _ => true
  end.

Definition admissibleRoute {N : JSNum} (pf : Pathfinder.state N)
           (startNode endNode : Node) (route : list Node) : bool :=
  match route with
  | [] => false
  | first :: _ =>
      Pathfinder.node_eqb first startNode
      && Pathfinder.node_eqb (last route first) endNode
      && forallb (fun c => Pathfinder.isValid pf (fst c) (snd c)
                           && (Grid.get 0 (Pathfinder.grid pf) (fst c) (snd c) <? 100)) route
      && stepsOk pf route
  end.

(** The two coordinates of a point, and whether an optional value is there. *)
Definition coords {N : JSNum} (p : LatLng N) : num N * num N := (lat p, lng p).

Definition isSome {A : Type} (o : option A) : bool :=
  match o with Some _ => true | None => false end.

Module Scene.
Definition F (z : Z) : PrimFloat.float := ofZ Float64 z.

(** A region of 5 by 5 degrees over a grid of 5 by 5 cells: cell [(x, y)]
    covers longitudes [x .. x+1] and latitudes [y .. y+1]. *)
Definition region : Bounds Float64 :=
  {| minLat := F 0; maxLat := F 5; minLng := F 0; maxLng := F 5 |}.

Definition corner (x y : Z) : LatLng Float64 := {| lat := F y; lng := F x |}.

(** A no-fly polygon: the outline of cell [(x, y)]. *)
Definition cellOutline (c : Node) : list (LatLng Float64) :=
  let (x, y) := c in
  [corner x y; corner (x + 1) y; corner (x + 1) (y + 1); corner x (y + 1)].

Definition empty : Pathfinder.state Float64 :=
  {| Pathfinder.gridSize := 5; Pathfinder.grid := [];
     Pathfinder.bounds := region; Pathfinder.weatherSystem := None |}.

Definition noFly : list Node :=
  [(1, 0); (2, 0); (2, 1); (4, 1); (1, 2); (2, 3); (0, 4); (4, 4)].

(** The planner after [initGrid] and [markObstacles] with eight no-fly
    cells. *)
Definition maze : Pathfinder.state Float64 :=
  Pathfinder.markObstacles (map cellOutline noFly)
    (Pathfinder.initGrid region empty).

(** Values of [Math.random()] for [init]: three systems; a storm of
    radius 5 and intensity 0.95 at [(4, 0)], and two wind systems of
    radius 5 and intensity 0.5 near [(5, 5)]; none drifts. *)
Definition draws (k : nat) : PrimFloat.float :=
  nth k [ F 0;
          dec 8 10; F 0; F 0; dec 9 10; dec 9 10; dec 5 10; dec 5 10;
          dec 998 1000; dec 998 1000; F 0; F 0; F 0; dec 5 10; dec 5 10;
          dec 998 1000; dec 998 1000; F 0; F 0; F 0; dec 5 10; dec 5 10 ]
      (F 0).

(** [Math.random()] returning 0 for the noise of every cell. *)
Definition calm (_ _ : Z) : PrimFloat.float := F 0.

Definition weather : WeatherSystem.state Float64 :=
  WeatherSystem.init region draws calm (WeatherSystem.create 5).

(** The planner over open terrain, linked to the weather. *)
Definition field : Pathfinder.state Float64 :=
  Pathfinder.setWeatherSystem weather
    (Pathfinder.markObstacles [] (Pathfinder.initGrid region empty)).

Definition center (x y : Z) : LatLng Float64 :=
  Pathfinder.gridToLatLng field (x, y).

(** A mission along row 0, from cell [(0, 0)] to cell [(4, 0)], planned
    at tolerance 50 and started. *)
Definition launched : Mission.World Float64 :=
  Mission.startMission
    {| Mission.pathfinder := field;
       Mission.endPoint := center 4 0;
       Mission.calculatedPath :=
         Some (Pathfinder.findPath field (center 0 0) (center 4 0) (F 50));
       Mission.mission :=
         {| Mission.active := false; Mission.paused := false;
            Mission.path := []; Mission.currentIndex := 0;
            Mission.progress := F 0; Mission.battery := F 100;
            Mission.trailPoints := [] |};
       Mission.status := Mission.MISSION_COMPLETE |}.

(** [k] firings of the timer of [simulationLoop], none of which asks for a
    re-route. *)
Fixpoint quietTicks (k : nat) (w : Mission.World Float64)
  : option (Mission.World Float64) :=
  match k with
  | O => Some w
  | S k' =>
      match Mission.simulationLoop w with
      | (w', None) => quietTicks k' w'
      | (_, Some _) => None
      end
  end.

(** The mission after seven quiet ticks, the eighth tick, and the position
    that tick hands to the re-route callback. *)
Definition cruising : Mission.World Float64 :=
  match quietTicks 7 launched with Some w => w | None => launched end.

Definition breach : Mission.World Float64 * option (LatLng Float64) :=
  Mission.simulationLoop cruising.

Definition breachPos : LatLng Float64 :=
  match snd breach with Some p => p | None => Mission.noPoint end.

(** Values of [Math.random()] for [init] on a grid of 60 cells: three wind
    systems at [(59, 30)], drifting at 0.04 cells per unit of time in [x]. *)
Definition gusts (k : nat) : PrimFloat.float :=
  match k with
  | O => F 0
  | S j => nth (j mod 7)
             [ dec 59 60; dec 5 10; F 0; F 0; dec 8 10; dec 9 10; dec 5 10 ]
             (F 0)
  end.

Definition sky : WeatherSystem.state Float64 :=
  WeatherSystem.init region gusts calm (WeatherSystem.create 60).
End Scene.


Module Ideal.
(** The region of the scenes, in exact arithmetic. *)
Definition region : Bounds RNum :=
  {| minLat := 0%R; maxLat := 5%R; minLng := 0%R; maxLng := 5%R |}.

(** Open terrain after [initGrid]. *)
Definition field : Pathfinder.state RNum :=
  Pathfinder.initGrid region
    {| Pathfinder.gridSize := 5; Pathfinder.grid := [];
       Pathfinder.bounds := region; Pathfinder.weatherSystem := None |}.

(** One no-fly cell in the middle of a grid of 3 by 3, before diffusion. *)
Definition walled : Pathfinder.state RNum :=
  {| Pathfinder.gridSize := 3;
     Pathfinder.grid := [[10; 10; 10]; [10; 100; 10]; [10; 10; 10]];
     Pathfinder.bounds := region; Pathfinder.weatherSystem := None |}.

(** A system half a cell from the upper edge in [x] of a grid of 60 cells,
    drifting towards it. *)
Definition drifter : WeatherSystem.Pattern RNum :=
  {| WeatherSystem.x := (595 / 10)%R; WeatherSystem.y := 30%R;
     WeatherSystem.radius := 5%R;
     WeatherSystem.type := WeatherSystem.WIND;
     WeatherSystem.intensity := 1%R;
     WeatherSystem.driftX := (5 / 100)%R; WeatherSystem.driftY := 0%R |}.

Definition sky : WeatherSystem.state RNum :=
  {| WeatherSystem.gridSize := 60;
     WeatherSystem.weatherGrid := Grid.make 60 None;
     WeatherSystem.bounds := Some region;
     WeatherSystem.patterns := [drifter];
     WeatherSystem.timeOffset := 0%R |}.

Definition calm (_ _ : Z) : R := 0%R.

(** A weather system as [init] leaves it, every draw of [Math.random()]
    being 0.5. *)
Definition weather : WeatherSystem.state RNum :=
  WeatherSystem.init region (fun _ => (5 / 10)%R) (fun _ _ => (5 / 10)%R)
    (WeatherSystem.create 5).
End Ideal.


(* ================================================================== *)
(** * Vocabulary of the further properties *)

(** What the loop of [findPath] keeps about the frontier: a neighbour with a
    risk below 100 of a closed cell is closed or in the frontier, the goal
    is not closed, and every cell that has a [gScore] is closed or in the
    frontier. *)
Record Frontier {N : JSNum} (pf : Pathfinder.state N) (endNode : Node)
       (s : Pathfinder.Search N) : Prop := {
  frontier_next : forall c nb,
    In c (Pathfinder.closedSet s) ->
    In nb (Pathfinder.getNeighbors pf (fst c) (snd c)) ->
    Grid.get 0 (Pathfinder.grid pf) (fst nb) (snd nb) < 100 ->
    In nb (Pathfinder.closedSet s) \/ In nb (openCells (Pathfinder.openSet s));
  frontier_goal : ~ In endNode (Pathfinder.closedSet s);
  frontier_scored : forall c,
    Pathfinder.mapHas c (Pathfinder.gScore s) = true ->
    In c (Pathfinder.closedSet s) \/ In c (openCells (Pathfinder.openSet s))
}.

(** [route] is a way from [startNode] to [endNode]: it starts with the one
    and ends with the other, and each cell after the first is one of the 8
    neighbours of the cell before it, with a risk below 100. *)
Definition wayBetween {N : JSNum} (pf : Pathfinder.state N)
           (startNode endNode : Node) (route : list Node) : Prop :=
  exists cells, route = startNode :: cells
                /\ last route startNode = endNode
                /\ walk pf route.

(** Some neighbour of the cell [c] has its centre in one of the polygons. *)
Definition nearObstacle {N : JSNum} (polygons : list (list (LatLng N)))
           (pf : Pathfinder.state N) (c : Node) : bool :=
  existsb (fun nb => inObstacle polygons pf (fst nb) (snd nb))
          (Pathfinder.getNeighbors pf (fst c) (snd c)).

(** The risk by the distance to the obstacles, counted in cells: 100 in an
    obstacle, 60 next to one, 36 one cell further, 10 elsewhere. *)
Definition gradient {N : JSNum} (polygons : list (list (LatLng N)))
           (pf : Pathfinder.state N) (x y : Z) : Z :=
  if inObstacle polygons pf x y then 100
  else if nearObstacle polygons pf (x, y) then 60
  else if existsb (nearObstacle polygons pf) (Pathfinder.getNeighbors pf x y) then 36
  else 10.

(** The rectangle [a <= lat <= b], [c <= lng <= d] as a polygon, corner by
    corner. *)
Definition rectangle {N : JSNum} (a b c d : num N) : list (LatLng N) :=
  [ {| lat := a; lng := c |}; {| lat := a; lng := d |};
    {| lat := b; lng := d |}; {| lat := b; lng := c |} ].

(** The ranges [generatePatterns] draws a system from, on a grid of [n]
    cells: a position in the grid, a radius from 5 to 15 cells, an intensity
    from 0.5 to 1 and a drift of at most 0.05 cells per unit of time. *)
Definition drawn (n : Z) (p : WeatherSystem.Pattern RNum) : Prop :=
  (0 <= WeatherSystem.x p < IZR n)%R /\ (0 <= WeatherSystem.y p < IZR n)%R
  /\ (5 <= WeatherSystem.radius p < 15)%R
  /\ (5 / 10 <= WeatherSystem.intensity p < 1)%R
  /\ (- (5 / 100) <= WeatherSystem.driftX p < 5 / 100)%R
  /\ (- (5 / 100) <= WeatherSystem.driftY p < 5 / 100)%R.

(** The weather as the program runs it: [init] with every value of
    [Math.random()] in [[0, 1)], then [update] for ticks of at most
    [20 * gridSize] units of time (the program's tick is 0.1). *)
Inductive running : WeatherSystem.state RNum -> Prop :=
| running_init b rnd noise ws :
    1 <= WeatherSystem.gridSize ws ->
    (forall k, (0 <= rnd k < 1)%R) ->
    running (WeatherSystem.init b rnd noise ws)
| running_update dt noise ws :
    running ws ->
    (0 <= dt <= 20 * IZR (WeatherSystem.gridSize ws))%R ->
    running (WeatherSystem.update dt noise ws).

(** The distance from the cell [(cx, cy)] to the centre of the system [p],
    as [updateGrid] computes it. *)
Definition distanceTo (cx cy : Z) (p : WeatherSystem.Pattern RNum) : R :=
  sqrt ((IZR cx - WeatherSystem.x p) * (IZR cx - WeatherSystem.x p)
        + (IZR cy - WeatherSystem.y p) * (IZR cy - WeatherSystem.y p)).

(** [k] calls of [simulationLoop] one after the other, none of which
    schedules the re-route callback ([None] when one does). *)
Fixpoint quietRun {N : JSNum} (k : nat) (w : Mission.World N)
  : option (Mission.World N) :=
  match k with
  | O => Some w
  | S k' =>
      match Mission.simulationLoop w with
      | (w', None) => quietRun k' w'
      | (_, Some _) => None
      end
  end.

(** Further scenes in exact arithmetic. *)
Module Cases.
(** Open terrain under the weather of [Ideal.weather]. *)
Definition guarded : Pathfinder.state RNum :=
  Pathfinder.setWeatherSystem Ideal.weather Ideal.field.

(** A no-fly zone over the first cell of the region. *)
Definition zone : list (LatLng RNum) := rectangle (N := RNum) 0%R 1%R 0%R 1%R.

Definition mission (battery : R) (paused : bool) : Mission.missionState RNum :=
  {| Mission.active := true; Mission.paused := paused;
     Mission.path := [Pathfinder.gridToLatLng Ideal.field (0, 0);
                      Pathfinder.gridToLatLng Ideal.field (1, 0)];
     Mission.currentIndex := 0; Mission.progress := 0%R;
     Mission.battery := battery; Mission.trailPoints := [] |}.

(** A mission paused for a re-route, with the goal in cell [(1, 0)]. *)
Definition halted : Mission.World RNum :=
  {| Mission.pathfinder := Ideal.field;
     Mission.endPoint := Pathfinder.gridToLatLng Ideal.field (1, 0);
     Mission.calculatedPath := None;
     Mission.mission := mission 96%R true;
     Mission.status := Mission.PAUSED |}.

(** A mission in flight over open terrain, with a full battery. *)
Definition flight : Mission.World RNum :=
  {| Mission.pathfinder := Ideal.field;
     Mission.endPoint := Pathfinder.gridToLatLng Ideal.field (1, 0);
     Mission.calculatedPath := None;
     Mission.mission := mission 100%R false;
     Mission.status := Mission.MISSION_ACTIVE |}.
End Cases.

(** Scenes at the limits of binary64. *)
Module Rounding.
(** The distance from 1 to the next double, [2^-52]. *)
Definition ulp : PrimFloat.float := ndiv Float64 (Scene.F 1) (Scene.F (2 ^ 52)).

(** A region five doubles high: latitudes from 1 to [1 + 5 * 2^-52]. *)
Definition sliver : Bounds Float64 :=
  {| minLat := Scene.F 1;
     maxLat := nadd Float64 (Scene.F 1) (nmul Float64 (Scene.F 5) ulp);
     minLng := Scene.F 0; maxLng := Scene.F 5 |}.

(** The planner after [initGrid] on that region, with 5 by 5 cells. *)
Definition narrow : Pathfinder.state Float64 :=
  Pathfinder.initGrid sliver
    {| Pathfinder.gridSize := 5; Pathfinder.grid := [];
       Pathfinder.bounds := sliver; Pathfinder.weatherSystem := None |}.

(** The largest value of [Math.random()], [1 - 2^-53], at every draw. *)
Definition top : PrimFloat.float :=
  nsub Float64 (Scene.F 1) (ndiv Float64 (Scene.F 1) (Scene.F (2 ^ 53))).

(** The weather that [init] leaves on a grid of 60 cells with those draws. *)
Definition brink : WeatherSystem.state Float64 :=
  WeatherSystem.init Scene.region (fun _ => top) Scene.calm (WeatherSystem.create 60).

(** A tick of [1200 + 2^-42] units of time. *)
Definition tick : PrimFloat.float :=
  nadd Float64 (Scene.F 1200) (ndiv Float64 (Scene.F 1) (Scene.F (2 ^ 42))).
End Rounding.

(* ================================================================== *)
(** * Properties *)

(* ================================================================== *)
(** * Properties *)

(** ** Comparisons and literals of the real-number instance *)

Lemma Rltb_true (a b : R) : Rltb a b = true <-> (a < b)%R.
Proof. unfold Rltb. destruct (Rlt_dec a b); split; intros; try easy; lra. Qed.

Lemma Rltb_false (a b : R) : Rltb a b = false <-> (b <= a)%R.
Proof. unfold Rltb. destruct (Rlt_dec a b); split; intros; try easy; lra. Qed.

Lemma Rleb_true (a b : R) : Rleb a b = true <-> (a <= b)%R.
Proof. unfold Rleb. destruct (Rle_dec a b); split; intros; try easy; lra. Qed.

Lemma Rleb_false (a b : R) : Rleb a b = false <-> (b < a)%R.
Proof. unfold Rleb. destruct (Rle_dec a b); split; intros; try easy; lra. Qed.

Lemma nmax_R (a b : R) : @nmax RNum a b = Rmax a b.
Proof.
  unfold nmax, Rmax; cbn. destruct (Rle_dec a b), (Rltb a b) eqn:E;
    try reflexivity.
  - apply Rltb_false in E. lra.
  - apply Rltb_true in E. lra.
Qed.

Lemma nmin_R (a b : R) : @nmin RNum a b = Rmin a b.
Proof.
  unfold nmin, Rmin; cbn. destruct (Rle_dec a b), (Rltb b a) eqn:E;
    try reflexivity.
  - apply Rltb_true in E. lra.
  - apply Rltb_false in E. lra.
Qed.

Lemma dec_R (p q : Z) : @dec RNum p q = (IZR p / IZR q)%R.
Proof. reflexivity. Qed.

(** Case analysis on a comparison of reals met in a goal. *)
Ltac cmpR :=
  repeat match goal with
  | |- context [Rltb ?a ?b] =>
      let E := fresh "E" in
      destruct (Rltb a b) eqn:E;
      [apply Rltb_true in E | apply Rltb_false in E]
  | |- context [Rleb ?a ?b] =>
      let E := fresh "E" in
      destruct (Rleb a b) eqn:E;
      [apply Rleb_true in E | apply Rleb_false in E]
  end.

(** ** Cells of the grid *)

Lemma isValid_iff (n x y : Z) :
  Geo.isValid n x y = true <-> 0 <= x < n /\ 0 <= y < n.
Proof. unfold Geo.isValid. lia. Qed.

Lemma latLngToGrid_valid (N : JSNum) (n : Z) (b : Bounds N) (p : LatLng N) :
  1 <= n ->
  Geo.isValid n (fst (Geo.latLngToGrid n b p)) (snd (Geo.latLngToGrid n b p)) = true.
Proof. intros Hn. apply isValid_iff. unfold Geo.latLngToGrid; cbn. lia. Qed.

(** [Math.floor] of a half-integer. *)
Lemma Int_part_half (z : Z) : Int_part (IZR z + 5 / 10) = z.
Proof. symmetry. apply Int_part_spec. lra. Qed.

(** The centre of a cell lies in that cell (exact arithmetic). *)
Lemma center_in_cell (n : Z) (b : Bounds RNum) (g : list (list Z))
      (w : option (WeatherSystem.state RNum)) (x y : Z) :
  0 <= x < n -> 0 <= y < n ->
  (minLat b < maxLat b)%R -> (minLng b < maxLng b)%R ->
  Geo.latLngToGrid n b
    (Pathfinder.gridToLatLng
       {| Pathfinder.gridSize := n; Pathfinder.grid := g;
          Pathfinder.bounds := b; Pathfinder.weatherSystem := w |} (x, y))
  = (x, y).
Proof.
  intros Hx Hy Hlat Hlng.
  assert (Hn : (0 < IZR n)%R) by (apply IZR_lt; lia).
  unfold Geo.latLngToGrid, Pathfinder.gridToLatLng; cbn.
  replace ((minLat b + (IZR y + 5 / 10) * ((maxLat b - minLat b) / IZR n)
            - minLat b) / (maxLat b - minLat b) * IZR n)%R
    with (IZR y + 5 / 10)%R by (field; lra).
  replace ((minLng b + (IZR x + 5 / 10) * ((maxLng b - minLng b) / IZR n)
            - minLng b) / (maxLng b - minLng b) * IZR n)%R
    with (IZR x + 5 / 10)%R by (field; lra).
  rewrite !Int_part_half. f_equal; lia.
Qed.

(** ** Moving weather systems *)

(** Where [update] leaves a system whose drift over the tick is at most one
    grid width: inside the grid, one grid width away from the drifted
    position at most. *)
Lemma movePattern_wraps (n : Z) (dt : R) (p : WeatherSystem.Pattern RNum) :
  let p' := WeatherSystem.movePattern (N:=RNum) n dt p in
  let tx := (WeatherSystem.x p + WeatherSystem.driftX p * dt)%R in
  let ty := (WeatherSystem.y p + WeatherSystem.driftY p * dt)%R in
  (0 <= WeatherSystem.x p < IZR n)%R -> (0 <= WeatherSystem.y p < IZR n)%R ->
  (- IZR n <= WeatherSystem.driftX p * dt <= IZR n)%R ->
  (- IZR n <= WeatherSystem.driftY p * dt <= IZR n)%R ->
  (0 <= WeatherSystem.x p' < IZR n)%R /\ (0 <= WeatherSystem.y p' < IZR n)%R
  /\ WeatherSystem.x p' =
       (if Rlt_dec tx 0 then tx + IZR n
        else if Rle_dec (IZR n) tx then tx - IZR n else tx)%R
  /\ WeatherSystem.y p' =
       (if Rlt_dec ty 0 then ty + IZR n
        else if Rle_dec (IZR n) ty then ty - IZR n else ty)%R.
Proof.
  intros p' tx ty Hx Hy Hdx Hdy. subst p' tx ty.
  unfold WeatherSystem.movePattern. cbn.
  repeat match goal with
  | |- context [Rlt_dec ?a ?b] => destruct (Rlt_dec a b)
  | |- context [Rle_dec ?a ?b] => destruct (Rle_dec a b)
  end;
  cmpR; cbn in *; cmpR; cbn in *; cmpR; cbn in *; cmpR; cbn in *;
  repeat split; lra.
Qed.

(** ** Arrays: reads and writes *)

Lemma setNth_length {B} (i : nat) (v : B) (l : list B) :
  length (Grid.setNth i v l) = length l.
Proof. revert i; induction l; destruct i; cbn; auto. Qed.

Lemma nth_setNth_same {B} (i : nat) (v d : B) (l : list B) :
  (i < length l)%nat -> nth i (Grid.setNth i v l) d = v.
Proof. revert i; induction l; destruct i; cbn; intros; try lia; auto. apply IHl; lia. Qed.

Lemma nth_setNth_other {B} (i j : nat) (v d : B) (l : list B) :
  i <> j -> nth j (Grid.setNth i v l) d = nth j l d.
Proof.
  revert i j; induction l; destruct i, j; cbn; intros; try lia; auto.
Qed.

Section GridFacts.
Context {A : Type}.
Variable n : Z.
Variable d : A.

Lemma square_row (g : list (list A)) (y : Z) :
  Grid.square n g -> 0 <= y < n ->
  length (nth (Z.to_nat y) g []) = Z.to_nat n.
Proof.
  intros [Hl Hr] Hy. rewrite Forall_forall in Hr. apply Hr.
  apply nth_In. lia.
Qed.

Lemma square_make (v : A) : Grid.square n (Grid.make n v).
Proof.
  unfold Grid.square, Grid.make. split.
  - apply repeat_length.
  - apply Forall_forall. intros row H. apply repeat_spec in H. subst.
    apply repeat_length.
Qed.

Lemma get_make (v : A) (x y : Z) :
  0 <= x < n -> 0 <= y < n -> Grid.get d (Grid.make n v) x y = v.
Proof.
  intros Hx Hy. unfold Grid.get, Grid.make.
  rewrite nth_repeat_lt by lia. apply nth_repeat_lt; lia.
Qed.

Lemma square_set (g : list (list A)) (x y : Z) (v : A) :
  Grid.square n g -> 0 <= x < n -> 0 <= y < n ->
  Grid.square n (Grid.set g x y v).
Proof.
  intros Hsq Hx Hy. pose proof (square_row Hsq Hy) as Hrow.
  destruct Hsq as [Hl Hr]. unfold Grid.square, Grid.set. split.
  - now rewrite setNth_length.
  - rewrite Forall_forall in *. intros row Hin.
    destruct (In_nth _ _ [] Hin) as (j & Hj & <-).
    rewrite setNth_length in Hj.
    destruct (Nat.eq_dec (Z.to_nat y) j) as [<-|Hne].
    + rewrite nth_setNth_same by lia. now rewrite setNth_length.
    + rewrite nth_setNth_other by assumption. apply Hr, nth_In; lia.
Qed.

Lemma get_set_same (g : list (list A)) (x y : Z) (v : A) :
  Grid.square n g -> 0 <= x < n -> 0 <= y < n ->
  Grid.get d (Grid.set g x y v) x y = v.
Proof.
  intros Hsq Hx Hy. pose proof (square_row Hsq Hy) as Hrow.
  destruct Hsq as [Hl Hr]. unfold Grid.get, Grid.set.
  rewrite nth_setNth_same by lia. apply nth_setNth_same. lia.
Qed.

Lemma get_set_other (g : list (list A)) (x y x' y' : Z) (v : A) :
  Grid.square n g -> 0 <= x < n -> 0 <= y < n ->
  0 <= x' < n -> 0 <= y' < n -> (x', y') <> (x, y) ->
  Grid.get d (Grid.set g x y v) x' y' = Grid.get d g x' y'.
Proof.
  intros Hsq Hx Hy Hx' Hy' Hne. destruct Hsq as [Hl Hr].
  unfold Grid.get, Grid.set.
  destruct (Z.eq_dec y y') as [<-|Hy''].
  - rewrite nth_setNth_same by lia.
    apply nth_setNth_other. intros E. apply Hne. f_equal. lia.
  - rewrite nth_setNth_other by lia. reflexivity.
Qed.
End GridFacts.

(** ** The nested loop over the cells of the grid *)

Lemma range_In (n z : Z) : In z (Grid.range n) <-> 0 <= z < n.
Proof.
  unfold Grid.range. rewrite in_map_iff. split.
  - intros (k & <- & Hk). apply in_seq in Hk. lia.
  - intros H. exists (Z.to_nat z). split; [lia|]. apply in_seq. lia.
Qed.

Lemma range_NoDup (n : Z) : NoDup (Grid.range n).
Proof.
  unfold Grid.range. apply Injective_map_NoDup_in.
  - intros a b _ _ H. lia.
  - apply seq_NoDup.
Qed.

Lemma range_length (n : Z) : length (Grid.range n) = Z.to_nat n.
Proof. unfold Grid.range. now rewrite length_map, length_seq. Qed.

Lemma node_eq_dec (a b : Node) : {a = b} + {a <> b}.
Proof. decide equality; apply Z.eq_dec. Defined.

Lemma cellsOf_In (xs ys : list Z) (c : Node) :
  In c (cellsOf xs ys) <-> In (fst c) xs /\ In (snd c) ys.
Proof.
  unfold cellsOf. rewrite in_flat_map. split.
  - intros (y & Hy & Hc). apply in_map_iff in Hc. destruct Hc as (x & <- & Hx).
    now cbn.
  - intros [Hx Hy]. exists (snd c). split; [assumption|].
    apply in_map_iff. exists (fst c). split; [now destruct c|assumption].
Qed.

Lemma cells_In (n : Z) (c : Node) :
  In c (cells n) <-> 0 <= fst c < n /\ 0 <= snd c < n.
Proof. unfold cells. now rewrite cellsOf_In, !range_In. Qed.

Lemma cellsOf_NoDup (xs ys : list Z) :
  NoDup xs -> NoDup ys -> NoDup (cellsOf xs ys).
Proof.
  intros Hxs Hys. induction Hys as [|y ys Hy Hys IH]; cbn.
  - constructor.
  - apply NoDup_app.
    + apply Injective_map_NoDup_in; [|assumption]. intros a b _ _ H. congruence.
    + exact IH.
    + intros c Hc Hc'. apply in_map_iff in Hc. destruct Hc as (x & <- & _).
      apply cellsOf_In in Hc'. cbn in Hc'. tauto.
Qed.

Lemma cells_NoDup (n : Z) : NoDup (cells n).
Proof. apply cellsOf_NoDup; apply range_NoDup. Qed.

Lemma cellsOf_length (xs ys : list Z) :
  length (cellsOf xs ys) = (length ys * length xs)%nat.
Proof.
  unfold cellsOf. induction ys as [|y ys IH]; simpl; [reflexivity|].
  rewrite length_app, length_map. f_equal. exact IH.
Qed.

Lemma cells_length (n : Z) : length (cells n) = (Z.to_nat n * Z.to_nat n)%nat.
Proof. unfold cells. now rewrite cellsOf_length, range_length. Qed.

Section Loop2D.
Context {S : Type}.
Variable body : Z -> Z -> S -> S.

(** The two nested loops are one loop over [cellsOf]. *)
Lemma forEach2_cells (xs ys : list Z) (s : S) :
  Grid.forEach ys (fun y => Grid.forEach xs (fun x s => body x y s)) s
  = fold_left (fun s c => body (fst c) (snd c) s) (cellsOf xs ys) s.
Proof.
  unfold Grid.forEach. revert s. induction ys as [|y ys IH]; intros s; cbn.
  - reflexivity.
  - rewrite fold_left_app, IH. f_equal.
    clear. revert s. induction xs as [|x xs IH]; intros s; cbn; auto.
Qed.
End Loop2D.

Section WriteLoop.
Context {A : Type}.
Variable n : Z.
Variable d : A.
Variable body : Z -> Z -> list (list A) -> list (list A).
Variable val : Z -> Z -> A -> A.

(** The body at [(x, y)] keeps the grid square, leaves at [(x, y)] a value
    computed from the one it found there, and leaves the other cells. *)
Hypothesis body_square : forall x y g,
  Grid.square n g -> 0 <= x < n -> 0 <= y < n -> Grid.square n (body x y g).
Hypothesis body_same : forall x y g,
  Grid.square n g -> 0 <= x < n -> 0 <= y < n ->
  Grid.get d (body x y g) x y = val x y (Grid.get d g x y).
Hypothesis body_other : forall x y x' y' g,
  Grid.square n g -> 0 <= x < n -> 0 <= y < n ->
  0 <= x' < n -> 0 <= y' < n -> (x', y') <> (x, y) ->
  Grid.get d (body x y g) x' y' = Grid.get d g x' y'.

Lemma fold_cells (l : list Node) (g : list (list A)) :
  NoDup l -> (forall c, In c l -> 0 <= fst c < n /\ 0 <= snd c < n) ->
  Grid.square n g ->
  let g' := fold_left (fun g c => body (fst c) (snd c) g) l g in
  Grid.square n g'
  /\ forall x y, 0 <= x < n -> 0 <= y < n ->
       (In (x, y) l -> Grid.get d g' x y = val x y (Grid.get d g x y))
       /\ (~ In (x, y) l -> Grid.get d g' x y = Grid.get d g x y).
Proof.
  intros Hnd. revert g.
  induction Hnd as [|c l Hc Hnd IH]; intros g Hin Hsq; simpl fold_left.
  - split; [assumption|]. intros; split; [intros []|reflexivity].
  - destruct (Hin c (or_introl eq_refl)) as [Hcx Hcy].
    destruct (IH (body (fst c) (snd c) g)) as [Hsq' Hget].
    + intros c' Hc'. apply Hin. now right.
    + now apply body_square.
    + split; [assumption|]. intros x y Hx Hy.
      destruct (Hget x y Hx Hy) as [Hg1 Hg2].
      destruct (node_eq_dec c (x, y)) as [->|Hne].
      * cbn [fst snd] in *. split.
        -- intros _. rewrite Hg2 by assumption. now apply body_same.
        -- intros Hni. exfalso. apply Hni. now left.
      * assert (Ho : Grid.get d (body (fst c) (snd c) g) x y = Grid.get d g x y).
        { apply body_other; auto. destruct c; cbn. congruence. }
        split.
        -- intros [E|Hi]; [congruence|]. rewrite Hg1 by assumption. now rewrite Ho.
        -- intros Hni. rewrite Hg2; [assumption|]. intros Hi. apply Hni. now right.
Qed.

(** After the two loops every cell holds [val] of what it held before. *)
Lemma write_loop (g : list (list A)) :
  Grid.square n g ->
  let g' := Grid.forEach (Grid.range n) (fun y =>
              Grid.forEach (Grid.range n) (fun x g => body x y g)) g in
  Grid.square n g'
  /\ forall x y, 0 <= x < n -> 0 <= y < n ->
       Grid.get d g' x y = val x y (Grid.get d g x y).
Proof.
  intros Hsq g'. subst g'. rewrite forEach2_cells.
  destruct (@fold_cells (cells n) g (cells_NoDup n)) as [H1 H2]; auto.
  - intros c Hc. now apply cells_In.
  - split; [exact H1|]. intros x y Hx Hy.
    apply (H2 x y Hx Hy). apply cells_In. now cbn.
Qed.
End WriteLoop.

(** ** Neighbours *)

Lemma push_loop {B C : Type} (f : B -> C) (P : C -> bool) (l : list B) (acc : list C) :
  Grid.forEach l (fun b acc => if P (f b) then acc ++ [f b] else acc) acc
  = acc ++ filter P (map f l).
Proof.
  unfold Grid.forEach. revert acc. induction l as [|b l IH]; intros acc; cbn.
  - now rewrite app_nil_r.
  - rewrite IH. destruct (P (f b)); [|reflexivity].
    now rewrite <- app_assoc.
Qed.

Lemma getNeighbors_filter (N : JSNum) (pf : Pathfinder.state N) (x y : Z) :
  Pathfinder.getNeighbors pf x y
  = filter (fun c => Pathfinder.isValid pf (fst c) (snd c))
           (map (fun dir => (x + fst dir, y + snd dir)) Pathfinder.directions).
Proof.
  unfold Pathfinder.getNeighbors.
  exact (push_loop (fun dir => (x + fst dir, y + snd dir))
                   (fun c => Pathfinder.isValid pf (fst c) (snd c))
                   Pathfinder.directions []).
Qed.

Lemma directions_In (dx dy : Z) :
  In (dx, dy) Pathfinder.directions
  <-> -1 <= dx <= 1 /\ -1 <= dy <= 1 /\ (dx, dy) <> (0, 0).
Proof.
  unfold Pathfinder.directions. cbn. split.
  - intros H.
    repeat (destruct H as [H|H]; [inversion H; subst; repeat split; (lia || discriminate)|]).
    destruct H.
  - intros (Hx & Hy & Hne).
    assert (Ex : dx = -1 \/ dx = 0 \/ dx = 1) by lia.
    assert (Ey : dy = -1 \/ dy = 0 \/ dy = 1) by lia.
    destruct Ex as [-> | [-> | ->]], Ey as [-> | [-> | ->]]; tauto.
Qed.

(** The neighbours are the cells of the grid one step away in each axis at
    most, the cell itself left out: the 8-connected neighbourhood. *)
Lemma getNeighbors_In (N : JSNum) (pf : Pathfinder.state N) (x y : Z) (c : Node) :
  In c (Pathfinder.getNeighbors pf x y)
  <-> Pathfinder.isValid pf (fst c) (snd c) = true
      /\ -1 <= fst c - x <= 1 /\ -1 <= snd c - y <= 1 /\ c <> (x, y).
Proof.
  rewrite getNeighbors_filter, filter_In, in_map_iff. split.
  - intros [(dir & <- & Hd) Hv]. destruct dir as [dx dy].
    apply directions_In in Hd. cbn in *. repeat split; try lia; try assumption.
    intros E. inversion E. destruct Hd as (_ & _ & Hne). apply Hne. f_equal; lia.
  - intros (Hv & Hx & Hy & Hne). split; [|assumption].
    exists (fst c - x, snd c - y). split.
    + destruct c; cbn. f_equal; lia.
    + apply directions_In. repeat split; try lia.
      intros E. inversion E. apply Hne. destruct c; cbn in *. f_equal; lia.
Qed.

(** ** Risk diffusion *)

Lemma max_loop {B : Type} (r : B -> Z) (l : list B) (m0 : Z) :
  let m := Grid.forEach l (fun b m => if r b >? m then r b else m) m0 in
  m0 <= m /\ (forall b, In b l -> r b <= m)
  /\ (m = m0 \/ exists b, In b l /\ m = r b).
Proof.
  unfold Grid.forEach. revert m0. induction l as [|b l IH]; intros m0; cbn.
  - split; [lia|split; [intros b []|now left]].
  - destruct (IH (if r b >? m0 then r b else m0)) as (H1 & H2 & H3).
    repeat split.
    + destruct (r b >? m0) eqn:E; lia.
    + intros b' [<-|Hb]; [|now apply H2]. destruct (r b >? m0) eqn:E; lia.
    + destruct H3 as [H3|(b' & Hb' & H3)].
      * destruct (r b >? m0) eqn:E; [right; exists b; auto|now left].
      * right. exists b'. auto.
Qed.

Section Diffusion.
Context {N : JSNum}.
Variable pf : Pathfinder.state N.
Let n := Pathfinder.gridSize pf.
Let risk (x y : Z) : Z := Grid.get 0 (Pathfinder.grid pf) x y.

Lemma diffuseCell_square x y g :
  Grid.square n g -> 0 <= x < n -> 0 <= y < n ->
  Grid.square n (Pathfinder.diffuseCell pf x y g).
Proof.
  intros. unfold Pathfinder.diffuseCell.
  repeat match goal with |- context [if ?c then _ else _] => destruct c end;
    try assumption. now apply square_set.
Qed.

Lemma diffuseCell_same x y g :
  Grid.square n g -> 0 <= x < n -> 0 <= y < n ->
  Grid.get 0 (Pathfinder.diffuseCell pf x y g) x y = diffused pf x y (Grid.get 0 g x y).
Proof.
  intros. unfold Pathfinder.diffuseCell, diffused. cbv zeta.
  repeat match goal with |- context [if ?c then _ else _] => destruct c end;
    try reflexivity. now apply get_set_same with (n := n).
Qed.

Lemma diffuseCell_other x y x' y' g :
  Grid.square n g -> 0 <= x < n -> 0 <= y < n ->
  0 <= x' < n -> 0 <= y' < n -> (x', y') <> (x, y) ->
  Grid.get 0 (Pathfinder.diffuseCell pf x y g) x' y' = Grid.get 0 g x' y'.
Proof.
  intros. unfold Pathfinder.diffuseCell.
  repeat match goal with |- context [if ?c then _ else _] => destruct c end;
    try reflexivity. now apply get_set_other with (n := n).
Qed.

(** One pass, cell by cell. *)
Lemma applyRiskDiffusion_cell :
  Grid.square n (Pathfinder.grid pf) ->
  Grid.square n (Pathfinder.grid (Pathfinder.applyRiskDiffusion pf))
  /\ forall x y, 0 <= x < n -> 0 <= y < n ->
       Grid.get 0 (Pathfinder.grid (Pathfinder.applyRiskDiffusion pf)) x y
       = diffused pf x y (risk x y).
Proof.
  intros Hsq. unfold Pathfinder.applyRiskDiffusion. cbn [Pathfinder.grid Pathfinder.setGrid].
  rewrite map_id.
  exact (write_loop 0 (Pathfinder.diffuseCell pf) (diffused pf)
           diffuseCell_square diffuseCell_same diffuseCell_other Hsq).
Qed.

Lemma diffused_wall x y : 100 <= risk x y -> diffused pf x y (risk x y) = risk x y.
Proof. unfold diffused, risk. intros H. now rewrite (proj2 (Z.geb_le _ _) H). Qed.

Lemma diffused_ge x y old : old <= diffused pf x y old.
Proof.
  unfold diffused.
  repeat match goal with |- context [if ?c then _ else _] => destruct c eqn:? end;
    lia.
Qed.
End Diffusion.

Lemma maxNeighborRisk_spec (N : JSNum) (pf : Pathfinder.state N) (x y : Z) :
  let m := Pathfinder.maxNeighborRisk pf x y in
  (Pathfinder.getNeighbors pf x y = [] -> m = 0)
  /\ forall M, maxOfNeighbors pf x y M -> m = Z.max 0 M.
Proof.
  intros m.
  destruct (max_loop (fun c => Grid.get 0 (Pathfinder.grid pf) (fst c) (snd c))
                     (Pathfinder.getNeighbors pf x y) 0) as (H0 & Hle & Hat).
  fold (Pathfinder.maxNeighborRisk pf x y) in H0, Hle, Hat. fold m in H0, Hle, Hat.
  split.
  - intros E. rewrite E in Hat. destruct Hat as [Hat|(c & [] & _)]. exact Hat.
  - intros M [(c & Hc & <-) Hmax]. specialize (Hle c Hc).
    destruct Hat as [Hat|(c' & Hc' & Hat)].
    + lia.
    + specialize (Hmax c' Hc'). lia.
Qed.

(** [Math.floor(m * 0.6)] in exact arithmetic is the integer quotient of
    [3 m] by [5]. *)
Lemma floor_decay (m : Z) : Int_part (IZR m * (6 / 10)) = 3 * m / 5.
Proof.
  symmetry. apply Int_part_spec.
  pose proof (Z.mul_div_le (3 * m) 5 ltac:(lia)) as H1.
  pose proof (Z.mul_succ_div_gt (3 * m) 5 ltac:(lia)) as H2.
  apply IZR_le in H1. apply IZR_lt in H2.
  rewrite !mult_IZR in H1, H2. rewrite succ_IZR in H2.
  lra.
Qed.

Lemma around_getNeighbors (N : JSNum) (pf : Pathfinder.state N) (x y : Z) (c : Node) :
  around (Pathfinder.gridSize pf) x y c <-> In c (Pathfinder.getNeighbors pf x y).
Proof.
  rewrite getNeighbors_In. unfold around, Pathfinder.isValid. rewrite isValid_iff.
  split.
  - intros [Hv Hd]. split; [exact Hv|]. split; [lia|]. split; [lia|].
    intros ->. cbn in Hd. rewrite !Z.sub_diag in Hd. cbn in Hd. lia.
  - intros (Hv & Hx & Hy & Hne). split; [exact Hv|].
    assert (fst c - x <> 0 \/ snd c - y <> 0).
    { destruct (Z.eq_dec (fst c - x) 0) as [Ex|Ex]; [|now left]. right.
      intros Ey. apply Hne. destruct c; cbn in *. f_equal; lia. }
    lia.
Qed.

Lemma maxAround_maxOfNeighbors (N : JSNum) (pf : Pathfinder.state N) (x y M : Z) :
  maxAround pf x y M -> maxOfNeighbors pf x y M.
Proof.
  intros [(c & Hc & E) Hmax]. split.
  - exists c. split; [now apply around_getNeighbors|exact E].
  - intros c' Hc'. apply Hmax. now apply around_getNeighbors.
Qed.

(** C5.  One diffusion pass, cell by cell, for every number model: a cell at
    100 or more is left as it is; no cell decreases; a cell below 100 takes
    the value [Math.floor(M * 0.6)], where [M] is the largest risk before
    the pass among the 8 cells of the grid around it, exactly when [M]
    exceeds 15 and that value exceeds the cell's risk, and is left as it is
    otherwise (also when the grid has no cell around it). *)
Theorem applyRiskDiffusion_pass (N : JSNum) (pf : Pathfinder.state N) (x y : Z) :
  let n := Pathfinder.gridSize pf in
  let old := Grid.get 0 (Pathfinder.grid pf) x y in
  let new := Grid.get 0 (Pathfinder.grid (Pathfinder.applyRiskDiffusion pf)) x y in
  Grid.square n (Pathfinder.grid pf) -> 0 <= x < n -> 0 <= y < n ->
  (100 <= old -> new = old)
  /\ old <= new
  /\ (forall M, maxAround pf x y M -> old < 100 ->
        let raised := nfloor N (nmul N (ofZ N M) (dec 6 10)) in
        (15 < M /\ old < raised -> new = raised)
        /\ (~ (15 < M /\ old < raised) -> new = old))
  /\ ((forall c, ~ around n x y c) -> new = old).
Proof.
  intros n old new Hsq Hx Hy.
  destruct (applyRiskDiffusion_cell pf Hsq) as [_ Hcell].
  assert (Hnew : new = diffused pf x y old) by (apply Hcell; assumption).
  clear Hcell. destruct (maxNeighborRisk_spec pf x y) as [Hnone Hmax].
  split; [|split; [|split]].
  - intros H. rewrite Hnew. now apply diffused_wall.
  - rewrite Hnew. apply diffused_ge.
  - intros M HM Hold raised. apply maxAround_maxOfNeighbors in HM. split.
    + intros [H15 Hr]. rewrite Hnew. unfold diffused. fold old.
      rewrite Z.geb_leb, (proj2 (Z.leb_gt _ _)) by lia.
      rewrite (Hmax M HM). rewrite Z.max_r by lia. cbv zeta.
      rewrite (proj2 (Z.gtb_lt _ _)) by lia.
      fold raised. now rewrite (proj2 (Z.gtb_lt _ _)) by lia.
    + intros Hno. rewrite Hnew. unfold diffused. fold old.
      rewrite Z.geb_leb, (proj2 (Z.leb_gt _ _)) by lia.
      rewrite (Hmax M HM). cbv zeta.
      destruct (Z.max 0 M >? 15) eqn:E1; [|reflexivity].
      apply Z.gtb_lt in E1. rewrite Z.max_r in * by lia.
      fold raised.
      destruct (raised >? old) eqn:E2; [|reflexivity].
      apply Z.gtb_lt in E2. exfalso. apply Hno. split; lia.
  - intros Hnone'. rewrite Hnew. unfold diffused. fold old.
    rewrite Hnone.
    + now destruct (old >=? 100).
    + destruct (Pathfinder.getNeighbors pf x y) as [|c l] eqn:E; [reflexivity|].
      exfalso. apply (Hnone' c). apply around_getNeighbors. fold n.
      rewrite E. now left.
Qed.

(** ** The weather grid *)

Lemma clamp_bounds (lo hi v : R) :
  (lo <= hi)%R -> (lo <= Rmin hi (Rmax lo v) <= hi)%R.
Proof.
  intros H. split.
  - apply Rmin_glb; [assumption|apply Rmax_l].
  - apply Rmin_l.
Qed.

Lemma Rmax_scale (k a : R) : (0 < k)%R -> Rmax 0 (a * k) = (k * Rmax 0 a)%R.
Proof.
  intros Hk. unfold Rmax.
  destruct (Rle_dec 0 (a * k)), (Rle_dec 0 a); try lra; nra.
Qed.

(** The cell computed for [(cx, cy)], in exact arithmetic. *)
Lemma cellWeather_clamped (ws : WeatherSystem.state RNum) (noise : R) (cx cy : Z) :
  let c := WeatherSystem.cellWeather ws noise cx cy in
  (0 <= WeatherSystem.wind c <= 100)%R
  /\ (0 <= WeatherSystem.rain c <= 50)%R
  /\ (0 <= WeatherSystem.visibility c <= 100)%R
  /\ (0 <= WeatherSystem.risk c <= 100)%R
  /\ WeatherSystem.risk c =
       Rmin 100 (1.5 * Rmax 0 (WeatherSystem.wind c - 20)
                 + 2 * Rmax 0 (WeatherSystem.rain c - 10)
                 + 1.5 * Rmax 0 (80 - WeatherSystem.visibility c))%R.
Proof.
  unfold WeatherSystem.cellWeather.
  destruct (fold_left _ _ _) as [[w r] v].
  rewrite !nmin_R, !nmax_R. cbn.
  set (wind := Rmin 100 (Rmax 0 (w + noise * 5))).
  set (rain := Rmin 50 (Rmax 0 r)).
  set (vis := Rmin 100 (Rmax 0 v)).
  assert (Hw : (0 <= wind <= 100)%R) by (apply clamp_bounds; lra).
  assert (Hr : (0 <= rain <= 50)%R) by (apply clamp_bounds; lra).
  assert (Hv : (0 <= vis <= 100)%R) by (apply clamp_bounds; lra).
  rewrite !Rmax_scale by lra.
  assert (Hsum : (0 + 15 / 10 * Rmax 0 (wind - 20) + 2 * Rmax 0 (rain - 10)
                  + 15 / 10 * Rmax 0 (80 - vis)
                  = 1.5 * Rmax 0 (wind - 20) + 2 * Rmax 0 (rain - 10)
                    + 1.5 * Rmax 0 (80 - vis))%R) by lra.
  rewrite Hsum. repeat split; try lra.
  - apply Rmin_glb; [lra|].
    pose proof (Rmax_l 0 (wind - 20)). pose proof (Rmax_l 0 (rain - 10)).
    pose proof (Rmax_l 0 (80 - vis)). lra.
  - apply Rmin_l.
Qed.

Section UpdateGrid.
Context {N : JSNum}.
Variable ws : WeatherSystem.state N.
Variable noise : Z -> Z -> num N.
Let n := WeatherSystem.gridSize ws.

(** [updateGrid], cell by cell. *)
Lemma updateGrid_cell :
  Grid.square n (WeatherSystem.weatherGrid ws) ->
  Grid.square n (WeatherSystem.weatherGrid (WeatherSystem.updateGrid noise ws))
  /\ forall x y, 0 <= x < n -> 0 <= y < n ->
       Grid.get None (WeatherSystem.weatherGrid (WeatherSystem.updateGrid noise ws)) x y
       = Some (WeatherSystem.cellWeather ws (noise x y) x y).
Proof.
  intros Hsq. unfold WeatherSystem.updateGrid. cbn [WeatherSystem.weatherGrid].
  apply (write_loop None
           (fun cx cy g => Grid.set g cx cy
              (Some (WeatherSystem.cellWeather ws (noise cx cy) cx cy)))
           (fun cx cy _ => Some (WeatherSystem.cellWeather ws (noise cx cy) cx cy))).
  - intros. now apply square_set.
  - intros. now apply get_set_same with (n := n).
  - intros. now apply get_set_other with (n := n).
  - exact Hsq.
Qed.
End UpdateGrid.

Lemma updateGrid_recomputed (N : JSNum) (ws : WeatherSystem.state N) noise :
  Grid.square (WeatherSystem.gridSize ws) (WeatherSystem.weatherGrid ws) ->
  recomputed (WeatherSystem.updateGrid noise ws).
Proof.
  intros Hsq. destruct (updateGrid_cell ws noise Hsq) as [H1 H2]. split.
  - exact H1.
  - intros x y Hx Hy. exists (noise x y). exact (H2 x y Hx Hy).
Qed.

Lemma initialised_recomputed (N : JSNum) (ws : WeatherSystem.state N) :
  initialised ws -> recomputed ws.
Proof.
  induction 1 as [b rnd noise ws|dt noise ws _ [Hsq _]].
  - unfold WeatherSystem.init. apply updateGrid_recomputed. cbn. apply square_make.
  - unfold WeatherSystem.update. apply updateGrid_recomputed. exact Hsq.
Qed.

(** C7.  After every recomputation of the weather grid, in exact arithmetic,
    each cell holds wind in [0,100], rain in [0,50], visibility in [0,100]
    and risk in [0,100], the risk being
    [min(100, 1.5 max(0, wind - 20) + 2 max(0, rain - 10) + 1.5 max(0, 80 - visibility))]
    of the clamped values stored with it. *)
Theorem updateGrid_cells_in_range (ws : WeatherSystem.state RNum) (x y : Z) :
  initialised ws ->
  0 <= x < WeatherSystem.gridSize ws -> 0 <= y < WeatherSystem.gridSize ws ->
  exists c,
    Grid.get None (WeatherSystem.weatherGrid ws) x y = Some c
    /\ (0 <= WeatherSystem.wind c <= 100)%R
    /\ (0 <= WeatherSystem.rain c <= 50)%R
    /\ (0 <= WeatherSystem.visibility c <= 100)%R
    /\ (0 <= WeatherSystem.risk c <= 100)%R
    /\ WeatherSystem.risk c =
         Rmin 100 (1.5 * Rmax 0 (WeatherSystem.wind c - 20)
                   + 2 * Rmax 0 (WeatherSystem.rain c - 10)
                   + 1.5 * Rmax 0 (80 - WeatherSystem.visibility c))%R.
Proof.
  intros Hinit Hx Hy.
  destruct (initialised_recomputed Hinit) as [_ Hcells].
  destruct (Hcells x y Hx Hy) as [noise Hc].
  exists (WeatherSystem.cellWeather ws noise x y). split; [exact Hc|].
  apply cellWeather_clamped.
Qed.

(** ** Keys, maps and sets of the search *)

Lemma node_eqb_eq (a b : Node) : Pathfinder.node_eqb a b = true <-> a = b.
Proof.
  unfold Pathfinder.node_eqb. destruct a, b; cbn.
  rewrite andb_true_iff, !Z.eqb_eq. split; [intros []; congruence|intros E; inversion E; auto].
Qed.

Lemma node_eqb_refl (a : Node) : Pathfinder.node_eqb a a = true.
Proof. now apply node_eqb_eq. Qed.

Lemma node_eqb_neq (a b : Node) : Pathfinder.node_eqb a b = false <-> a <> b.
Proof.
  rewrite <- node_eqb_eq. destruct (Pathfinder.node_eqb a b); split; congruence.
Qed.

Lemma setHas_In (k : Node) (s : list Node) : Pathfinder.setHas k s = true <-> In k s.
Proof.
  unfold Pathfinder.setHas. rewrite existsb_exists. split.
  - intros (c & Hc & E). apply node_eqb_eq in E. now subst.
  - intros H. exists k. split; [assumption|apply node_eqb_refl].
Qed.

Lemma setHas_notIn (k : Node) (s : list Node) : Pathfinder.setHas k s = false <-> ~ In k s.
Proof.
  rewrite <- setHas_In. destruct (Pathfinder.setHas k s); split; congruence.
Qed.

Lemma mapGet_set {V} (k k' : Node) (v : V) (m : list (Node * V)) :
  Pathfinder.mapGet k (Pathfinder.mapSet k' v m)
  = if Pathfinder.node_eqb k' k then Some v else Pathfinder.mapGet k m.
Proof.
  unfold Pathfinder.mapGet, Pathfinder.mapSet. cbn.
  now destruct (Pathfinder.node_eqb k' k).
Qed.

Lemma mapGet_In {V} (k : Node) (v : V) (m : list (Node * V)) :
  Pathfinder.mapGet k m = Some v -> In (k, v) m.
Proof.
  unfold Pathfinder.mapGet. destruct (find _ m) as [e|] eqn:E; [|discriminate].
  intros [= <-]. apply find_some in E. destruct E as [Hin He].
  apply node_eqb_eq in He. destruct e; cbn in *. now subst.
Qed.

(** ** The frontier *)

Lemma inOpenSet_In (N : JSNum) (c : Node) (l : list (Pathfinder.OpenNode N)) :
  Pathfinder.inOpenSet c l = true <-> In c (openCells l).
Proof.
  unfold Pathfinder.inOpenSet, openCells. rewrite existsb_exists, in_map_iff. split.
  - intros (n & Hn & E). exists n. split; [|assumption].
    apply andb_true_iff in E. destruct E as [E1 E2].
    apply Z.eqb_eq in E1, E2. destruct c; cbn in *. congruence.
  - intros (n & <- & Hn). exists n. split; [assumption|]. cbn.
    now rewrite !Z.eqb_refl.
Qed.

Lemma insertByF_perm (N : JSNum) (a : Pathfinder.OpenNode N) l :
  Permutation (Pathfinder.insertByF a l) (a :: l).
Proof.
  induction l as [|b l IH]; cbn; [reflexivity|].
  destruct (nltb N _ _); [|reflexivity].
  rewrite IH. apply perm_swap.
Qed.

(** Sorting rearranges the frontier and nothing else. *)
Lemma sortByF_perm (N : JSNum) (l : list (Pathfinder.OpenNode N)) :
  Permutation (Pathfinder.sortByF l) l.
Proof.
  induction l as [|a l IH]; cbn; [reflexivity|].
  rewrite insertByF_perm. now constructor.
Qed.

(** ** The order in which cells are closed *)

Lemma tailAfter_lt (l : list Node) (k : Node) :
  In k l -> (tailAfter l k < length l)%nat.
Proof.
  induction l as [|c l IH]; cbn; [intros []|].
  intros H. destruct (Pathfinder.node_eqb c k) eqn:E; [lia|].
  apply node_eqb_neq in E. destruct H as [H|H]; [congruence|].
  specialize (IH H). lia.
Qed.

Lemma rank_le (l : list Node) (k : Node) : (rank l k <= length l)%nat.
Proof.
  unfold rank. destruct (Pathfinder.setHas k l) eqn:E; [|lia].
  apply setHas_In in E. apply tailAfter_lt in E. lia.
Qed.

Lemma rank_lt_In (l : list Node) (k : Node) : (rank l k < length l)%nat <-> In k l.
Proof.
  unfold rank. destruct (Pathfinder.setHas k l) eqn:E.
  - apply setHas_In in E. split; [auto|intros _; now apply tailAfter_lt].
  - apply setHas_notIn in E. split; [lia|tauto].
Qed.

Lemma rank_cons_head (l : list Node) (c : Node) : rank (c :: l) c = length l.
Proof.
  unfold rank, Pathfinder.setHas. cbn. now rewrite node_eqb_refl.
Qed.

Lemma rank_cons_old (l : list Node) (c k : Node) :
  ~ In c l -> In k l -> rank (c :: l) k = rank l k.
Proof.
  intros Hc Hk. assert (Hne : c <> k) by congruence.
  unfold rank. rewrite (proj2 (setHas_In k (c :: l))) by now right.
  rewrite (proj2 (setHas_In k l)) by assumption.
  cbn. now rewrite (proj2 (node_eqb_neq c k)).
Qed.

Lemma rank_cons_new (l : list Node) (c k : Node) :
  c <> k -> ~ In k l -> rank (c :: l) k = S (length l).
Proof.
  intros Hne Hk. unfold rank.
  rewrite (proj2 (setHas_notIn k (c :: l))); [reflexivity|].
  intros [H|H]; [congruence|tauto].
Qed.

(** ** The loop of [reconstructPath] *)

Lemma filter_length_lt {B} (P Q : B -> bool) (l : list B) (e : B) :
  (forall b, P b = true -> Q b = true) ->
  In e l -> Q e = true -> P e = false ->
  (length (filter P l) < length (filter Q l))%nat.
Proof.
  intros HPQ. induction l as [|b l IH]; cbn; [intros []|].
  assert (Hle : (length (filter P l) <= length (filter Q l))%nat).
  { clear IH. induction l as [|b' l IH]; cbn; [lia|].
    destruct (P b') eqn:EP.
    - rewrite (HPQ _ EP). cbn. lia.
    - destruct (Q b'); cbn; lia. }
  intros [->|Hin] HQ HP.
  - rewrite HQ, HP. cbn. lia.
  - specialize (IH Hin HQ HP). destruct (P b) eqn:EP.
    + rewrite (HPQ _ EP). cbn. lia.
    + destruct (Q b); cbn; lia.
Qed.

(** When each step of [cameFrom] leads to a cell of smaller rank the loop
    leaves within one turn per entry. *)
Lemma reconstructLoop_total (cf : list (Node * Node)) (r : Node -> nat) :
  (forall k p, Pathfinder.mapGet k cf = Some p -> (r p < r k)%nat) ->
  forall fuel key path,
    (length (filter (fun e => (r (fst e) <=? r key)%nat) cf) <= fuel)%nat ->
    exists res, Pathfinder.reconstructLoop fuel cf key path = Some res.
Proof.
  intros Hr. induction fuel as [|fuel IH]; intros key path Hlen.
  - cbn. destruct (Pathfinder.mapGet key cf) as [p|] eqn:E; [|eauto].
    exfalso. apply mapGet_In in E.
    assert (H : (0 < length (filter (fun e => (r (fst e) <=? r key)%nat) cf))%nat).
    { assert (Hin : In (key, p) (filter (fun e => (r (fst e) <=? r key)%nat) cf)).
      { apply filter_In. split; [assumption|]. cbn. apply Nat.leb_refl. }
      destruct (filter _ cf); [destruct Hin|cbn; lia]. }
    lia.
  - cbn. destruct (Pathfinder.mapGet key cf) as [p|] eqn:E; [|eauto].
    apply IH. pose proof (Hr _ _ E) as Hlt. apply mapGet_In in E.
    assert (H : (length (filter (fun e => (r (fst e) <=? r p)%nat) cf)
                 < length (filter (fun e => (r (fst e) <=? r key)%nat) cf))%nat).
    { apply filter_length_lt with (e := (key, p)); cbn.
      - intros b Hb. apply Nat.leb_le in Hb. apply Nat.leb_le. lia.
      - assumption.
      - apply Nat.leb_refl.
      - apply Nat.leb_gt. assumption. }
    lia.
Qed.

Lemma reconstructCells_total (cf : list (Node * Node)) (r : Node -> nat)
      (current : Node) :
  (forall k p, Pathfinder.mapGet k cf = Some p -> (r p < r k)%nat) ->
  exists res, Pathfinder.reconstructCells cf current = Some res.
Proof.
  intros Hr. unfold Pathfinder.reconstructCells.
  apply (reconstructLoop_total cf r Hr). apply filter_length_le.
Qed.

(** ** The invariant of the search loop *)

Section Search.
Context {N : JSNum}.
Variable pf : Pathfinder.state N.
Variable riskWeight : num N.
Variable endNode : Node.

Lemma Inv_start (startNode : Node) :
  Pathfinder.isValid pf (fst startNode) (snd startNode) = true ->
  Inv pf (Pathfinder.startSearch startNode endNode).
Proof.
  intros Hv. constructor; cbn.
  - constructor; [intros []|constructor].
  - constructor.
  - intros c _ [].
  - intros c [<-|[]]. now destruct startNode.
  - intros c [].
  - intros k p. discriminate.
  - intros k p. discriminate.
Qed.

(** A closed cell bounds nothing: the closed cells are distinct cells of
    the grid. *)
Lemma Inv_closed_bound (s : Pathfinder.Search N) :
  Inv pf s ->
  (length (Pathfinder.closedSet s)
   <= Z.to_nat (Pathfinder.gridSize pf) * Z.to_nat (Pathfinder.gridSize pf))%nat.
Proof.
  intros H. rewrite <- cells_length. apply NoDup_incl_length.
  - exact (inv_closed_nodup H).
  - intros c Hc. apply cells_In. apply isValid_iff.
    exact (inv_closed_valid H c Hc).
Qed.

(** The body of the loop over the neighbours keeps the invariant, with
    [current] the cell closed last. *)
Lemma expand_Inv (current neighbor : Node) (s : Pathfinder.Search N) (rest : list Node) :
  Inv pf s -> Pathfinder.closedSet s = current :: rest ->
  In neighbor (Pathfinder.getNeighbors pf (fst current) (snd current)) ->
  Inv pf (Pathfinder.expand pf riskWeight endNode current neighbor s)
  /\ Pathfinder.closedSet (Pathfinder.expand pf riskWeight endNode current neighbor s)
     = current :: rest.
Proof.
  intros HI Hcl Hnb.
  assert (Hv : Pathfinder.isValid pf (fst neighbor) (snd neighbor) = true).
  { apply getNeighbors_In in Hnb. apply Hnb. }
  destruct neighbor as [nx ny]. unfold Pathfinder.expand.
  cbn [fst snd] in *.
  set (neighbor := (nx, ny)) in *.
  destruct (Pathfinder.setHas neighbor (Pathfinder.closedSet s)) eqn:Ecl; [now split|].
  destruct (_ >=? 100) eqn:Ewall; [now split|].
  destruct (negb _ || _); [|now split].
  split; [|exact Hcl]. apply setHas_notIn in Ecl.
  rewrite Z.geb_leb in Ewall. apply Z.leb_gt in Ewall.
  destruct HI as [H1 H2 H3 H4 H5 H6 H7].
  assert (Hent : forall k p,
             Pathfinder.mapGet k (Pathfinder.mapSet neighbor current (Pathfinder.cameFrom s)) = Some p ->
             In k (Pathfinder.getNeighbors pf (fst p) (snd p))
             /\ Grid.get 0 (Pathfinder.grid pf) (fst k) (snd k) < 100).
  { intros k p. rewrite mapGet_set.
    destruct (Pathfinder.node_eqb neighbor k) eqn:E.
    - apply node_eqb_eq in E. subst k. intros [= <-]. split; assumption.
    - apply H7. }
  assert (Hcf : forall k p,
             Pathfinder.mapGet k (Pathfinder.mapSet neighbor current (Pathfinder.cameFrom s)) = Some p ->
             (rank (Pathfinder.closedSet s) p < rank (Pathfinder.closedSet s) k)%nat).
  { intros k p. rewrite mapGet_set.
    destruct (Pathfinder.node_eqb neighbor k) eqn:E.
    - apply node_eqb_eq in E. subst k. intros [= <-].
      rewrite Hcl in *. rewrite rank_cons_head.
      rewrite rank_cons_new; [lia| |].
      + intros ->. apply Ecl. now left.
      + intros H. apply Ecl. now right.
    - apply H6. }
  destruct (Pathfinder.inOpenSet neighbor (Pathfinder.openSet s)) eqn:Eo.
  - constructor; cbn; assumption.
  - assert (Hno : ~ In neighbor (openCells (Pathfinder.openSet s))).
    { rewrite <- inOpenSet_In. congruence. }
    constructor; cbn; try assumption.
    + unfold openCells. rewrite map_app. cbn.
      apply NoDup_app; [assumption|repeat constructor; intros []|].
      intros c Hc [<-|[]]. exact (Hno Hc).
    + intros c Hc. unfold openCells in Hc. rewrite map_app in Hc.
      apply in_app_iff in Hc. destruct Hc as [Hc|[<-|[]]]; [now apply H3|].
      exact Ecl.
    + intros c Hc. unfold openCells in Hc. rewrite map_app in Hc.
      apply in_app_iff in Hc. destruct Hc as [Hc|[<-|[]]]; [now apply H4|].
      exact Hv.
Qed.

Lemma expandAll_Inv (current : Node) (nbs : list Node) (s : Pathfinder.Search N)
      (rest : list Node) :
  Inv pf s -> Pathfinder.closedSet s = current :: rest ->
  (forall c, In c nbs -> In c (Pathfinder.getNeighbors pf (fst current) (snd current))) ->
  let s' := Grid.forEach nbs (Pathfinder.expand pf riskWeight endNode current) s in
  Inv pf s' /\ Pathfinder.closedSet s' = current :: rest.
Proof.
  unfold Grid.forEach. revert s. induction nbs as [|nb nbs IH]; intros s HI Hcl Hv; cbn.
  - now split.
  - destruct (@expand_Inv current nb s rest HI Hcl) as [HI' Hcl'].
    + apply Hv. now left.
    + apply IH; auto. intros c Hc. apply Hv. now right.
Qed.

(** One turn of the loop that goes on closes one more cell and keeps the
    invariant. *)
Lemma turn_Continue (s s' : Pathfinder.Search N) :
  Inv pf s -> Pathfinder.turn pf riskWeight endNode s = Pathfinder.Continue s' ->
  Inv pf s'
  /\ exists current, ~ In current (Pathfinder.closedSet s)
       /\ In current (openCells (Pathfinder.openSet s))
       /\ Pathfinder.closedSet s' = current :: Pathfinder.closedSet s.
Proof.
  intros HI. unfold Pathfinder.turn.
  pose proof (sortByF_perm (Pathfinder.openSet s)) as Hperm.
  destruct (Pathfinder.sortByF (Pathfinder.openSet s)) as [|cur rest]; [discriminate|].
  destruct (_ && _); [discriminate|]. intros [= <-].
  set (c := (Pathfinder.ox cur, Pathfinder.oy cur)).
  assert (Hp : Permutation (c :: openCells rest) (openCells (Pathfinder.openSet s))).
  { unfold openCells. now apply (Permutation_map (fun n => (Pathfinder.ox n, Pathfinder.oy n))) in Hperm. }
  destruct HI as [H1 H2 H3 H4 H5 H6 H7].
  assert (Hnd : NoDup (c :: openCells rest)).
  { eapply Permutation_NoDup; [symmetry; exact Hp|assumption]. }
  assert (Hin : forall c', In c' (c :: openCells rest) -> In c' (openCells (Pathfinder.openSet s))).
  { intros c' Hc'. eapply Permutation_in; eassumption. }
  assert (Hc_open : In c (openCells (Pathfinder.openSet s))) by (apply Hin; now left).
  assert (Hc_closed : ~ In c (Pathfinder.closedSet s)) by now apply H3.
  assert (Hadd : Pathfinder.setAdd c (Pathfinder.closedSet s) = c :: Pathfinder.closedSet s).
  { unfold Pathfinder.setAdd. now rewrite (proj2 (setHas_notIn _ _) Hc_closed). }
  match goal with |- Inv pf (Grid.forEach ?nbs _ ?s1) /\ _ =>
    destruct (@expandAll_Inv c nbs s1 (Pathfinder.closedSet s)) as [HI' Hcl']
  end.
  - inversion Hnd as [|? ? Hc_rest Hnd']; subst.
    constructor; cbn; rewrite ?Hadd.
    + assumption.
    + now constructor.
    + intros c' Hc' [<-|Hcl]; [contradiction|].
      apply (H3 c'); [apply Hin; now right|assumption].
    + intros c' Hc'. apply H4, Hin. now right.
    + intros c' [<-|Hc']; [now apply H4|now apply H5].
    + intros k p Hk. specialize (H6 k p Hk).
      pose proof (rank_le (Pathfinder.closedSet s) k) as Hle.
      assert (Hp_in : In p (Pathfinder.closedSet s)) by (apply rank_lt_In; lia).
      rewrite (@rank_cons_old _ _ _ Hc_closed Hp_in).
      destruct (node_eq_dec c k) as [<-|Hne].
      * rewrite rank_cons_head. lia.
      * destruct (in_dec node_eq_dec k (Pathfinder.closedSet s)) as [Hk_in|Hk_out].
        -- now rewrite (@rank_cons_old _ _ _ Hc_closed Hk_in).
        -- rewrite (@rank_cons_new _ _ _ Hne Hk_out). lia.
    + assumption.
  - cbn. exact Hadd.
  - intros c' Hc'. exact Hc'.
  - split; [exact HI'|]. exists c. repeat split; assumption.
Qed.

(** The route is built whenever the loop reaches the goal. *)
Lemma turn_Return (s : Pathfinder.Search N) route :
  Inv pf s -> Pathfinder.turn pf riskWeight endNode s = Pathfinder.Return route ->
  exists r, route = Some r.
Proof.
  intros HI. unfold Pathfinder.turn.
  destruct (Pathfinder.sortByF (Pathfinder.openSet s)) as [|cur rest].
  - intros [= <-]. eauto.
  - destruct (_ && _); [|discriminate]. intros [= <-].
    unfold Pathfinder.reconstructPath.
    destruct (@reconstructCells_total (Pathfinder.cameFrom s)
                (rank (Pathfinder.closedSet s))
                (Pathfinder.ox cur, Pathfinder.oy cur)) as [res ->].
    + exact (inv_cameFrom HI).
    + cbn. eauto.
Qed.

Lemma searchLoop_total (fuel : nat) (s : Pathfinder.Search N) :
  Inv pf s ->
  (Z.to_nat (Pathfinder.gridSize pf) * Z.to_nat (Pathfinder.gridSize pf)
   < fuel + length (Pathfinder.closedSet s))%nat ->
  exists route, Pathfinder.searchLoop fuel pf riskWeight endNode s = Some route.
Proof.
  revert s. induction fuel as [|fuel IH]; intros s HI Hfuel.
  - pose proof (Inv_closed_bound HI). lia.
  - cbn. destruct (Pathfinder.turn pf riskWeight endNode s) as [route|s'] eqn:E.
    + eapply turn_Return; eassumption.
    + destruct (turn_Continue HI E) as (HI' & c & _ & _ & Hcl).
      apply IH; [assumption|]. rewrite Hcl. cbn. lia.
Qed.

Lemma searchLoop_more_fuel (fuel fuel' : nat) (s : Pathfinder.Search N) route :
  Pathfinder.searchLoop fuel pf riskWeight endNode s = Some route ->
  (fuel <= fuel')%nat ->
  Pathfinder.searchLoop fuel' pf riskWeight endNode s = Some route.
Proof.
  revert fuel' s. induction fuel as [|fuel IH]; intros fuel' s; cbn; [discriminate|].
  intros H Hle. destruct fuel' as [|fuel']; [lia|]. cbn.
  destruct (Pathfinder.turn pf riskWeight endNode s); [assumption|].
  apply IH; [assumption|lia].
Qed.

Lemma afterTurns_Inv (s0 : Pathfinder.Search N) (k : nat) (s : Pathfinder.Search N) :
  Inv pf s0 -> Pathfinder.closedSet s0 = [] ->
  afterTurns pf riskWeight endNode s0 k s ->
  Inv pf s /\ length (Pathfinder.closedSet s) = k.
Proof.
  intros HI0 Hc0. induction 1 as [|k s s' _ [HI Hlen] Hturn].
  - split; [assumption|now rewrite Hc0].
  - destruct (turn_Continue HI Hturn) as (HI' & c & _ & _ & Hcl).
    split; [assumption|]. rewrite Hcl. cbn. now rewrite Hlen.
Qed.
End Search.

(** C10.  [findPath] returns: within one turn of the loop per cell of the
    grid, and one more, it leaves the loop, and [reconstructPath] returns.
    After [k] turns [k] distinct cells are closed, none of them is in the
    frontier, and the frontier holds no cell twice.  (Where [grid] has fewer
    rows or columns than [gridSize], the program stops earlier, on reading a
    row that is not there; the model reads 0 and goes on.) *)
Theorem findPath_terminates (N : JSNum) (pf : Pathfinder.state N)
        (startLatLng endLatLng : LatLng N) (userRiskTolerance : num N) :
  let startNode := Pathfinder.latLngToGrid pf startLatLng in
  let endNode := Pathfinder.latLngToGrid pf endLatLng in
  let cellCount := (Z.to_nat (Pathfinder.gridSize pf) * Z.to_nat (Pathfinder.gridSize pf))%nat in
  (forall fuel, (S cellCount <= fuel)%nat ->
     Pathfinder.findPathFuel fuel pf startLatLng endLatLng userRiskTolerance
     = Some (Pathfinder.findPath pf startLatLng endLatLng userRiskTolerance))
  /\ (Pathfinder.outsideBounds pf startNode endNode = false ->
      forall k s,
        afterTurns pf (Pathfinder.riskWeightOf userRiskTolerance) endNode
                   (Pathfinder.startSearch startNode endNode) k s ->
        length (Pathfinder.closedSet s) = k /\ (k <= cellCount)%nat
        /\ NoDup (Pathfinder.closedSet s)
        /\ NoDup (openCells (Pathfinder.openSet s))
        /\ (forall c, In c (openCells (Pathfinder.openSet s)) ->
                      ~ In c (Pathfinder.closedSet s))).
Proof.
  intros startNode endNode cellCount.
  assert (Hstart : Pathfinder.outsideBounds pf startNode endNode = false ->
                   Inv pf (Pathfinder.startSearch startNode endNode)).
  { intros Hout. apply Inv_start. unfold Pathfinder.outsideBounds in Hout.
    apply orb_false_iff in Hout. destruct Hout as [Hout _].
    now apply negb_false_iff in Hout. }
  split.
  - assert (Hsome : exists route,
               Pathfinder.findPathFuel (Pathfinder.enoughFuel pf) pf startLatLng
                 endLatLng userRiskTolerance = Some route).
    { unfold Pathfinder.findPathFuel. fold startNode endNode.
      destruct (Pathfinder.outsideBounds pf startNode endNode) eqn:Hout; [eauto|].
      apply searchLoop_total; [now apply Hstart|].
      unfold Pathfinder.enoughFuel. cbn. lia. }
    destruct Hsome as [route Hroute]. intros fuel Hfuel.
    unfold Pathfinder.findPath. rewrite Hroute.
    revert Hroute. unfold Pathfinder.findPathFuel. fold startNode endNode.
    destruct (Pathfinder.outsideBounds pf startNode endNode); [trivial|].
    intros Hroute. eapply searchLoop_more_fuel; [exact Hroute|exact Hfuel].
  - intros Hout k s Hs.
    destruct (afterTurns_Inv (Hstart Hout) eq_refl Hs) as [HI Hlen].
    pose proof (Inv_closed_bound HI) as Hb. fold cellCount in Hb.
    repeat split; try lia.
    + exact (inv_closed_nodup HI).
    + exact (inv_open_nodup HI).
    + exact (inv_disjoint HI).
Qed.

(** ** The cost of a step *)

Lemma distCost_R (current neighbor : Node) :
  -1 <= fst neighbor - fst current <= 1 ->
  -1 <= snd neighbor - snd current <= 1 ->
  neighbor <> current ->
  Pathfinder.distCost (N := RNum) current neighbor
  = if (fst neighbor =? fst current) || (snd neighbor =? snd current)
    then 1%R else sqrt 2.
Proof.
  destruct current as [cx cy], neighbor as [nx ny]. cbn [fst snd].
  intros Hx Hy Hne. unfold Pathfinder.distCost, pow2. cbn.
  rewrite <- !minus_IZR.
  assert (Ex : nx - cx = -1 \/ nx - cx = 0 \/ nx - cx = 1) by lia.
  assert (Ey : ny - cy = -1 \/ ny - cy = 0 \/ ny - cy = 1) by lia.
  destruct Ex as [Ex | [Ex | Ex]], Ey as [Ey | [Ey | Ey]]; rewrite Ex, Ey;
    try (exfalso; apply Hne; f_equal; lia);
    match goal with
    | |- context [?a =? ?b] =>
        match goal with
        | |- context [?c =? ?d] =>
            first [ rewrite (proj2 (Z.eqb_eq a b)) by lia
                  | rewrite (proj2 (Z.eqb_neq a b)) by lia ]
        end
    end;
    try (rewrite (proj2 (Z.eqb_eq ny cy)) by lia);
    try (rewrite (proj2 (Z.eqb_neq ny cy)) by lia);
    cbn [orb];
    first [ replace (-1 * -1 + 0 * 0)%R with 1%R by lra; apply sqrt_1
          | replace (0 * 0 + -1 * -1)%R with 1%R by lra; apply sqrt_1
          | replace (0 * 0 + 1 * 1)%R with 1%R by lra; apply sqrt_1
          | replace (1 * 1 + 0 * 0)%R with 1%R by lra; apply sqrt_1
          | f_equal; lra ].
Qed.

(** C1, as amended.  In exact arithmetic the cost [findPath] adds for the
    step from a cell to a neighbour is the Euclidean length of the step (1
    along an axis, [sqrt 2] along a diagonal) plus [risk * riskWeight / 10],
    where [riskWeight = max(0, (100 - riskTolerance) / 2)] and [risk] is the
    terrain risk [grid[y][x]] of the neighbour; the weather is not read. *)
Theorem step_cost_is_distance_plus_terrain_risk
        (pf : Pathfinder.state RNum) (userRiskTolerance : R)
        (s : Pathfinder.Search RNum) (current neighbor : Node) :
  In neighbor (Pathfinder.getNeighbors pf (fst current) (snd current)) ->
  let terrainRisk := Grid.get 0 (Pathfinder.grid pf) (fst neighbor) (snd neighbor) in
  let stepDistance :=
    if (fst neighbor =? fst current) || (snd neighbor =? snd current)
    then 1%R else sqrt 2 in
  let riskWeight := Pathfinder.riskWeightOf userRiskTolerance in
  riskWeight = Rmax 0 ((100 - userRiskTolerance) / 2)
  /\ Pathfinder.tentativeG pf riskWeight s current neighbor
     = (Pathfinder.scoreGet current (Pathfinder.gScore s)
        + stepDistance + IZR terrainRisk * riskWeight / 10)%R.
Proof.
  intros Hnb terrainRisk stepDistance riskWeight.
  apply getNeighbors_In in Hnb. destruct Hnb as (_ & Hx & Hy & Hne).
  split.
  - unfold riskWeight, Pathfinder.riskWeightOf. now rewrite nmax_R.
  - unfold Pathfinder.tentativeG. rewrite (distCost_R Hx Hy).
    + reflexivity.
    + destruct current; exact Hne.
Qed.

(** C6, as amended.  In exact arithmetic, when every system lies in the grid
    and drifts by at most one grid width during the tick, [update] moves
    each system by [drift * deltaTime], wraps it once around the edge it
    crossed, and leaves every system in the grid; a system that crossed the
    upper edge in [x] is left at [x + driftX * deltaTime - gridSize]. *)
Theorem update_wraps_once (ws : WeatherSystem.state RNum) (deltaTime : R)
        (noise : Z -> Z -> R) :
  let n := IZR (WeatherSystem.gridSize ws) in
  (forall p, In p (WeatherSystem.patterns ws) ->
     (0 <= WeatherSystem.x p < n)%R /\ (0 <= WeatherSystem.y p < n)%R
     /\ (- n <= WeatherSystem.driftX p * deltaTime <= n)%R
     /\ (- n <= WeatherSystem.driftY p * deltaTime <= n)%R) ->
  let ws' := WeatherSystem.update deltaTime noise ws in
  WeatherSystem.patterns ws'
  = map (WeatherSystem.movePattern (WeatherSystem.gridSize ws) deltaTime)
        (WeatherSystem.patterns ws)
  /\ (forall p, In p (WeatherSystem.patterns ws) ->
        let p' := WeatherSystem.movePattern (WeatherSystem.gridSize ws) deltaTime p in
        let tx := (WeatherSystem.x p + WeatherSystem.driftX p * deltaTime)%R in
        let ty := (WeatherSystem.y p + WeatherSystem.driftY p * deltaTime)%R in
        WeatherSystem.x p' =
          (if Rlt_dec tx 0 then tx + n else if Rle_dec n tx then tx - n else tx)%R
        /\ WeatherSystem.y p' =
          (if Rlt_dec ty 0 then ty + n else if Rle_dec n ty then ty - n else ty)%R)
  /\ (forall p', In p' (WeatherSystem.patterns ws') ->
        (0 <= WeatherSystem.x p' < n)%R /\ (0 <= WeatherSystem.y p' < n)%R).
Proof.
  intros n Hin ws'. split; [reflexivity|]. split.
  - intros p Hp. destruct (Hin p Hp) as (Hx & Hy & Hdx & Hdy).
    destruct (@movePattern_wraps (WeatherSystem.gridSize ws) deltaTime p Hx Hy Hdx Hdy)
      as (_ & _ & Ex & Ey).
    split; assumption.
  - intros p' Hp'. cbn in Hp'. apply in_map_iff in Hp'.
    destruct Hp' as (p & <- & Hp). destruct (Hin p Hp) as (Hx & Hy & Hdx & Hdy).
    destruct (@movePattern_wraps (WeatherSystem.gridSize ws) deltaTime p Hx Hy Hdx Hdy)
      as (Hx' & Hy' & _).
    split; assumption.
Qed.

(** C8, as amended.  In exact arithmetic, for a region with [minLat < maxLat] and
    [minLng < maxLng], the centre of a cell of the grid, given by
    [gridToLatLng], is mapped back to that cell by [latLngToGrid]. *)
Theorem gridToLatLng_latLngToGrid (pf : Pathfinder.state RNum) (x y : Z) :
  0 <= x < Pathfinder.gridSize pf -> 0 <= y < Pathfinder.gridSize pf ->
  (minLat (Pathfinder.bounds pf) < maxLat (Pathfinder.bounds pf))%R ->
  (minLng (Pathfinder.bounds pf) < maxLng (Pathfinder.bounds pf))%R ->
  Pathfinder.latLngToGrid pf (Pathfinder.gridToLatLng pf (x, y)) = (x, y).
Proof.
  intros Hx Hy Hlat Hlng. destruct pf as [n g b w]. cbn in *.
  unfold Pathfinder.latLngToGrid. cbn [Pathfinder.gridSize Pathfinder.bounds].
  now apply center_in_cell.
Qed.

(** C9.  In exact arithmetic, for a region with [minLat < maxLat] and
    [minLng < maxLng] and a grid of at least one cell, [latLngToGrid] sends
    every point, inside the region or not, to a cell of the grid; so the
    test of [findPath] for a start or end outside the grid is never true,
    [getRisk] always reads the terrain risk of the cell, and [getWeatherAt]
    (with its bounds set) always returns the entry of the weather grid for
    the cell, never the stand-in for a cell outside. *)
Theorem latLngToGrid_in_grid (pf : Pathfinder.state RNum)
        (startLatLng endLatLng latlng : LatLng RNum) :
  1 <= Pathfinder.gridSize pf ->
  (minLat (Pathfinder.bounds pf) < maxLat (Pathfinder.bounds pf))%R ->
  (minLng (Pathfinder.bounds pf) < maxLng (Pathfinder.bounds pf))%R ->
  let node := Pathfinder.latLngToGrid pf latlng in
  (0 <= fst node < Pathfinder.gridSize pf /\ 0 <= snd node < Pathfinder.gridSize pf)
  /\ Pathfinder.outsideBounds pf (Pathfinder.latLngToGrid pf startLatLng)
                                 (Pathfinder.latLngToGrid pf endLatLng) = false
  /\ Pathfinder.getRisk pf latlng
     = Rmin 100
         (let terrain := IZR (Grid.get 0 (Pathfinder.grid pf) (fst node) (snd node)) in
          match Pathfinder.weatherSystem pf with
          | Some ws => Rmax terrain (WeatherSystem.getRisk ws latlng)
          | None => terrain
          end)
  /\ (forall ws b, 1 <= WeatherSystem.gridSize ws -> WeatherSystem.bounds ws = Some b ->
        (minLat b < maxLat b)%R -> (minLng b < maxLng b)%R ->
        let gridPos := WeatherSystem.latLngToGrid ws b latlng in
        (0 <= fst gridPos < WeatherSystem.gridSize ws
         /\ 0 <= snd gridPos < WeatherSystem.gridSize ws)
        /\ WeatherSystem.getWeatherAt ws latlng
           = Grid.get None (WeatherSystem.weatherGrid ws) (fst gridPos) (snd gridPos)).
Proof.
  intros Hn _ _ node.
  assert (Hvalid : forall p, Pathfinder.isValid pf (fst (Pathfinder.latLngToGrid pf p))
                               (snd (Pathfinder.latLngToGrid pf p)) = true).
  { intros p. now apply latLngToGrid_valid. }
  pose proof (Hvalid latlng) as Hnode. apply isValid_iff in Hnode.
  split; [exact Hnode|]. split.
  { unfold Pathfinder.outsideBounds. now rewrite !Hvalid. }
  split.
  { unfold Pathfinder.getRisk. fold node. unfold node. rewrite Hvalid.
    rewrite nmin_R. destruct (Pathfinder.weatherSystem pf); [|reflexivity].
    now rewrite nmax_R. }
  intros ws b Hws Hb _ _ gridPos.
  pose proof (latLngToGrid_valid b latlng Hws) as Hv.
  split; [now apply isValid_iff in Hv|].
  unfold WeatherSystem.getWeatherAt. rewrite Hb.
  unfold WeatherSystem.isValid, WeatherSystem.latLngToGrid. now rewrite Hv.
Qed.

(** * The planner and the mission driver on the scenes *)

Lemma sqrt2_lt_2 : (sqrt 2 < 2)%R.
Proof.
  replace 2%R with (sqrt (2 * 2)) at 2 by (apply sqrt_square; lra).
  apply sqrt_lt_1; lra.
Qed.

Lemma routeLength_cons (a b : Node) (rest : list Node) :
  routeLength (N := RNum) (a :: b :: rest)
  = (Pathfinder.distCost (N := RNum) a b + routeLength (N := RNum) (b :: rest))%R.
Proof. reflexivity. Qed.

(** C1, as stated, fails.  Over open terrain (risk 10), with a storm that
    gives cell [(2, 0)] a weather risk above 85, at tolerance 0 the step
    from [(1, 0)] to [(2, 0)] costs [1 + 10 * 50 / 10 = 51]; with the larger
    of the terrain and the weather risk of the cell, which is what [getRisk]
    returns for its centre, it would cost more than [1 + 85 * 50 / 10]. *)
Lemma step_cost_ignores_weather :
  let pf := Scene.field in
  let current := (1, 0) in
  let neighbor := (2, 0) in
  let s := Pathfinder.startSearch current (4, 0) in
  let riskWeight := Pathfinder.riskWeightOf (Scene.F 0) in
  let cellRisk := Pathfinder.getRisk pf (Pathfinder.gridToLatLng pf neighbor) in
  Pathfinder.setHas neighbor (Pathfinder.getNeighbors pf (fst current) (snd current)) = true
  /\ Grid.get 0 (Pathfinder.grid pf) (fst neighbor) (snd neighbor) = 10
  /\ (Scene.F 85 <? cellRisk)%J = true
  /\ riskWeight = Scene.F 50
  /\ Pathfinder.tentativeG pf riskWeight s current neighbor = Scene.F 51
  /\ (Scene.F 426 <?
        Pathfinder.scoreGet current (Pathfinder.gScore s)
        + Pathfinder.distCost current neighbor
        + cellRisk * riskWeight / Scene.F 10)%J = true
  /\ Pathfinder.tentativeG pf riskWeight s current neighbor
     <> (Pathfinder.scoreGet current (Pathfinder.gScore s)
         + Pathfinder.distCost current neighbor
         + cellRisk * riskWeight / Scene.F 10)%J.
Proof.
  intros pf current neighbor s riskWeight cellRisk.
  assert (Hcost : Pathfinder.tentativeG pf riskWeight s current neighbor = Scene.F 51).
  { vm_compute. reflexivity. }
  assert (Hmore : (Scene.F 426 <?
                     Pathfinder.scoreGet current (Pathfinder.gScore s)
                     + Pathfinder.distCost current neighbor
                     + cellRisk * riskWeight / Scene.F 10)%J = true).
  { vm_compute. reflexivity. }
  split; [vm_compute; reflexivity|].
  split; [vm_compute; reflexivity|].
  split; [vm_compute; reflexivity|].
  split; [vm_compute; reflexivity|].
  split; [exact Hcost|]. split; [exact Hmore|].
  intros E.
  pose proof (eq_ind_r (fun v => (Scene.F 426 <? v)%J = true) Hmore E) as Hless.
  cbv beta in Hless. vm_compute in Hless. discriminate.
Qed.

(** C2, as stated, fails: a route that starts in a no-fly cell.  The centre
    of cell [(1, 0)]
    lies in a polygon given to [markObstacles], the cell has risk 100, and
    the route from it to cell [(0, 0)] starts with that centre. *)
Theorem findPath_route_starts_in_obstacle :
  let pf := Scene.maze in
  let start := Pathfinder.gridToLatLng pf (1, 0) in
  let goal := Pathfinder.gridToLatLng pf (0, 0) in
  let route := Pathfinder.findPath pf start goal (Scene.F 50) in
  existsb (Pathfinder.node_eqb (1, 0)) Scene.noFly = true
  /\ Pathfinder.isPointInPolygon start (Scene.cellOutline (1, 0)) = true
  /\ Grid.get 0 (Pathfinder.grid pf) 1 0 = 100
  /\ map coords route = [coords start; coords goal]
  /\ map (Pathfinder.latLngToGrid pf) route = [(1, 0); (0, 0)].
Proof. vm_compute. repeat split. Qed.

(** C3: the re-route gives the battery back.  After seven quiet ticks the
    eighth finds risk above 60, pauses the mission at battery 96 and asks
    for a re-route; the callback finds a route of three points, resumes on
    it with index and progress at 0, and leaves the battery at 100. *)
Theorem reroute_resets_battery :
  let w8 := fst Scene.breach in
  let w9 := Mission.reroute Scene.breachPos w8 in
  let newPath :=
    Pathfinder.findPath Scene.field Scene.breachPos (Mission.endPoint w8) (Scene.F 10) in
  isSome (Scene.quietTicks 7 Scene.launched) = true
  /\ Mission.battery (Mission.mission Scene.cruising) = dec 965 10
  /\ isSome (snd Scene.breach) = true
  /\ (Pathfinder.getRisk Scene.field Scene.breachPos >? Scene.F 60)%J = true
  /\ Mission.active (Mission.mission w8) = true
  /\ Mission.paused (Mission.mission w8) = true
  /\ Mission.status w8 = Mission.PAUSED
  /\ Mission.battery (Mission.mission w8) = Scene.F 96
  /\ map coords newPath
     = map coords [Scene.center 2 0; Scene.center 3 0; Scene.center 4 0]
  /\ Mission.active (Mission.mission w9) = true
  /\ Mission.paused (Mission.mission w9) = false
  /\ map coords (Mission.path (Mission.mission w9)) = map coords newPath
  /\ Mission.currentIndex (Mission.mission w9) = 0
  /\ Mission.progress (Mission.mission w9) = Scene.F 0
  /\ Mission.battery (Mission.mission w9) = Scene.F 100.
Proof. vm_compute. repeat split. Qed.

Lemma detour_is_longer :
  Rlt (routeLength (N := RNum) [(0, 0); (0, 1); (0, 2); (1, 3); (2, 4)])
      (routeLength (N := RNum) [(0, 0); (0, 1); (0, 2); (0, 3); (1, 4); (2, 4)]).
Proof.
  rewrite !routeLength_cons.
  rewrite !distCost_R by (cbn; first [lia | discriminate]).
  cbn. pose proof sqrt2_lt_2. lra.
Qed.

(** C4: at tolerance 100 the risk weight is 0 and the route returned is not
    a shortest one.  In the maze the route from [(0, 0)] to [(2, 4)] has four
    straight steps and one diagonal step, and the route through [(1, 3)],
    which avoids every cell of risk 100, has two of each and is shorter. *)
Theorem findPath_tolerance_100_not_shortest :
  let pf := Scene.maze in
  let start := Pathfinder.gridToLatLng pf (0, 0) in
  let goal := Pathfinder.gridToLatLng pf (2, 4) in
  let route := Pathfinder.findPath pf start goal (Scene.F 100) in
  let returned := [(0, 0); (0, 1); (0, 2); (0, 3); (1, 4); (2, 4)] in
  let shorter := [(0, 0); (0, 1); (0, 2); (1, 3); (2, 4)] in
  (Pathfinder.riskWeightOf (Scene.F 100) = Scene.F 0
   /\ map coords route = map coords (map (Pathfinder.gridToLatLng pf) returned)
   /\ map (Pathfinder.latLngToGrid pf) route = returned
   /\ admissibleRoute pf (0, 0) (2, 4) returned = true
   /\ admissibleRoute pf (0, 0) (2, 4) shorter = true)
  /\ (routeLength (N := RNum) shorter < routeLength (N := RNum) returned)%R.
Proof.
  split; [vm_compute; repeat split|exact detour_is_longer].
Qed.

(** C6, as stated, fails.  Three systems that [init] left at [x = 59] in a
    grid of 60 cells, drifting at 0.04 per unit of time: after
    [update(4000)] each is at [x = 159], outside the grid. *)
Lemma update_long_tick_leaves_grid :
  let inGrid (p : WeatherSystem.Pattern Float64) :=
    (Scene.F 0 <=? WeatherSystem.x p)%J && (WeatherSystem.x p <? Scene.F 60)%J in
  let after := WeatherSystem.update (Scene.F 4000) Scene.calm Scene.sky in
  (Scene.F 0 <=? Scene.F 4000)%J = true
  /\ length (WeatherSystem.patterns Scene.sky) = 3%nat
  /\ forallb inGrid (WeatherSystem.patterns Scene.sky) = true
  /\ length (WeatherSystem.patterns after) = 3%nat
  /\ existsb inGrid (WeatherSystem.patterns after) = false
  /\ forallb (fun p => (Scene.F 159 <=? WeatherSystem.x p)%J)
             (WeatherSystem.patterns after) = true.
Proof. vm_compute. repeat split. Qed.

(** In binary64 the bound of the amended C6 is not enough at its limit.
    With every draw of [Math.random()] at [1 - 2^-53], [init] leaves five
    systems at the last double below 60, and during a tick of
    [1200 + 2^-42] each drifts by 60, the width of the grid: the sum rounds
    to 120, and [update] leaves each at [x = 60], on the edge and not in
    the grid. *)
Lemma update_rounds_onto_edge :
  let before (p : WeatherSystem.Pattern Float64) :=
    (Scene.F 0 <=? WeatherSystem.x p)%J && (WeatherSystem.x p <? Scene.F 60)%J
    && (Scene.F 60 <=? WeatherSystem.driftX p * Rounding.tick)%J
    && (WeatherSystem.driftX p * Rounding.tick <=? Scene.F 60)%J in
  let onEdge (p : WeatherSystem.Pattern Float64) :=
    (Scene.F 60 <=? WeatherSystem.x p)%J && (WeatherSystem.x p <=? Scene.F 60)%J in
  let after := WeatherSystem.update Rounding.tick Scene.calm Rounding.brink in
  (Scene.F 0 <=? Rounding.top)%J && (Rounding.top <? Scene.F 1)%J = true
  /\ WeatherSystem.gridSize Rounding.brink = 60
  /\ length (WeatherSystem.patterns Rounding.brink) = 5%nat
  /\ forallb before (WeatherSystem.patterns Rounding.brink) = true
  /\ length (WeatherSystem.patterns after) = 5%nat
  /\ forallb onEdge (WeatherSystem.patterns after) = true.
Proof. vm_compute. repeat split. Qed.

(** C8, as stated, fails.  In binary64, in a region five doubles high
    (latitudes from 1 to [1 + 5 * 2^-52]) with 5 by 5 cells, the latitude
    that [gridToLatLng] gives for the centre of cell [(2, 1)] is rounded to
    one that [latLngToGrid] puts in cell [(2, 2)], and that of cell
    [(2, 3)] to one in cell [(2, 4)]. *)
Lemma gridToLatLng_rounds_to_next_cell :
  let pf := Rounding.narrow in
  Pathfinder.gridSize pf = 5
  /\ (minLat (Pathfinder.bounds pf) <? maxLat (Pathfinder.bounds pf))%J = true
  /\ (minLng (Pathfinder.bounds pf) <? maxLng (Pathfinder.bounds pf))%J = true
  /\ Pathfinder.latLngToGrid pf (Pathfinder.gridToLatLng pf (2, 1)) = (2, 2)
  /\ Pathfinder.latLngToGrid pf (Pathfinder.gridToLatLng pf (2, 3)) = (2, 4)
  /\ map (fun y => Pathfinder.latLngToGrid pf (Pathfinder.gridToLatLng pf (2, y)))
         [0; 2; 4]
     = [(2, 0); (2, 2); (2, 4)].
Proof. vm_compute. repeat split. Qed.

(** * The properties at concrete inputs *)

(** Reads of a concrete grid, computed. *)
Ltac read_grid :=
  repeat match goal with
  | |- context [Grid.get ?d ?g ?x ?y] =>
      let v := eval vm_compute in (Grid.get d g x y) in
      progress change (Grid.get d g x y) with v
  end.

(** The step from [(0, 0)] to [(1, 0)] over open terrain, at tolerance 30. *)
Lemma step_cost_witness :
  let s := Pathfinder.startSearch (N := RNum) (0, 0) (4, 4) in
  let g := Pathfinder.scoreGet (0, 0) (Pathfinder.gScore s) in
  let riskWeight := Pathfinder.riskWeightOf 30%R in
  In (1, 0) (Pathfinder.getNeighbors Ideal.field 0 0)
  /\ Pathfinder.tentativeG Ideal.field riskWeight s (0, 0) (1, 0)
     = (g + 1 + IZR 10 * riskWeight / 10)%R.
Proof.
  intros s g riskWeight.
  assert (H : In (1, 0) (Pathfinder.getNeighbors Ideal.field 0 0)).
  { vm_compute. tauto. }
  split; [exact H|].
  exact (proj2 (@step_cost_is_distance_plus_terrain_risk Ideal.field 30%R
                  (Pathfinder.startSearch (0, 0) (4, 4)) (0, 0) (1, 0) H)).
Defined.

(** One pass around a single no-fly cell, in exact arithmetic: the corner
    [(0, 0)], at 10 next to the wall, is raised to [floor(100 * 0.6) = 60],
    and the wall stays at 100. *)
Lemma applyRiskDiffusion_pass_witness :
  Grid.square 3 (Pathfinder.grid Ideal.walled)
  /\ maxAround Ideal.walled 0 0 100
  /\ Grid.get 0 (Pathfinder.grid Ideal.walled) 0 0 = 10
  /\ Grid.get 0 (Pathfinder.grid (Pathfinder.applyRiskDiffusion Ideal.walled)) 0 0 = 60
  /\ Grid.get 0 (Pathfinder.grid (Pathfinder.applyRiskDiffusion Ideal.walled)) 1 1 = 100.
Proof.
  assert (Hsq : Grid.square 3 (Pathfinder.grid Ideal.walled)).
  { split; [reflexivity|]. repeat constructor. }
  assert (Hmax : maxAround Ideal.walled 0 0 100).
  { split.
    - exists (1, 1). split; [unfold around; cbn; lia|reflexivity].
    - intros [cx cy] [[Hx Hy] _]. cbn [fst snd Pathfinder.gridSize Ideal.walled] in *.
      assert (Ex : cx = 0 \/ cx = 1 \/ cx = 2) by lia.
      assert (Ey : cy = 0 \/ cy = 1 \/ cy = 2) by lia.
      destruct Ex as [-> | [-> | ->]], Ey as [-> | [-> | ->]]; read_grid; lia. }
  assert (Hold : Grid.get 0 (Pathfinder.grid Ideal.walled) 0 0 = 10) by reflexivity.
  assert (H0 : 0 <= 0 < Pathfinder.gridSize Ideal.walled) by (cbn; lia).
  assert (H1 : 0 <= 1 < Pathfinder.gridSize Ideal.walled) by (cbn; lia).
  split; [exact Hsq|]. split; [exact Hmax|]. split; [exact Hold|]. split.
  - destruct (@applyRiskDiffusion_pass RNum Ideal.walled 0 0 Hsq H0 H0)
      as (_ & _ & Hraise & _).
    destruct (Hraise 100 Hmax) as [Hup _]; [rewrite Hold; lia|].
    cbv zeta in Hup.
    change (nfloor RNum (nmul RNum (ofZ RNum 100) (dec 6 10)))
      with (Int_part (IZR 100 * (6 / 10))) in Hup.
    rewrite floor_decay in Hup. apply Hup. rewrite Hold. cbn. lia.
  - refine (proj1 (@applyRiskDiffusion_pass RNum Ideal.walled 1 1 Hsq H1 H1) _).
    read_grid. lia.
Defined.

(** A tick of 20 carries the system at [x = 59.5] across the upper edge and
    leaves it in the grid. *)
Lemma update_wraps_once_witness :
  (forall p, In p (WeatherSystem.patterns Ideal.sky) ->
     (0 <= WeatherSystem.x p < 60)%R /\ (0 <= WeatherSystem.y p < 60)%R
     /\ (- (60) <= WeatherSystem.driftX p * 20 <= 60)%R
     /\ (- (60) <= WeatherSystem.driftY p * 20 <= 60)%R)
  /\ forall p', In p' (WeatherSystem.patterns (WeatherSystem.update 20%R Ideal.calm Ideal.sky)) ->
       (0 <= WeatherSystem.x p' < 60)%R /\ (0 <= WeatherSystem.y p' < 60)%R.
Proof.
  assert (H : forall p, In p (WeatherSystem.patterns Ideal.sky) ->
     (0 <= WeatherSystem.x p < 60)%R /\ (0 <= WeatherSystem.y p < 60)%R
     /\ (- (60) <= WeatherSystem.driftX p * 20 <= 60)%R
     /\ (- (60) <= WeatherSystem.driftY p * 20 <= 60)%R).
  { intros p [<-|[]]. cbn. lra. }
  split; [exact H|].
  exact (proj2 (proj2 (@update_wraps_once Ideal.sky 20%R Ideal.calm H))).
Defined.

(** The cell [(2, 3)] of the weather grid that [init] leaves. *)
Lemma updateGrid_cells_in_range_witness :
  initialised Ideal.weather
  /\ exists c,
       Grid.get None (WeatherSystem.weatherGrid Ideal.weather) 2 3 = Some c
       /\ (0 <= WeatherSystem.wind c <= 100)%R
       /\ (0 <= WeatherSystem.rain c <= 50)%R
       /\ (0 <= WeatherSystem.visibility c <= 100)%R
       /\ (0 <= WeatherSystem.risk c <= 100)%R
       /\ WeatherSystem.risk c =
            Rmin 100 (1.5 * Rmax 0 (WeatherSystem.wind c - 20)
                      + 2 * Rmax 0 (WeatherSystem.rain c - 10)
                      + 1.5 * Rmax 0 (80 - WeatherSystem.visibility c))%R.
Proof.
  assert (H : initialised Ideal.weather) by apply initialised_init.
  split; [exact H|].
  refine (@updateGrid_cells_in_range Ideal.weather 2 3 H _ _); cbn; lia.
Defined.

(** The cell [(3, 4)] of the grid of 5 by 5 cells. *)
Lemma gridToLatLng_latLngToGrid_witness :
  (minLat (Pathfinder.bounds Ideal.field) < maxLat (Pathfinder.bounds Ideal.field))%R
  /\ (minLng (Pathfinder.bounds Ideal.field) < maxLng (Pathfinder.bounds Ideal.field))%R
  /\ Pathfinder.latLngToGrid Ideal.field (Pathfinder.gridToLatLng Ideal.field (3, 4)) = (3, 4).
Proof.
  assert (H1 : (minLat (Pathfinder.bounds Ideal.field) < maxLat (Pathfinder.bounds Ideal.field))%R)
    by (cbn; lra).
  assert (H2 : (minLng (Pathfinder.bounds Ideal.field) < maxLng (Pathfinder.bounds Ideal.field))%R)
    by (cbn; lra).
  split; [exact H1|]. split; [exact H2|].
  refine (@gridToLatLng_latLngToGrid Ideal.field 3 4 _ _ H1 H2); cbn; lia.
Defined.

(** A point far outside the region still falls in a cell of the grid. *)
Lemma latLngToGrid_in_grid_witness :
  let far : LatLng RNum := {| lat := (-7)%R; lng := 12%R |} in
  1 <= Pathfinder.gridSize Ideal.field
  /\ (minLat (Pathfinder.bounds Ideal.field) < maxLat (Pathfinder.bounds Ideal.field))%R
  /\ (minLng (Pathfinder.bounds Ideal.field) < maxLng (Pathfinder.bounds Ideal.field))%R
  /\ Pathfinder.outsideBounds Ideal.field (Pathfinder.latLngToGrid Ideal.field far)
                                          (Pathfinder.latLngToGrid Ideal.field far) = false.
Proof.
  intros far.
  assert (H : 1 <= Pathfinder.gridSize Ideal.field) by (cbn; lia).
  assert (H1 : (minLat (Pathfinder.bounds Ideal.field) < maxLat (Pathfinder.bounds Ideal.field))%R)
    by (cbn; lra).
  assert (H2 : (minLng (Pathfinder.bounds Ideal.field) < maxLng (Pathfinder.bounds Ideal.field))%R)
    by (cbn; lra).
  split; [exact H|]. split; [exact H1|]. split; [exact H2|].
  exact (proj1 (proj2 (@latLngToGrid_in_grid Ideal.field far far far H H1 H2))).
Defined.

(** ** Obstacles *)

Section Obstacles.
Context {N : JSNum}.
Variable polygons : list (list (LatLng N)).
Variable pf : Pathfinder.state N.
Let n := Pathfinder.gridSize pf.

Lemma markCell_exists (point : LatLng N) (ps : list (list (LatLng N)))
      (x y : Z) (g : list (list Z)) :
  Pathfinder.markCell point ps x y g
  = if existsb (Pathfinder.isPointInPolygon point) ps then Grid.set g x y 100 else g.
Proof.
  induction ps as [|poly ps IH]; cbn; [reflexivity|].
  destruct (Pathfinder.isPointInPolygon point poly); [reflexivity|exact IH].
Qed.

Lemma markBody_exists (x y : Z) (g : list (list Z)) :
  markBody polygons pf x y g
  = if inObstacle polygons pf x y then Grid.set g x y 100 else g.
Proof. apply markCell_exists. Qed.

(** Step 1 of [markObstacles], cell by cell. *)
Lemma markSolid_cell :
  Grid.square n (Pathfinder.grid (Pathfinder.markSolid polygons pf))
  /\ forall x y, 0 <= x < n -> 0 <= y < n ->
       Grid.get 0 (Pathfinder.grid (Pathfinder.markSolid polygons pf)) x y
       = if inObstacle polygons pf x y then 100 else 10.
Proof.
  destruct (@write_loop Z n 0 (markBody polygons pf)
              (fun x y old => if inObstacle polygons pf x y then 100 else old)) with (g := Grid.make n 10)
    as [Hsq Hget].
  - intros x y g Hg Hx Hy. rewrite markBody_exists.
    destruct (inObstacle polygons pf x y); [now apply square_set|assumption].
  - intros x y g Hg Hx Hy. rewrite markBody_exists. destruct (inObstacle polygons pf x y);
      [now apply get_set_same with (n := n)|reflexivity].
  - intros x y x' y' g Hg Hx Hy Hx' Hy' Hne. rewrite markBody_exists.
    destruct (inObstacle polygons pf x y);
      [now apply get_set_other with (n := n)|reflexivity].
  - apply square_make.
  - split; [exact Hsq|]. intros x y Hx Hy.
    pose proof (Hget x y Hx Hy) as H. rewrite (get_make 0 10 Hx Hy) in H.
    exact H.
Qed.

(** [markObstacles] leaves 100 in every cell whose centre is in a polygon. *)
Lemma markObstacles_cell (x y : Z) :
  0 <= x < n -> 0 <= y < n -> inObstacle polygons pf x y = true ->
  Grid.get 0 (Pathfinder.grid (Pathfinder.markObstacles polygons pf)) x y = 100.
Proof.
  intros Hx Hy Hin. unfold Pathfinder.markObstacles.
  destruct markSolid_cell as [Hsq0 Hget0].
  set (pf0 := Pathfinder.markSolid polygons pf) in *.
  destruct (applyRiskDiffusion_cell pf0 Hsq0) as [Hsq1 Hget1].
  set (pf1 := Pathfinder.applyRiskDiffusion pf0) in *.
  destruct (applyRiskDiffusion_cell pf1 Hsq1) as [_ Hget2].
  assert (E0 : Grid.get 0 (Pathfinder.grid pf0) x y = 100).
  { rewrite (Hget0 x y Hx Hy). now rewrite Hin. }
  assert (E1 : Grid.get 0 (Pathfinder.grid pf1) x y = 100).
  { rewrite (Hget1 x y Hx Hy). rewrite diffused_wall; lia. }
  rewrite (Hget2 x y Hx Hy). rewrite diffused_wall; lia.
Qed.
End Obstacles.

(** ** The shape of a route *)

Lemma reconstructLoop_linked (cf : list (Node * Node)) (fuel : nat) :
  forall key t res,
    Pathfinder.reconstructLoop fuel cf key (key :: t) = Some res ->
    linked cf (key :: t) ->
    exists h t', res = h :: t'
      /\ Pathfinder.mapGet h cf = None
      /\ linked cf res
      /\ (exists pre, res = pre ++ key :: t)
      /\ (h = key \/ exists k, Pathfinder.mapGet k cf = Some h).
Proof.
  induction fuel as [|fuel IH]; intros key t res; cbn [Pathfinder.reconstructLoop].
  - destruct (Pathfinder.mapGet key cf) as [p|] eqn:E; [discriminate|].
    intros [= <-] Hl. exists key, t. repeat split; auto. now exists [].
  - destruct (Pathfinder.mapGet key cf) as [p|] eqn:E.
    + intros Hres Hl.
      destruct (IH p (key :: t) res Hres) as (h & t' & -> & Hnone & Hl' & [pre Hpre] & Hfrom).
      { split; assumption. }
      exists h, t'. repeat split; auto.
      * exists (pre ++ [p]). rewrite Hpre. now rewrite <- app_assoc.
      * right. destruct Hfrom as [->|Hk]; [exists key; exact E|exact Hk].
    + intros [= <-] Hl. exists key, t. repeat split; auto. now exists [].
Qed.

(** ** Where the search started *)

Section Route.
Context {N : JSNum}.
Variable pf : Pathfinder.state N.
Variable riskWeight : num N.
Variable startNode endNode : Node.

Lemma Origin_start : Origin startNode (Pathfinder.startSearch (N := N) startNode endNode).
Proof.
  constructor; cbn.
  - intros c [[<-|[]]|[]]. left. now destruct startNode.
  - reflexivity.
  - right. split; [|reflexivity]. now destruct startNode.
Qed.

Lemma expand_Origin (current neighbor : Node) (s : Pathfinder.Search N) :
  Origin startNode s -> In startNode (Pathfinder.closedSet s) ->
  Origin startNode (Pathfinder.expand pf riskWeight endNode current neighbor s)
  /\ Pathfinder.closedSet (Pathfinder.expand pf riskWeight endNode current neighbor s)
     = Pathfinder.closedSet s.
Proof.
  intros [O1 O2 O3] Hst. destruct neighbor as [nx ny]. unfold Pathfinder.expand.
  cbn [fst snd]. set (neighbor := (nx, ny)).
  destruct (Pathfinder.setHas neighbor (Pathfinder.closedSet s)) eqn:Ecl;
    [split; [constructor; assumption|reflexivity]|].
  destruct (_ >=? 100); [split; [constructor; assumption|reflexivity]|].
  destruct (negb _ || _); [|split; [constructor; assumption|reflexivity]].
  apply setHas_notIn in Ecl.
  assert (Hne : neighbor <> startNode) by congruence.
  split; [|reflexivity]. constructor; cbn.
  - intros c Hc. rewrite mapGet_set.
    destruct (Pathfinder.node_eqb neighbor c) eqn:E; [right; eauto|].
    apply node_eqb_neq in E. apply O1.
    destruct Hc as [Hc|Hc]; [|now right]. left.
    destruct (Pathfinder.inOpenSet neighbor (Pathfinder.openSet s)); [exact Hc|].
    unfold openCells in Hc. rewrite map_app in Hc. apply in_app_iff in Hc.
    destruct Hc as [Hc|[Hc|[]]]; [exact Hc|]. cbn in Hc. exfalso. apply E. exact Hc.
  - rewrite mapGet_set. now rewrite (proj2 (node_eqb_neq _ _) Hne).
  - now left.
Qed.

Lemma expandAll_Origin (current : Node) (nbs : list Node) (s : Pathfinder.Search N) :
  Origin startNode s -> In startNode (Pathfinder.closedSet s) ->
  Origin startNode (Grid.forEach nbs (Pathfinder.expand pf riskWeight endNode current) s).
Proof.
  unfold Grid.forEach. revert s. induction nbs as [|nb nbs IH]; intros s HO Hst; cbn.
  - assumption.
  - destruct (@expand_Origin current nb s HO Hst) as [HO' Hcl].
    apply IH; [assumption|]. now rewrite Hcl.
Qed.

Lemma turn_Origin (s s' : Pathfinder.Search N) :
  Inv pf s -> Origin startNode s ->
  Pathfinder.turn pf riskWeight endNode s = Pathfinder.Continue s' ->
  Origin startNode s'.
Proof.
  intros HI [O1 O2 O3]. unfold Pathfinder.turn.
  pose proof (sortByF_perm (Pathfinder.openSet s)) as Hperm.
  destruct (Pathfinder.sortByF (Pathfinder.openSet s)) as [|cur rest]; [discriminate|].
  destruct (_ && _); [discriminate|]. intros [= <-].
  set (c := (Pathfinder.ox cur, Pathfinder.oy cur)).
  assert (Hp : Permutation (c :: openCells rest) (openCells (Pathfinder.openSet s))).
  { unfold openCells. now apply (Permutation_map (fun n => (Pathfinder.ox n, Pathfinder.oy n))) in Hperm. }
  assert (Hin : forall c', In c' (c :: openCells rest) -> In c' (openCells (Pathfinder.openSet s))).
  { intros c' Hc'. eapply Permutation_in; eassumption. }
  assert (Hc_closed : ~ In c (Pathfinder.closedSet s)).
  { apply (inv_disjoint HI). apply Hin. now left. }
  assert (Hadd : Pathfinder.setAdd c (Pathfinder.closedSet s) = c :: Pathfinder.closedSet s).
  { unfold Pathfinder.setAdd. now rewrite (proj2 (setHas_notIn _ _) Hc_closed). }
  apply expandAll_Origin.
  - constructor; cbn; rewrite ?Hadd.
    + intros c' [Hc'|[<-|Hc']].
      * apply O1. left. apply Hin. now right.
      * apply O1. left. apply Hin. now left.
      * apply O1. now right.
    + exact O2.
    + left. destruct O3 as [O3|[O3 _]]; [now right|]. left.
      assert (H : In c [startNode]) by (rewrite <- O3; apply Hin; now left).
      destruct H as [H|[]]. now symmetry.
  - cbn. rewrite Hadd. destruct O3 as [O3|[O3 _]]; [now right|]. left.
    assert (H : In c [startNode]) by (rewrite <- O3; apply Hin; now left).
    destruct H as [H|[]]. now symmetry.
Qed.

Lemma linked_walk (s : Pathfinder.Search N) (l : list Node) :
  Inv pf s -> linked (Pathfinder.cameFrom s) l -> walk pf l.
Proof.
  intros HI. induction l as [|a l IH]; [cbn; auto|].
  destruct l as [|b l]; [cbn; auto|].
  intros [E Hl]. destruct (inv_entered HI _ E) as [H1 H2].
  cbn [walk]. split; [exact H1|split; [exact H2|exact (IH Hl)]].
Qed.

(** A route that the loop returns, when it is not empty: cells from the
    start cell to the goal cell, each after the first a neighbour of the one
    before, with a risk below 100. *)
Lemma turn_Return_route (s : Pathfinder.Search N) (route : list (LatLng N)) :
  Inv pf s -> Origin startNode s ->
  Pathfinder.turn pf riskWeight endNode s = Pathfinder.Return (Some route) ->
  route = []
  \/ exists cells,
       route = map (Pathfinder.gridToLatLng pf) (startNode :: cells)
       /\ (exists pre, startNode :: cells = pre ++ [endNode])
       /\ walk pf (startNode :: cells).
Proof.
  intros HI [O1 O2 O3]. unfold Pathfinder.turn.
  pose proof (sortByF_perm (Pathfinder.openSet s)) as Hperm.
  destruct (Pathfinder.sortByF (Pathfinder.openSet s)) as [|cur rest].
  - intros [= <-]. now left.
  - destruct (_ && _) eqn:Egoal; [|discriminate].
    apply andb_true_iff in Egoal. destruct Egoal as [Ex Ey].
    apply Z.eqb_eq in Ex, Ey.
    assert (Ecur : (Pathfinder.ox cur, Pathfinder.oy cur) = endNode).
    { destruct endNode; cbn in *. congruence. }
    rewrite Ecur. unfold Pathfinder.reconstructPath, Pathfinder.reconstructCells.
    destruct (Pathfinder.reconstructLoop _ _ _ _) as [res|] eqn:E; [|discriminate].
    cbn [option_map]. intros [= <-]. right.
    destruct (reconstructLoop_linked _ _ _ _ E I)
      as (h & t' & -> & Hnone & Hl & Hpre & Hfrom).
    assert (Hend_open : In endNode (openCells (Pathfinder.openSet s))).
    { rewrite <- Ecur. unfold openCells.
      apply (Permutation_in _ (Permutation_map _ Hperm)). now left. }
    assert (Hh : h = startNode).
    { destruct Hfrom as [->|[k Hk]].
      - destruct (O1 endNode (or_introl Hend_open)) as [H|[p Hp]]; [exact H|congruence].
      - pose proof (inv_cameFrom HI _ Hk) as Hr.
        pose proof (rank_le (Pathfinder.closedSet s) k) as Hle.
        assert (Hcl : In h (Pathfinder.closedSet s)) by (apply rank_lt_In; lia).
        destruct (O1 h (or_intror Hcl)) as [H|[p Hp]]; [exact H|congruence]. }
    subst h. exists t'. split; [reflexivity|]. split; [exact Hpre|].
    now apply linked_walk with (s := s).
Qed.
End Route.

Lemma searchLoop_route (N : JSNum) (pf : Pathfinder.state N) (riskWeight : num N)
      (startNode endNode : Node) (fuel : nat) :
  forall s route,
    Inv pf s -> Origin startNode s ->
    Pathfinder.searchLoop fuel pf riskWeight endNode s = Some route ->
    route = []
    \/ exists cells,
         route = map (Pathfinder.gridToLatLng pf) (startNode :: cells)
         /\ (exists pre, startNode :: cells = pre ++ [endNode])
         /\ walk pf (startNode :: cells).
Proof.
  induction fuel as [|fuel IH]; intros s route HI HO; cbn; [discriminate|].
  destruct (Pathfinder.turn pf riskWeight endNode s) as [r|s'] eqn:E.
  - intros ->. eapply turn_Return_route; eassumption.
  - apply IH.
    + now destruct (@turn_Continue _ pf riskWeight endNode s s' HI E).
    + eapply turn_Origin; eassumption.
Qed.

Lemma walk_cells (N : JSNum) (pf : Pathfinder.state N) (l : list Node) (a : Node) :
  walk pf (a :: l) ->
  forall c, In c l ->
    Pathfinder.isValid pf (fst c) (snd c) = true
    /\ Grid.get 0 (Pathfinder.grid pf) (fst c) (snd c) < 100.
Proof.
  revert a. induction l as [|b l IH]; intros a Hw c Hc; [destruct Hc|].
  cbn [walk] in Hw. destruct Hw as (Hnb & Hrisk & Hw).
  destruct Hc as [<-|Hc].
  - split; [|assumption]. apply getNeighbors_In in Hnb. apply Hnb.
  - exact (IH b Hw c Hc).
Qed.

Lemma findPath_route_cells (N : JSNum) (pf : Pathfinder.state N)
        (startLatLng endLatLng : LatLng N) (userRiskTolerance : num N) :
  let startNode := Pathfinder.latLngToGrid pf startLatLng in
  let endNode := Pathfinder.latLngToGrid pf endLatLng in
  let route := Pathfinder.findPath pf startLatLng endLatLng userRiskTolerance in
  route = []
  \/ exists cells,
       route = map (Pathfinder.gridToLatLng pf) (startNode :: cells)
       /\ (exists pre, startNode :: cells = pre ++ [endNode])
       /\ walk pf (startNode :: cells).
Proof.
  intros startNode endNode route. unfold route, Pathfinder.findPath.
  destruct (Pathfinder.findPathFuel _ _ _ _ _) as [r|] eqn:E; [|now left].
  unfold Pathfinder.findPathFuel in E. fold startNode endNode in E.
  destruct (Pathfinder.outsideBounds pf startNode endNode) eqn:Hout.
  - injection E as <-. now left.
  - eapply searchLoop_route; [| |exact E].
    + apply Inv_start. unfold Pathfinder.outsideBounds in Hout.
      apply orb_false_iff in Hout. destruct Hout as [Hout _].
      now apply negb_false_iff in Hout.
    + apply Origin_start.
Qed.

(** C2, as amended.  After [markObstacles] every cell of the grid whose
    centre lies in one of the polygons has risk exactly 100; and for every
    planner, start, goal and tolerance, every point of a route of [findPath]
    other than its first is the centre of a cell of the grid whose risk is
    below 100. *)
Theorem obstacles_are_walls_beyond_the_start (N : JSNum)
        (polygons : list (list (LatLng N))) (pf : Pathfinder.state N)
        (startLatLng endLatLng : LatLng N) (userRiskTolerance : num N) :
  (forall x y poly,
      0 <= x < Pathfinder.gridSize pf -> 0 <= y < Pathfinder.gridSize pf ->
      In poly polygons ->
      Pathfinder.isPointInPolygon (Pathfinder.gridToLatLng pf (x, y)) poly = true ->
      Grid.get 0 (Pathfinder.grid (Pathfinder.markObstacles polygons pf)) x y = 100)
  /\ (Pathfinder.findPath pf startLatLng endLatLng userRiskTolerance = []
      \/ exists cells,
           Pathfinder.findPath pf startLatLng endLatLng userRiskTolerance
           = map (Pathfinder.gridToLatLng pf)
                 (Pathfinder.latLngToGrid pf startLatLng :: cells)
           /\ forall c, In c cells ->
                (0 <= fst c < Pathfinder.gridSize pf
                 /\ 0 <= snd c < Pathfinder.gridSize pf)
                /\ Grid.get 0 (Pathfinder.grid pf) (fst c) (snd c) < 100).
Proof.
  split.
  - intros x y poly Hx Hy Hpoly Hin. apply markObstacles_cell; try assumption.
    unfold inObstacle. apply existsb_exists. exists poly. now split.
  - destruct (findPath_route_cells pf startLatLng endLatLng userRiskTolerance)
      as [E|(cells & E & _ & Hw)]; [now left|].
    right. exists cells. split; [exact E|]. intros c Hc.
    destruct (@walk_cells _ _ _ _ Hw c Hc) as [Hv Hr]. split; [|exact Hr].
    now apply isValid_iff in Hv.
Qed.

(** The routes of [findPath]: none, or the centres of cells that lead from
    the cell of the start to the cell of the goal, each cell after the first
    being one of the 8 neighbours of the cell before it, with a terrain risk
    below 100. *)
Theorem findPath_route_shape (N : JSNum) (pf : Pathfinder.state N)
        (startLatLng endLatLng : LatLng N) (userRiskTolerance : num N) :
  let startNode := Pathfinder.latLngToGrid pf startLatLng in
  let endNode := Pathfinder.latLngToGrid pf endLatLng in
  let route := Pathfinder.findPath pf startLatLng endLatLng userRiskTolerance in
  route = []
  \/ exists cells,
       route = map (Pathfinder.gridToLatLng pf) (startNode :: cells)
       /\ (exists pre, startNode :: cells = pre ++ [endNode])
       /\ walk pf (startNode :: cells).
Proof. exact (findPath_route_cells pf startLatLng endLatLng userRiskTolerance). Qed.

(** * Further properties of the planner *)

(** ** The search finds a way whenever there is one *)

Lemma last_cons_any {B : Type} (l : list B) (b d d' : B) :
  last (b :: l) d = last (b :: l) d'.
Proof.
  revert b. induction l as [|c l IH]; intros b; [reflexivity|].
  change (last (c :: l) d = last (c :: l) d'). apply IH.
Qed.

Section Complete.
Context {N : JSNum}.
Variable pf : Pathfinder.state N.
Variable riskWeight : num N.
Variable startNode endNode : Node.

Let below (c : Node) : Prop := Grid.get 0 (Pathfinder.grid pf) (fst c) (snd c) < 100.
Let scored (s : Pathfinder.Search N) : Prop :=
  forall c, Pathfinder.mapHas c (Pathfinder.gScore s) = true ->
            In c (Pathfinder.closedSet s) \/ In c (openCells (Pathfinder.openSet s)).

Lemma mapHas_set {V : Type} (k k' : Node) (v : V) (m : list (Node * V)) :
  Pathfinder.mapHas k' (Pathfinder.mapSet k v m) = true ->
  k' = k \/ Pathfinder.mapHas k' m = true.
Proof.
  unfold Pathfinder.mapHas. rewrite mapGet_set.
  destruct (Pathfinder.node_eqb k k') eqn:E.
  - apply node_eqb_eq in E. now left.
  - now right.
Qed.

(** The body of the loop over the neighbours: the frontier only grows, and
    a neighbour with a risk below 100 is closed or in the frontier after
    it. *)
Lemma expand_reaches (current neighbor : Node) (s : Pathfinder.Search N) :
  scored s ->
  let s' := Pathfinder.expand pf riskWeight endNode current neighbor s in
  scored s'
  /\ Pathfinder.closedSet s' = Pathfinder.closedSet s
  /\ (forall c, In c (openCells (Pathfinder.openSet s)) ->
                In c (openCells (Pathfinder.openSet s')))
  /\ (below neighbor ->
      In neighbor (Pathfinder.closedSet s')
      \/ In neighbor (openCells (Pathfinder.openSet s'))).
Proof.
  intros Hs. unfold Pathfinder.expand. destruct neighbor as [nx ny].
  cbn [fst snd]. set (neighbor := (nx, ny)). unfold below. cbn [fst snd].
  destruct (Pathfinder.setHas neighbor (Pathfinder.closedSet s)) eqn:Ecl.
  { apply setHas_In in Ecl. cbv zeta. repeat split; auto. }
  destruct (_ >=? 100) eqn:Ewall.
  { cbv zeta. repeat split; auto. intros Hb. rewrite Z.geb_leb in Ewall.
    apply Z.leb_le in Ewall. unfold neighbor in Hb. cbn [fst snd] in Hb. lia. }
  destruct (negb _ || _) eqn:Econd; cbv zeta.
  - assert (Hin : In neighbor
              (openCells (if Pathfinder.inOpenSet neighbor (Pathfinder.openSet s)
                          then Pathfinder.openSet s
                          else Pathfinder.openSet s ++
                               [{| Pathfinder.ox := nx; Pathfinder.oy := ny;
                                   Pathfinder.f :=
                                     Pathfinder.scoreGet neighbor
                                       (Pathfinder.mapSet neighbor
                                          (nadd N (Pathfinder.tentativeG pf riskWeight s current neighbor)
                                                  (Pathfinder.heuristic neighbor endNode))
                                          (Pathfinder.fScore s)) |}]))).
    { destruct (Pathfinder.inOpenSet neighbor (Pathfinder.openSet s)) eqn:Eo.
      - now apply inOpenSet_In.
      - unfold openCells. rewrite map_app. apply in_or_app. right. now left. }
    assert (Hgrow : forall c, In c (openCells (Pathfinder.openSet s)) ->
              In c (openCells (if Pathfinder.inOpenSet neighbor (Pathfinder.openSet s)
                          then Pathfinder.openSet s
                          else Pathfinder.openSet s ++
                               [{| Pathfinder.ox := nx; Pathfinder.oy := ny;
                                   Pathfinder.f :=
                                     Pathfinder.scoreGet neighbor
                                       (Pathfinder.mapSet neighbor
                                          (nadd N (Pathfinder.tentativeG pf riskWeight s current neighbor)
                                                  (Pathfinder.heuristic neighbor endNode))
                                          (Pathfinder.fScore s)) |}]))).
    { intros c Hc. destruct (Pathfinder.inOpenSet neighbor (Pathfinder.openSet s)).
      - exact Hc.
      - unfold openCells. rewrite map_app. apply in_or_app. now left. }
    cbn [Pathfinder.openSet Pathfinder.closedSet Pathfinder.gScore].
    repeat split.
    + intros c Hc. apply mapHas_set in Hc. destruct Hc as [->|Hc].
      * now right.
      * destruct (Hs c Hc) as [H|H]; [now left|right; now apply Hgrow].
    + exact Hgrow.
    + intros _. now right.
  - repeat split; auto. intros _. apply orb_false_iff in Econd.
    destruct Econd as [Ehas _]. apply negb_false_iff in Ehas. now apply Hs.
Qed.

Lemma expandAll_reaches (current : Node) (nbs : list Node) (s : Pathfinder.Search N) :
  scored s ->
  let s' := Grid.forEach nbs (Pathfinder.expand pf riskWeight endNode current) s in
  scored s'
  /\ Pathfinder.closedSet s' = Pathfinder.closedSet s
  /\ (forall c, In c (openCells (Pathfinder.openSet s)) ->
                In c (openCells (Pathfinder.openSet s')))
  /\ (forall nb, In nb nbs -> below nb ->
        In nb (Pathfinder.closedSet s') \/ In nb (openCells (Pathfinder.openSet s'))).
Proof.
  unfold Grid.forEach. revert s. induction nbs as [|nb nbs IH]; intros s Hs; cbn.
  - repeat split; auto.
  - destruct (@expand_reaches current nb s Hs) as (Hs1 & Hc1 & Ho1 & Hr1).
    destruct (IH _ Hs1) as (Hs2 & Hc2 & Ho2 & Hr2).
    repeat split.
    + exact Hs2.
    + now rewrite Hc2.
    + intros c Hc. now apply Ho2, Ho1.
    + intros nb' [<-|Hnb] Hb.
      * destruct (Hr1 Hb) as [H|H].
        -- left. now rewrite Hc2.
        -- right. now apply Ho2.
      * now apply Hr2.
Qed.

Lemma Frontier_start :
  Frontier pf endNode (Pathfinder.startSearch (N := N) startNode endNode).
Proof.
  constructor; cbn.
  - intros c nb [].
  - intros [].
  - intros c Hc. right. left.
    apply (@mapHas_set (num N) startNode c (ofZ N 0) []) in Hc.
    destruct Hc as [->|Hc]; [now destruct startNode|discriminate].
Qed.

Lemma turn_Frontier (s s' : Pathfinder.Search N) :
  Inv pf s -> Frontier pf endNode s ->
  Pathfinder.turn pf riskWeight endNode s = Pathfinder.Continue s' ->
  Frontier pf endNode s'.
Proof.
  intros HI [F1 F2 F3]. unfold Pathfinder.turn.
  pose proof (sortByF_perm (Pathfinder.openSet s)) as Hperm.
  destruct (Pathfinder.sortByF (Pathfinder.openSet s)) as [|cur rest]; [discriminate|].
  destruct (_ && _) eqn:Egoal; [discriminate|]. intros [= <-].
  set (c := (Pathfinder.ox cur, Pathfinder.oy cur)).
  assert (Hc_goal : c <> endNode).
  { intros E. apply andb_false_iff in Egoal. rewrite <- E in Egoal. cbn in Egoal.
    rewrite !Z.eqb_refl in Egoal. destruct Egoal; discriminate. }
  assert (Hp : Permutation (c :: openCells rest) (openCells (Pathfinder.openSet s))).
  { unfold openCells. now apply (Permutation_map (fun n => (Pathfinder.ox n, Pathfinder.oy n))) in Hperm. }
  assert (Hback : forall c', In c' (openCells (Pathfinder.openSet s)) ->
                             c' = c \/ In c' (openCells rest)).
  { intros c' Hc'. apply (Permutation_in _ (Permutation_sym Hp)) in Hc'.
    destruct Hc' as [<-|Hc']; auto. }
  assert (Hc_closed : ~ In c (Pathfinder.closedSet s)).
  { apply (inv_disjoint HI). apply (Permutation_in _ Hp). now left. }
  assert (Hadd : Pathfinder.setAdd c (Pathfinder.closedSet s) = c :: Pathfinder.closedSet s).
  { unfold Pathfinder.setAdd. now rewrite (proj2 (setHas_notIn _ _) Hc_closed). }
  match goal with |- Frontier pf endNode (Grid.forEach ?nbs ?body ?s1) =>
    assert (Hs1 : scored s1);
    [|pose proof (@expandAll_reaches c nbs s1 Hs1) as Hexp;
      remember (Grid.forEach nbs body s1) as s' eqn:Es']
  end.
  { intros c' Hc'. cbn in Hc' |- *. rewrite Hadd.
    destruct (F3 c' Hc') as [H|H]; [left; now right|].
    destruct (Hback c' H) as [->|H']; [left; now left|now right]. }
  cbv zeta in Hexp.
  destruct Hexp as (Hs' & Hcl' & Ho' & Hr').
  cbn [Pathfinder.closedSet Pathfinder.openSet] in Hcl', Ho'. rewrite Hadd in Hcl'.
  constructor.
  - intros c0 nb Hc0 Hnb Hb. rewrite Hcl' in Hc0 |- *.
    destruct Hc0 as [<-|Hc0].
    + destruct (Hr' nb Hnb Hb) as [H|H]; [left; now rewrite <- Hcl'|now right].
    + destruct (F1 c0 nb Hc0 Hnb Hb) as [H|H]; [left; now right|].
      destruct (Hback nb H) as [->|H']; [left; now left|right; now apply Ho'].
  - rewrite Hcl'. intros [H|H]; [now apply Hc_goal|now apply F2].
  - exact Hs'.
Qed.

(** With an empty frontier, the closed cells hold every cell that a way
    from a closed cell leads to. *)
Lemma closed_walk (s : Pathfinder.Search N) :
  Frontier pf endNode s -> Pathfinder.openSet s = [] ->
  forall l a, In a (Pathfinder.closedSet s) -> walk pf (a :: l) ->
    In (last (a :: l) a) (Pathfinder.closedSet s).
Proof.
  intros [F1 _ _] Ho. induction l as [|b l IH]; intros a Ha Hw; [exact Ha|].
  cbn [walk] in Hw. destruct Hw as (Hnb & Hb & Hw).
  destruct (F1 a b Ha Hnb Hb) as [H|H].
  - specialize (IH b H Hw).
    change (last (a :: b :: l) a) with (last (b :: l) a).
    now rewrite (last_cons_any l b a b).
  - rewrite Ho in H. destruct H.
Qed.

Lemma turn_Return_found (s : Pathfinder.Search N) (route : list (LatLng N))
      (way : list Node) :
  Inv pf s -> Origin startNode s -> Frontier pf endNode s ->
  wayBetween pf startNode endNode way ->
  Pathfinder.turn pf riskWeight endNode s = Pathfinder.Return (Some route) ->
  route <> [].
Proof.
  intros HI [O1 O2 O3] HF (cells & -> & Hlast & Hw). unfold Pathfinder.turn.
  pose proof (sortByF_perm (Pathfinder.openSet s)) as Hperm.
  destruct (Pathfinder.sortByF (Pathfinder.openSet s)) as [|cur rest].
  - apply Permutation_nil in Hperm. exfalso.
    destruct O3 as [O3|[O3 _]].
    + apply (frontier_goal HF). rewrite <- Hlast.
      now apply closed_walk.
    + rewrite Hperm in O3. discriminate.
  - destruct (_ && _); [|discriminate].
    unfold Pathfinder.reconstructPath, Pathfinder.reconstructCells.
    destruct (Pathfinder.reconstructLoop _ _ _ _) as [res|] eqn:E; [|discriminate].
    cbn [option_map]. intros [= <-].
    destruct (reconstructLoop_linked _ _ _ _ E I) as (h & t' & -> & _).
    discriminate.
Qed.

Lemma searchLoop_found (fuel : nat) (way : list Node) :
  wayBetween pf startNode endNode way ->
  forall s route,
    Inv pf s -> Origin startNode s -> Frontier pf endNode s ->
    Pathfinder.searchLoop fuel pf riskWeight endNode s = Some route ->
    route <> [].
Proof.
  intros Hway. induction fuel as [|fuel IH]; intros s route HI HO HF; cbn; [discriminate|].
  destruct (Pathfinder.turn pf riskWeight endNode s) as [r|s'] eqn:E.
  - intros ->. eapply turn_Return_found; eassumption.
  - apply IH.
    + now destruct (@turn_Continue _ pf riskWeight endNode s s' HI E).
    + eapply turn_Origin; eassumption.
    + eapply turn_Frontier; eassumption.
Qed.
End Complete.

(** Along a chain of [cameFrom] entries the cells were closed one after the
    other, so no cell comes twice. *)
Lemma linked_NoDup (N : JSNum) (pf : Pathfinder.state N) (s : Pathfinder.Search N)
      (l : list Node) :
  Inv pf s -> linked (Pathfinder.cameFrom s) l -> NoDup l.
Proof.
  intros HI.
  assert (Hrank : forall l a, linked (Pathfinder.cameFrom s) (a :: l) ->
            forall c, In c l ->
              (rank (Pathfinder.closedSet s) a < rank (Pathfinder.closedSet s) c)%nat).
  { clear l. induction l as [|b l IH]; intros a Hl c Hc; [destruct Hc|].
    destruct Hl as [E Hl]. pose proof (inv_cameFrom HI _ E) as Hab.
    destruct Hc as [<-|Hc]; [exact Hab|].
    specialize (IH b Hl c Hc). lia. }
  induction l as [|a l IH]; intros Hl; constructor.
  - intros Ha. specialize (Hrank l a Hl a Ha). lia.
  - apply IH. destruct l as [|b l]; [exact I|]. apply Hl.
Qed.

Lemma turn_Return_distinct (N : JSNum) (pf : Pathfinder.state N) (riskWeight : num N)
      (endNode : Node) (s : Pathfinder.Search N) (route : list (LatLng N)) :
  Inv pf s ->
  Pathfinder.turn pf riskWeight endNode s = Pathfinder.Return (Some route) ->
  exists cells, route = map (Pathfinder.gridToLatLng pf) cells /\ NoDup cells
    /\ forall c, In c cells -> Pathfinder.isValid pf (fst c) (snd c) = true.
Proof.
  intros HI. unfold Pathfinder.turn.
  pose proof (sortByF_perm (Pathfinder.openSet s)) as Hperm.
  destruct (Pathfinder.sortByF (Pathfinder.openSet s)) as [|cur rest].
  - intros [= <-]. exists []. repeat split; [constructor|intros c []].
  - destruct (_ && _); [|discriminate].
    set (c := (Pathfinder.ox cur, Pathfinder.oy cur)).
    assert (Hc_open : In c (openCells (Pathfinder.openSet s))).
    { unfold openCells. apply (Permutation_in _ (Permutation_map _ Hperm)). now left. }
    unfold Pathfinder.reconstructPath, Pathfinder.reconstructCells.
    destruct (Pathfinder.reconstructLoop _ _ _ _) as [res|] eqn:E; [|discriminate].
    cbn [option_map]. intros [= <-].
    destruct (reconstructLoop_linked _ _ _ _ E I)
      as (h & t' & -> & Hnone & Hl & [pre Hpre] & Hfrom).
    exists (h :: t'). split; [reflexivity|]. split; [now apply linked_NoDup with (pf := pf) (s := s)|].
    assert (Hw : walk pf (h :: t')) by (now apply linked_walk with (s := s)).
    intros c' [<-|Hc'].
    + destruct Hfrom as [->|[k Hk]].
      * exact (inv_open_valid HI _ Hc_open).
      * pose proof (inv_cameFrom HI _ Hk) as Hr.
        pose proof (rank_le (Pathfinder.closedSet s) k) as Hle.
        apply (inv_closed_valid HI). apply rank_lt_In. lia.
    + exact (proj1 (@walk_cells _ _ _ _ Hw c' Hc')).
Qed.

Lemma searchLoop_distinct (N : JSNum) (pf : Pathfinder.state N) (riskWeight : num N)
      (endNode : Node) (fuel : nat) :
  forall s route,
    Inv pf s ->
    Pathfinder.searchLoop fuel pf riskWeight endNode s = Some route ->
    exists cells, route = map (Pathfinder.gridToLatLng pf) cells /\ NoDup cells
      /\ forall c, In c cells -> Pathfinder.isValid pf (fst c) (snd c) = true.
Proof.
  induction fuel as [|fuel IH]; intros s route HI; cbn; [discriminate|].
  destruct (Pathfinder.turn pf riskWeight endNode s) as [r|s'] eqn:E.
  - intros ->. eapply turn_Return_distinct; eassumption.
  - apply IH. now destruct (@turn_Continue _ pf riskWeight endNode s s' HI E).
Qed.

(** What [findPath] runs: the loop from the start cell, when both cells are
    in the grid. *)
Lemma findPath_runs (N : JSNum) (pf : Pathfinder.state N)
      (startLatLng endLatLng : LatLng N) (userRiskTolerance : num N) :
  let startNode := Pathfinder.latLngToGrid pf startLatLng in
  let endNode := Pathfinder.latLngToGrid pf endLatLng in
  Pathfinder.outsideBounds pf startNode endNode = false ->
  Inv pf (Pathfinder.startSearch startNode endNode)
  /\ Pathfinder.searchLoop (Pathfinder.enoughFuel pf) pf
       (Pathfinder.riskWeightOf userRiskTolerance) endNode
       (Pathfinder.startSearch startNode endNode)
     = Some (Pathfinder.findPath pf startLatLng endLatLng userRiskTolerance).
Proof.
  intros startNode endNode Hout.
  assert (HI : Inv pf (Pathfinder.startSearch startNode endNode)).
  { apply Inv_start. unfold Pathfinder.outsideBounds in Hout.
    apply orb_false_iff in Hout. destruct Hout as [Hout _].
    now apply negb_false_iff in Hout. }
  split; [exact HI|].
  unfold Pathfinder.findPath, Pathfinder.findPathFuel.
  fold startNode endNode. rewrite Hout.
  destruct (@searchLoop_total _ pf (Pathfinder.riskWeightOf userRiskTolerance) endNode
              (Pathfinder.enoughFuel pf) _ HI) as [route ->]; [|reflexivity].
  unfold Pathfinder.enoughFuel. cbn. lia.
Qed.

Lemma inside_bounds (N : JSNum) (pf : Pathfinder.state N) (a b : LatLng N) :
  1 <= Pathfinder.gridSize pf ->
  Pathfinder.outsideBounds pf (Pathfinder.latLngToGrid pf a)
                              (Pathfinder.latLngToGrid pf b) = false.
Proof.
  intros Hn. unfold Pathfinder.outsideBounds, Pathfinder.isValid, Pathfinder.latLngToGrid.
  now rewrite !latLngToGrid_valid.
Qed.

(** [findPath] returns a route exactly when there is a way from the cell of
    the start to the cell of the goal through cells of risk below 100
    (8-connected; the risk of the start cell does not count). *)
Theorem findPath_finds_a_way (N : JSNum) (pf : Pathfinder.state N)
        (startLatLng endLatLng : LatLng N) (userRiskTolerance : num N) :
  1 <= Pathfinder.gridSize pf ->
  let startNode := Pathfinder.latLngToGrid pf startLatLng in
  let endNode := Pathfinder.latLngToGrid pf endLatLng in
  Pathfinder.findPath pf startLatLng endLatLng userRiskTolerance <> []
  <-> exists way, wayBetween pf startNode endNode way.
Proof.
  intros Hn startNode endNode. split.
  - intros Hroute.
    destruct (findPath_route_cells pf startLatLng endLatLng userRiskTolerance)
      as [E|(cells & _ & [pre Hpre] & Hw)]; [contradiction|].
    fold startNode endNode in Hpre, Hw.
    exists (startNode :: cells), cells. split; [reflexivity|]. split; [|exact Hw].
    rewrite Hpre. apply last_last.
  - intros [way Hway].
    destruct (@findPath_runs _ pf startLatLng endLatLng userRiskTolerance) as [HI Hrun].
    { now apply inside_bounds. }
    fold startNode endNode in HI, Hrun.
    eapply searchLoop_found; [exact Hway|exact HI| | |exact Hrun].
    + apply Origin_start.
    + apply Frontier_start.
Qed.

(** A route to a goal whose cell is a wall: none, unless the start lies in
    the same cell. *)
Theorem findPath_goal_in_wall (N : JSNum) (pf : Pathfinder.state N)
        (startLatLng endLatLng : LatLng N) (userRiskTolerance : num N) :
  let startNode := Pathfinder.latLngToGrid pf startLatLng in
  let endNode := Pathfinder.latLngToGrid pf endLatLng in
  100 <= Grid.get 0 (Pathfinder.grid pf) (fst endNode) (snd endNode) ->
  endNode <> startNode ->
  Pathfinder.findPath pf startLatLng endLatLng userRiskTolerance = [].
Proof.
  intros startNode endNode Hwall Hne.
  destruct (findPath_route_cells pf startLatLng endLatLng userRiskTolerance)
    as [E|(cells & _ & [pre Hpre] & Hw)]; [exact E|].
  fold startNode endNode in Hpre, Hw. exfalso.
  assert (Hin : In endNode cells).
  { assert (H : In endNode (startNode :: cells)).
    { rewrite Hpre. apply in_or_app. right. now left. }
    destruct H as [H|H]; [now elim Hne|exact H]. }
  destruct (@walk_cells _ _ _ _ Hw endNode Hin) as [_ Hlt]. lia.
Qed.

(** With start and goal in one cell, the first turn of the loop takes the
    start cell from the frontier, finds it to be the goal and returns. *)
Lemma same_cell_fuel (N : JSNum) (pf : Pathfinder.state N)
        (startLatLng endLatLng : LatLng N) (userRiskTolerance : num N) :
  1 <= Pathfinder.gridSize pf ->
  Pathfinder.latLngToGrid pf endLatLng = Pathfinder.latLngToGrid pf startLatLng ->
  Pathfinder.findPathFuel (Pathfinder.enoughFuel pf) pf startLatLng endLatLng
                          userRiskTolerance
  = Some [Pathfinder.gridToLatLng pf (Pathfinder.latLngToGrid pf startLatLng)].
Proof.
  intros Hn Esame. unfold Pathfinder.findPathFuel.
  rewrite inside_bounds by exact Hn. rewrite Esame.
  unfold Pathfinder.enoughFuel. cbn [Pathfinder.searchLoop].
  unfold Pathfinder.turn, Pathfinder.startSearch.
  cbn [Pathfinder.openSet Pathfinder.sortByF fold_right Pathfinder.insertByF
       Pathfinder.ox Pathfinder.oy Pathfinder.cameFrom].
  rewrite !Z.eqb_refl. cbn [andb].
  destruct (Pathfinder.latLngToGrid pf startLatLng) as [x y]. reflexivity.
Qed.

(** A route between two points of one cell is the centre of that cell and
    nothing else, whatever the risk of the cell. *)
Theorem findPath_same_cell (N : JSNum) (pf : Pathfinder.state N)
        (startLatLng endLatLng : LatLng N) (userRiskTolerance : num N) :
  1 <= Pathfinder.gridSize pf ->
  Pathfinder.latLngToGrid pf endLatLng = Pathfinder.latLngToGrid pf startLatLng ->
  Pathfinder.findPath pf startLatLng endLatLng userRiskTolerance
  = [Pathfinder.gridToLatLng pf (Pathfinder.latLngToGrid pf startLatLng)].
Proof.
  intros Hn Esame. unfold Pathfinder.findPath.
  now rewrite (@same_cell_fuel _ pf startLatLng endLatLng userRiskTolerance Hn Esame).
Qed.

(** A route visits no cell twice: it is the list of centres of distinct
    cells of the grid, and so has at most [gridSize * gridSize] points. *)
Theorem findPath_visits_once (N : JSNum) (pf : Pathfinder.state N)
        (startLatLng endLatLng : LatLng N) (userRiskTolerance : num N) :
  let route := Pathfinder.findPath pf startLatLng endLatLng userRiskTolerance in
  (exists cells,
      route = map (Pathfinder.gridToLatLng pf) cells /\ NoDup cells
      /\ forall c, In c cells ->
           0 <= fst c < Pathfinder.gridSize pf /\ 0 <= snd c < Pathfinder.gridSize pf)
  /\ Z.of_nat (length route) <= Pathfinder.gridSize pf * Pathfinder.gridSize pf.
Proof.
  intros route.
  assert (H : exists cells,
             route = map (Pathfinder.gridToLatLng pf) cells /\ NoDup cells
             /\ forall c, In c cells -> Pathfinder.isValid pf (fst c) (snd c) = true).
  { destruct (Pathfinder.outsideBounds pf (Pathfinder.latLngToGrid pf startLatLng)
                (Pathfinder.latLngToGrid pf endLatLng)) eqn:Hout.
    - exists []. unfold route, Pathfinder.findPath, Pathfinder.findPathFuel.
      rewrite Hout. repeat split; [constructor|intros c []].
    - destruct (@findPath_runs _ pf startLatLng endLatLng userRiskTolerance Hout)
        as [HI Hrun].
      exact (@searchLoop_distinct _ _ _ _ _ _ _ HI Hrun). }
  destruct H as (visited & E & Hnd & Hv). split.
  - exists visited. split; [exact E|]. split; [exact Hnd|].
    intros c Hc. apply isValid_iff. exact (Hv c Hc).
  - rewrite E, length_map.
    assert (Hle : (length visited <= length (cells (Pathfinder.gridSize pf)))%nat).
    { apply NoDup_incl_length; [exact Hnd|].
      intros c Hc. apply cells_In. apply isValid_iff. exact (Hv c Hc). }
    rewrite cells_length in Hle.
    apply Nat2Z.inj_le in Hle. rewrite Nat2Z.inj_mul in Hle.
    destruct (Z_le_gt_dec 0 (Pathfinder.gridSize pf)) as [Hpos|Hneg].
    + now rewrite Z2Nat.id in Hle by exact Hpos.
    + assert (E0 : Z.to_nat (Pathfinder.gridSize pf) = 0%nat) by lia.
      rewrite E0 in Hle. nia.
Qed.

(** ** The neighbourhood *)

Lemma directions_NoDup : NoDup Pathfinder.directions.
Proof.
  unfold Pathfinder.directions.
  repeat (constructor; [cbn; intros H;
                        repeat (destruct H as [H|H]; [discriminate H|]); exact H|]).
  constructor.
Qed.

Lemma filter_all {B : Type} (P : B -> bool) (l : list B) :
  (forall b, In b l -> P b = true) -> filter P l = l.
Proof.
  induction l as [|b l IH]; intros H; cbn; [reflexivity|].
  rewrite (H b (or_introl eq_refl)). f_equal. apply IH. intros c Hc. apply H. now right.
Qed.

(** [getNeighbors]: the cells of the grid at distance 1 in the larger of
    the two axes, each once, at most 8 of them and exactly 8 away from the
    border; a cell of the grid is a neighbour of each of its neighbours. *)
Theorem getNeighbors_eight_connected (N : JSNum) (pf : Pathfinder.state N) (x y : Z) :
  let n := Pathfinder.gridSize pf in
  let nbs := Pathfinder.getNeighbors pf x y in
  (forall c, In c nbs <->
             (0 <= fst c < n /\ 0 <= snd c < n)
             /\ Z.max (Z.abs (fst c - x)) (Z.abs (snd c - y)) = 1)
  /\ NoDup nbs
  /\ (length nbs <= 8)%nat
  /\ (0 < x < n - 1 -> 0 < y < n - 1 -> length nbs = 8%nat)
  /\ (forall c, 0 <= x < n -> 0 <= y < n -> In c nbs ->
                In (x, y) (Pathfinder.getNeighbors pf (fst c) (snd c))).
Proof.
  intros n nbs. split; [|split; [|split; [|split]]].
  - intros c. unfold nbs. rewrite getNeighbors_In. unfold Pathfinder.isValid.
    rewrite isValid_iff. fold n. split.
    + intros (Hv & Hx & Hy & Hne). split; [exact Hv|].
      assert (fst c - x <> 0 \/ snd c - y <> 0).
      { destruct (Z.eq_dec (fst c - x) 0) as [Ex|Ex]; [|now left]. right.
        intros Ey. apply Hne. destruct c; cbn in *. f_equal; lia. }
      lia.
    + intros [Hv Hd]. split; [exact Hv|].
      split; [lia|]. split; [lia|]. intros ->. cbn in Hd.
      rewrite !Z.sub_diag in Hd. cbn in Hd. lia.
  - unfold nbs. rewrite getNeighbors_filter. apply NoDup_filter.
    apply Injective_map_NoDup; [|exact directions_NoDup].
    intros [a b] [a' b'] E. cbn in E. inversion E. f_equal; lia.
  - unfold nbs. rewrite getNeighbors_filter.
    etransitivity; [apply filter_length_le|]. now rewrite length_map.
  - intros Hx Hy. unfold nbs. rewrite getNeighbors_filter.
    rewrite filter_all; [now rewrite length_map|].
    intros c Hc. apply in_map_iff in Hc. destruct Hc as ([dx dy] & <- & Hd).
    apply directions_In in Hd. cbn [fst snd] in *. apply isValid_iff. fold n. lia.
  - intros c Hx Hy Hc. apply getNeighbors_In in Hc. apply getNeighbors_In.
    cbn [fst snd]. destruct Hc as (_ & Hcx & Hcy & Hne).
    split; [apply isValid_iff; fold n; lia|].
    split; [lia|]. split; [lia|].
    intros E. apply Hne. destruct c; cbn in *. inversion E. reflexivity.
Qed.

(** ** The risk gradient *)

Lemma maxNeighborRisk_bounds (N : JSNum) (pf : Pathfinder.state N) (x y : Z) :
  let r (c : Node) := Grid.get 0 (Pathfinder.grid pf) (fst c) (snd c) in
  let m := Pathfinder.maxNeighborRisk pf x y in
  (forall nb, In nb (Pathfinder.getNeighbors pf x y) -> r nb <= m)
  /\ (m = 0 \/ exists nb, In nb (Pathfinder.getNeighbors pf x y) /\ m = r nb).
Proof.
  intros r m.
  destruct (max_loop r (Pathfinder.getNeighbors pf x y) 0) as (_ & Hle & Hat).
  split; assumption.
Qed.

Lemma diffused_level (pf : Pathfinder.state RNum) (x y old : Z) :
  Grid.get 0 (Pathfinder.grid pf) x y < 100 ->
  let m := Pathfinder.maxNeighborRisk pf x y in
  diffused pf x y old = if m >? 15 then Z.max old (3 * m / 5) else old.
Proof.
  intros Hlt m. unfold diffused.
  rewrite Z.geb_leb, (proj2 (Z.leb_gt _ _)) by lia.
  fold m. cbv zeta. destruct (m >? 15); [|reflexivity].
  change (nfloor RNum (nmul RNum (ofZ RNum m) (dec 6 10)))
    with (Int_part (IZR m * (6 / 10))).
  rewrite floor_decay. destruct (3 * m / 5 >? old) eqn:E; lia.
Qed.

Section Gradient.
Variable polygons : list (list (LatLng RNum)).
Variable pf : Pathfinder.state RNum.
Let n := Pathfinder.gridSize pf.
Let wall (c : Node) : bool := inObstacle polygons pf (fst c) (snd c).
Let near (c : Node) : bool := nearObstacle polygons pf c.
Let pf0 := Pathfinder.markSolid polygons pf.
Let pf1 := Pathfinder.applyRiskDiffusion pf0.

Lemma neighbors_in_grid (x y : Z) (nb : Node) :
  In nb (Pathfinder.getNeighbors pf x y) -> 0 <= fst nb < n /\ 0 <= snd nb < n.
Proof. intros H. apply getNeighbors_In in H. apply isValid_iff. apply H. Qed.

Lemma solid_value (x y : Z) :
  0 <= x < n -> 0 <= y < n ->
  Grid.get 0 (Pathfinder.grid pf0) x y = if wall (x, y) then 100 else 10.
Proof. intros Hx Hy. exact (proj2 (markSolid_cell polygons pf) x y Hx Hy). Qed.

Lemma first_pass_value (x y : Z) :
  0 <= x < n -> 0 <= y < n ->
  Grid.get 0 (Pathfinder.grid pf1) x y
  = if wall (x, y) then 100 else if near (x, y) then 60 else 10.
Proof.
  intros Hx Hy.
  destruct (markSolid_cell polygons pf) as [Hsq0 _].
  destruct (applyRiskDiffusion_cell pf0 Hsq0) as [_ Hget1].
  unfold pf1. rewrite (Hget1 x y Hx Hy).
  pose proof (solid_value Hx Hy) as E0.
  destruct (wall (x, y)) eqn:Ew.
  { rewrite diffused_wall; lia. }
  rewrite diffused_level by lia. rewrite E0.
  destruct (maxNeighborRisk_bounds pf0 x y) as [Hle Hat].
  change (Pathfinder.getNeighbors pf0 x y) with (Pathfinder.getNeighbors pf x y) in Hle, Hat.
  set (m := Pathfinder.maxNeighborRisk pf0 x y) in *.
  assert (Hval : forall nb, In nb (Pathfinder.getNeighbors pf x y) ->
            Grid.get 0 (Pathfinder.grid pf0) (fst nb) (snd nb)
            = if wall nb then 100 else 10).
  { intros nb Hnb. destruct (neighbors_in_grid _ _ _ Hnb) as [H1 H2].
    rewrite (solid_value H1 H2). now destruct nb. }
  destruct (near (x, y)) eqn:En.
  - assert (Hm : m = 100).
    { unfold near, nearObstacle in En. apply existsb_exists in En.
      destruct En as (nb & Hnb & Hw). cbn [fst snd] in Hnb.
      pose proof (Hle nb Hnb) as H1. rewrite (Hval nb Hnb) in H1.
      unfold wall in H1. rewrite Hw in H1.
      destruct Hat as [H0|(nb' & Hnb' & H0)]; [lia|].
      rewrite (Hval nb' Hnb') in H0. destruct (wall nb'); lia. }
    rewrite Hm. reflexivity.
  - assert (Hm : m = 0 \/ m = 10).
    { destruct Hat as [H0|(nb' & Hnb' & H0)]; [now left|]. right.
      rewrite (Hval nb' Hnb') in H0.
      assert (Hw : wall nb' = false).
      { unfold near, nearObstacle in En. cbn [fst snd] in En.
        destruct (wall nb') eqn:Ew'; [|reflexivity].
        rewrite <- En. symmetry. apply existsb_exists. exists nb'. now split. }
      now rewrite Hw in H0. }
    destruct Hm as [-> | ->]; reflexivity.
Qed.

Lemma second_pass_value (x y : Z) :
  0 <= x < n -> 0 <= y < n ->
  Grid.get 0 (Pathfinder.grid (Pathfinder.markObstacles polygons pf)) x y
  = gradient polygons pf x y.
Proof.
  intros Hx Hy.
  destruct (markSolid_cell polygons pf) as [Hsq0 _].
  destruct (applyRiskDiffusion_cell pf0 Hsq0) as [Hsq1 _].
  destruct (applyRiskDiffusion_cell pf1 Hsq1) as [_ Hget2].
  unfold Pathfinder.markObstacles. fold pf0. fold pf1.
  rewrite (Hget2 x y Hx Hy).
  pose proof (first_pass_value Hx Hy) as E1. unfold gradient.
  change (inObstacle polygons pf x y) with (wall (x, y)).
  change (nearObstacle polygons pf (x, y)) with (near (x, y)).
  destruct (wall (x, y)) eqn:Ew.
  { rewrite diffused_wall; lia. }
  assert (Hlt : Grid.get 0 (Pathfinder.grid pf1) x y < 100).
  { rewrite E1. destruct (near (x, y)); lia. }
  rewrite diffused_level by exact Hlt. rewrite E1.
  destruct (maxNeighborRisk_bounds pf1 x y) as [Hle Hat].
  change (Pathfinder.getNeighbors pf1 x y) with (Pathfinder.getNeighbors pf x y) in Hle, Hat.
  set (m := Pathfinder.maxNeighborRisk pf1 x y) in *.
  assert (Hval : forall nb, In nb (Pathfinder.getNeighbors pf x y) ->
            Grid.get 0 (Pathfinder.grid pf1) (fst nb) (snd nb)
            = if wall nb then 100 else if near nb then 60 else 10).
  { intros nb Hnb. destruct (neighbors_in_grid _ _ _ Hnb) as [H1 H2].
    rewrite (first_pass_value H1 H2). now destruct nb. }
  destruct (near (x, y)) eqn:En.
  - assert (Hm : m = 100).
    { unfold near, nearObstacle in En. apply existsb_exists in En.
      destruct En as (nb & Hnb & Hw). cbn [fst snd] in Hnb.
      pose proof (Hle nb Hnb) as H1. rewrite (Hval nb Hnb) in H1.
      unfold wall in H1. rewrite Hw in H1.
      destruct Hat as [H0|(nb' & Hnb' & H0)]; [lia|].
      rewrite (Hval nb' Hnb') in H0. destruct (wall nb'), (near nb'); lia. }
    rewrite Hm. reflexivity.
  - assert (Hnowall : forall nb, In nb (Pathfinder.getNeighbors pf x y) -> wall nb = false).
    { intros nb Hnb. unfold near, nearObstacle in En. cbn [fst snd] in En.
      destruct (wall nb) eqn:Ew'; [|reflexivity].
      rewrite <- En. symmetry. apply existsb_exists. exists nb. now split. }
    destruct (existsb (nearObstacle polygons pf) (Pathfinder.getNeighbors pf x y)) eqn:Ef.
    + assert (Hm : m = 60).
      { apply existsb_exists in Ef. destruct Ef as (nb & Hnb & Hw).
        pose proof (Hle nb Hnb) as H1. rewrite (Hval nb Hnb) in H1.
        rewrite (Hnowall nb Hnb) in H1. unfold near in H1. rewrite Hw in H1.
        destruct Hat as [H0|(nb' & Hnb' & H0)]; [lia|].
        rewrite (Hval nb' Hnb'), (Hnowall nb' Hnb') in H0. destruct (near nb'); lia. }
      rewrite Hm. reflexivity.
    + assert (Hm : m = 0 \/ m = 10).
      { destruct Hat as [H0|(nb' & Hnb' & H0)]; [now left|]. right.
        rewrite (Hval nb' Hnb'), (Hnowall nb' Hnb') in H0.
        assert (Hw : near nb' = false).
        { destruct (near nb') eqn:En'; [|reflexivity].
          rewrite <- Ef. symmetry. apply existsb_exists. exists nb'. now split. }
        now rewrite Hw in H0. }
      destruct Hm as [-> | ->]; reflexivity.
Qed.
End Gradient.

(** [markObstacles] leaves a gradient around the obstacles, in exact
    arithmetic: 100 in the cells whose centre lies in a polygon, 60 in their
    neighbours, 36 in the neighbours of those, and the base risk 10
    elsewhere; so a cell is a wall exactly when its centre is in a
    polygon. *)
Theorem markObstacles_gradient (polygons : list (list (LatLng RNum)))
        (pf : Pathfinder.state RNum) (x y : Z) :
  0 <= x < Pathfinder.gridSize pf -> 0 <= y < Pathfinder.gridSize pf ->
  let risk := Grid.get 0 (Pathfinder.grid (Pathfinder.markObstacles polygons pf)) x y in
  risk = gradient polygons pf x y
  /\ (100 <= risk <-> inObstacle polygons pf x y = true)
  /\ (risk = 10 \/ risk = 36 \/ risk = 60 \/ risk = 100).
Proof.
  intros Hx Hy risk.
  assert (E : risk = gradient polygons pf x y) by (now apply second_pass_value).
  split; [exact E|]. rewrite E. unfold gradient.
  destruct (inObstacle polygons pf x y).
  - split; [split; [reflexivity|lia]|tauto].
  - destruct (nearObstacle polygons pf (x, y)).
    + split; [split; [lia|discriminate]|tauto].
    + destruct (existsb _ _); (split; [split; [lia|discriminate]|tauto]).
Qed.

Lemma inObstacle_incl (N : JSNum) (ps ps' : list (list (LatLng N)))
      (pf : Pathfinder.state N) (x y : Z) :
  incl ps ps' -> inObstacle ps pf x y = true -> inObstacle ps' pf x y = true.
Proof.
  intros Hincl. unfold inObstacle. rewrite !existsb_exists.
  intros (poly & Hin & Hp). exists poly. split; [now apply Hincl|exact Hp].
Qed.

Lemma nearObstacle_incl (N : JSNum) (ps ps' : list (list (LatLng N)))
      (pf : Pathfinder.state N) (c : Node) :
  incl ps ps' -> nearObstacle ps pf c = true -> nearObstacle ps' pf c = true.
Proof.
  intros Hincl. unfold nearObstacle. rewrite !existsb_exists.
  intros (nb & Hin & Hp). exists nb. split; [exact Hin|].
  now apply inObstacle_incl with (ps := ps).
Qed.

Lemma gradient_incl (N : JSNum) (ps ps' : list (list (LatLng N)))
      (pf : Pathfinder.state N) (x y : Z) :
  incl ps ps' -> gradient ps pf x y <= gradient ps' pf x y.
Proof.
  intros Hincl. unfold gradient.
  pose proof (@inObstacle_incl _ ps ps' pf x y Hincl) as H1.
  pose proof (@nearObstacle_incl _ ps ps' pf (x, y) Hincl) as H2.
  assert (H3 : existsb (nearObstacle ps pf) (Pathfinder.getNeighbors pf x y) = true ->
               existsb (nearObstacle ps' pf) (Pathfinder.getNeighbors pf x y) = true).
  { rewrite !existsb_exists. intros (nb & Hin & Hp). exists nb.
    split; [exact Hin|]. now apply nearObstacle_incl with (ps := ps). }
  destruct (inObstacle ps pf x y), (inObstacle ps' pf x y);
    try (specialize (H1 eq_refl); discriminate); try lia;
    destruct (nearObstacle ps pf (x, y)), (nearObstacle ps' pf (x, y));
    try (specialize (H2 eq_refl); discriminate); try lia;
    destruct (existsb (nearObstacle ps pf) _), (existsb (nearObstacle ps' pf) _);
    try (specialize (H3 eq_refl); discriminate); lia.
Qed.

(** More no-fly zones never lower the risk of a cell, and the risk does not
    depend on the order of the zones or on a zone given twice (exact
    arithmetic). *)
Theorem markObstacles_monotone (ps ps' : list (list (LatLng RNum)))
        (pf : Pathfinder.state RNum) (x y : Z) :
  0 <= x < Pathfinder.gridSize pf -> 0 <= y < Pathfinder.gridSize pf ->
  let risk polygons :=
    Grid.get 0 (Pathfinder.grid (Pathfinder.markObstacles polygons pf)) x y in
  (incl ps ps' -> risk ps <= risk ps')
  /\ ((forall poly, In poly ps <-> In poly ps') -> risk ps = risk ps').
Proof.
  intros Hx Hy risk. unfold risk.
  rewrite !second_pass_value by assumption. split.
  - apply gradient_incl.
  - intros Hsame.
    assert (H1 : incl ps ps') by (intros poly; apply Hsame).
    assert (H2 : incl ps' ps) by (intros poly; apply Hsame).
    pose proof (@gradient_incl _ ps ps' pf x y H1).
    pose proof (@gradient_incl _ ps' ps pf x y H2). lia.
Qed.

(** ** The estimate of the remaining distance *)

Lemma norm_triangle (u1 u2 v1 v2 : R) :
  (sqrt ((u1 + v1) * (u1 + v1) + (u2 + v2) * (u2 + v2))
   <= sqrt (u1 * u1 + u2 * u2) + sqrt (v1 * v1 + v2 * v2))%R.
Proof.
  set (U := (u1 * u1 + u2 * u2)%R). set (V := (v1 * v1 + v2 * v2)%R).
  assert (HU : (0 <= U)%R) by (unfold U; nra).
  assert (HV : (0 <= V)%R) by (unfold V; nra).
  pose proof (sqrt_pos U) as HA. pose proof (sqrt_pos V) as HB.
  pose proof (sqrt_sqrt U HU) as EA. pose proof (sqrt_sqrt V HV) as EB.
  set (A := sqrt U) in *. set (B := sqrt V) in *.
  assert (Hdot : (u1 * v1 + u2 * v2 <= A * B)%R).
  { destruct (Rle_dec (u1 * v1 + u2 * v2) 0) as [Hneg|Hpos]; [nra|].
    apply Rnot_le_lt in Hpos.
    assert (Hsq : ((u1 * v1 + u2 * v2) * (u1 * v1 + u2 * v2) <= (A * B) * (A * B))%R).
    { replace ((A * B) * (A * B))%R with (U * V)%R by nra.
      unfold U, V. pose proof (Rle_0_sqr (u1 * v2 - u2 * v1)) as H. unfold Rsqr in H. nra. }
    assert (HAB : (0 <= A * B)%R) by nra. nra. }
  replace (A + B)%R with (sqrt ((A + B) * (A + B))) by (apply sqrt_square; lra).
  apply sqrt_le_1_alt. unfold U, V in *. nra.
Qed.

(** [heuristic] and [distCost] are the same Euclidean distance. *)
Lemma distCost_heuristic (a b : Node) :
  Pathfinder.distCost (N := RNum) a b = Pathfinder.heuristic (N := RNum) b a.
Proof. reflexivity. Qed.

Lemma heuristic_zero (a b : Node) :
  Pathfinder.heuristic (N := RNum) a b = 0%R <-> a = b.
Proof.
  destruct a as [ax ay], b as [bx by_]. unfold Pathfinder.heuristic, pow2; cbn.
  rewrite <- !minus_IZR, <- !mult_IZR, <- plus_IZR. split.
  - intros H.
    pose proof (Z.square_nonneg (ax - bx)) as Hx.
    pose proof (Z.square_nonneg (ay - by_)) as Hy.
    apply sqrt_eq_0 in H; [|apply IZR_le; lia].
    apply eq_IZR in H.
    assert (Ex : (ax - bx) * (ax - bx) = 0) by lia.
    assert (Ey : (ay - by_) * (ay - by_) = 0) by lia.
    apply Z.mul_eq_0 in Ex, Ey. f_equal; lia.
  - intros [= -> ->]. rewrite !Z.sub_diag. cbn. apply sqrt_0.
Qed.

(** The estimate is the straight-line distance in cells: 0 at the goal
    only, the same in both directions, never more than the distance by way
    of a third cell; and the cost [findPath] adds for a step is at least the
    length of the step, so the estimate never exceeds the cost of the step
    plus the estimate from the neighbour. *)
Theorem heuristic_is_consistent (pf : Pathfinder.state RNum) (userRiskTolerance : R)
        (s : Pathfinder.Search RNum) (current neighbor endNode : Node) :
  0 <= Grid.get 0 (Pathfinder.grid pf) (fst neighbor) (snd neighbor) ->
  let h := Pathfinder.heuristic (N := RNum) in
  let riskWeight := Pathfinder.riskWeightOf userRiskTolerance in
  let stepCost :=
    (Pathfinder.tentativeG pf riskWeight s current neighbor
     - Pathfinder.scoreGet current (Pathfinder.gScore s))%R in
  (0 <= h current endNode)%R
  /\ (h current endNode = 0%R <-> current = endNode)
  /\ h current endNode = h endNode current
  /\ (h current endNode <= h current neighbor + h neighbor endNode)%R
  /\ (h current neighbor <= stepCost)%R
  /\ (h current endNode <= stepCost + h neighbor endNode)%R.
Proof.
  intros Hrisk h riskWeight stepCost.
  assert (Htri : (h current endNode <= h current neighbor + h neighbor endNode)%R).
  { unfold h, Pathfinder.heuristic, pow2; cbn.
    replace (IZR (fst current) - IZR (fst endNode))%R
      with ((IZR (fst current) - IZR (fst neighbor))
            + (IZR (fst neighbor) - IZR (fst endNode)))%R by lra.
    replace (IZR (snd current) - IZR (snd endNode))%R
      with ((IZR (snd current) - IZR (snd neighbor))
            + (IZR (snd neighbor) - IZR (snd endNode)))%R by lra.
    apply norm_triangle. }
  assert (Hsym : forall a b, h a b = h b a).
  { intros a b. unfold h, Pathfinder.heuristic, pow2; cbn. f_equal. lra. }
  assert (Hstep : (h current neighbor <= stepCost)%R).
  { unfold stepCost, Pathfinder.tentativeG. rewrite distCost_heuristic.
    fold h. rewrite (Hsym neighbor current).
    assert (Hw : (0 <= riskWeight)%R).
    { unfold riskWeight, Pathfinder.riskWeightOf. rewrite nmax_R. apply Rmax_l. }
    assert (Hc : Rle 0 (Pathfinder.riskCost (N := RNum)
                          (Grid.get 0 (Pathfinder.grid pf) (fst neighbor) (snd neighbor))
                          riskWeight)).
    { unfold Pathfinder.riskCost; cbn. apply IZR_le in Hrisk.
      apply Rmult_le_pos; [apply Rmult_le_pos; assumption|lra]. }
    cbn in Hc |- *. lra. }
  split; [apply sqrt_pos|]. split; [apply heuristic_zero|].
  split; [apply Hsym|]. split; [exact Htri|]. split; [exact Hstep|]. lra.
Qed.

(** ** Points and polygons *)

Section Polygons.
Let P := LatLng RNum.

Lemma crosses_level (p vi vj : P) :
  lng vi = lng vj -> Pathfinder.crosses p vi vj = false.
Proof.
  intros E. unfold Pathfinder.crosses. cbn. rewrite E.
  now rewrite eqb_reflx.
Qed.

Lemma crosses_upright (p vi vj : P) :
  lat vi = lat vj -> (lng vj < lng vi)%R ->
  Pathfinder.crosses p vi vj = true
  <-> (lng vj <= lng p < lng vi)%R /\ (lat p < lat vi)%R.
Proof.
  destruct p as [px py], vi as [xi yi], vj as [xj yj]. cbn [lat lng].
  change (num RNum) with R in *.
  intros Elat Hlng. unfold Pathfinder.crosses. cbn. rewrite Elat.
  replace ((xj - xj) * (py - yi) / (yj - yi) + xj)%R with xj by (field; lra).
  rewrite andb_true_iff, negb_true_iff, eqb_false_iff.
  destruct (Rltb py yi) eqn:E1, (Rltb py yj) eqn:E2;
    rewrite ?Rltb_true, ?Rltb_false in *; split; intros H;
    try (destruct H as [H1 H2]; try congruence);
    try lra; try (split; [congruence|lra]); try (split; [split; lra|lra]).
Qed.

Lemma crosses_upright_down (p vi vj : P) :
  lat vi = lat vj -> (lng vi < lng vj)%R ->
  Pathfinder.crosses p vi vj = true
  <-> (lng vi <= lng p < lng vj)%R /\ (lat p < lat vi)%R.
Proof.
  destruct p as [px py], vi as [xi yi], vj as [xj yj]. cbn [lat lng].
  change (num RNum) with R in *.
  intros Elat Hlng. unfold Pathfinder.crosses. cbn. rewrite Elat.
  replace ((xj - xj) * (py - yi) / (yj - yi) + xj)%R with xj by (field; lra).
  rewrite andb_true_iff, negb_true_iff, eqb_false_iff.
  destruct (Rltb py yi) eqn:E1, (Rltb py yj) eqn:E2;
    rewrite ?Rltb_true, ?Rltb_false in *; split; intros H;
    try (destruct H as [H1 H2]; try congruence);
    try lra; try (split; [congruence|lra]); try (split; [split; lra|lra]).
Qed.

(** Both directions of one edge are crossed by the same points. *)
Lemma crosses_sym (p v w : P) :
  Pathfinder.crosses p v w = Pathfinder.crosses p w v.
Proof.
  destruct p as [px py], v as [xv yv], w as [xw yw].
  change (num RNum) with R in *.
  unfold Pathfinder.crosses. cbn.
  destruct (Rltb py yv) eqn:E1, (Rltb py yw) eqn:E2;
    cbn [eqb negb andb]; try reflexivity;
    rewrite ?Rltb_true, ?Rltb_false in *;
    (replace ((xv - xw) * (py - yw) / (yv - yw) + xw)%R
       with ((xw - xv) * (py - yv) / (yw - yv) + xv)%R
       by (field; lra)); reflexivity.
Qed.
End Polygons.

(** [isPointInPolygon] on a rectangle with sides along the axes, in exact
    arithmetic: the points inside, with the lower edges and without the
    upper ones. *)
Theorem isPointInPolygon_rectangle (a b c d : R) (point : LatLng RNum) :
  (a < b)%R -> (c < d)%R ->
  Pathfinder.isPointInPolygon point (rectangle (N := RNum) a b c d) = true
  <-> (a <= lat point < b)%R /\ (c <= lng point < d)%R.
Proof.
  intros Hab Hcd. unfold rectangle, Pathfinder.isPointInPolygon.
  cbn [last Pathfinder.polygonLoop].
  destruct point as [px py]. cbn [lat lng].
  change (num RNum) with R in *.
  pose (point := {| lat := px; lng := py |} : LatLng RNum).
  change {| lat := px; lng := py |} with point.
  rewrite (@crosses_level point {| lat := a; lng := c |} {| lat := b; lng := c |})
    by reflexivity.
  rewrite (@crosses_level point {| lat := b; lng := d |} {| lat := a; lng := d |})
    by reflexivity.
  pose proof (@crosses_upright point {| lat := a; lng := d |} {| lat := a; lng := c |}
                eq_refl Hcd) as H1.
  pose proof (@crosses_upright_down point {| lat := b; lng := c |} {| lat := b; lng := d |}
                eq_refl Hcd) as H2.
  unfold point in H1, H2. cbn [lat lng] in H1, H2. fold point in H1, H2.
  destruct (Pathfinder.crosses point {| lat := a; lng := d |} {| lat := a; lng := c |}) eqn:E1,
           (Pathfinder.crosses point {| lat := b; lng := c |} {| lat := b; lng := d |}) eqn:E2;
    cbn [negb].
  - destruct (proj1 H1 eq_refl) as [Hl Ha]. split; [discriminate|]. intros [[Hpa _] _]. lra.
  - destruct (proj1 H1 eq_refl) as [Hl Ha].
    assert (X : false = true); [|discriminate X].
    apply H2. split; [exact Hl|lra].
  - destruct (proj1 H2 eq_refl) as [Hl Hb]. split; [intros _|reflexivity].
    split; [|exact Hl]. split; [|exact Hb].
    destruct (Rle_dec a px) as [Hle|Hgt]; [exact Hle|]. apply Rnot_le_lt in Hgt.
    assert (X : false = true); [|discriminate X].
    apply H1. split; [exact Hl|exact Hgt].
  - split; [discriminate|]. intros [[Hpa Hpb] Hl]. apply H2. split; [exact Hl|exact Hpb].
Qed.

(** A polygon of fewer than three corners encloses no point (exact
    arithmetic). *)
Theorem isPointInPolygon_needs_three_corners (point : LatLng RNum)
        (vs : list (LatLng RNum)) :
  (length vs < 3)%nat -> Pathfinder.isPointInPolygon point vs = false.
Proof.
  intros Hlen. destruct vs as [|v [|w [|u vs]]]; [reflexivity| | |cbn in Hlen; lia].
  - unfold Pathfinder.isPointInPolygon. cbn [last Pathfinder.polygonLoop].
    rewrite crosses_level; reflexivity.
  - unfold Pathfinder.isPointInPolygon. cbn [last Pathfinder.polygonLoop].
    rewrite (crosses_sym point w v).
    destruct (Pathfinder.crosses point v w); reflexivity.
Qed.

(** * Further properties of the weather *)

Lemma Int_part_range (r : R) (k : Z) :
  (0 <= r < IZR k)%R -> 0 <= Int_part r < k.
Proof.
  intros [H0 Hk]. destruct (base_Int_part r) as [Hle Hgt]. split.
  - assert (H : (IZR (-1) < IZR (Int_part r))%R) by (cbn; lra).
    apply lt_IZR in H. lia.
  - apply lt_IZR. lra.
Qed.

Lemma updateGrid_patterns (N : JSNum) (noise : Z -> Z -> num N)
      (ws : WeatherSystem.state N) :
  WeatherSystem.patterns (WeatherSystem.updateGrid noise ws) = WeatherSystem.patterns ws
  /\ WeatherSystem.gridSize (WeatherSystem.updateGrid noise ws) = WeatherSystem.gridSize ws
  /\ WeatherSystem.bounds (WeatherSystem.updateGrid noise ws) = WeatherSystem.bounds ws.
Proof. repeat split. Qed.

Lemma init_drawn (b : Bounds RNum) (rnd : nat -> R) (noise : Z -> Z -> R)
      (ws0 : WeatherSystem.state RNum) :
  1 <= WeatherSystem.gridSize ws0 ->
  (forall k, (0 <= rnd k < 1)%R) ->
  let ws := WeatherSystem.init b rnd noise ws0 in
  WeatherSystem.gridSize ws = WeatherSystem.gridSize ws0
  /\ WeatherSystem.bounds ws = Some b
  /\ (3 <= length (WeatherSystem.patterns ws) <= 5)%nat
  /\ forall p, In p (WeatherSystem.patterns ws) -> drawn (WeatherSystem.gridSize ws0) p.
Proof.
  intros Hn Hrnd ws. split; [reflexivity|]. split; [reflexivity|].
  unfold ws, WeatherSystem.init, WeatherSystem.generatePatterns.
  cbn [WeatherSystem.patterns WeatherSystem.updateGrid WeatherSystem.gridSize].
  split.
  - rewrite length_map, length_seq.
    change (nfloor RNum (nmul RNum (rnd 0%nat) (ofZ RNum 3)))
      with (Int_part (rnd 0%nat * 3)).
    assert (H : 0 <= Int_part (rnd 0%nat * 3) < 3).
    { apply Int_part_range. specialize (Hrnd 0%nat). lra. }
    lia.
  - intros p Hp. apply in_map_iff in Hp. destruct Hp as (i & <- & _).
    assert (Hpos : (1 <= IZR (WeatherSystem.gridSize ws0))%R) by (now apply IZR_le).
    unfold drawn. cbn.
    repeat match goal with
           | |- context [rnd ?k] => generalize (Hrnd k); generalize (rnd k); intros ? ?
           end.
    repeat split; nra.
Qed.

Lemma movePattern_drawn (n : Z) (dt : R) (p : WeatherSystem.Pattern RNum) :
  drawn n p -> (0 <= dt <= 20 * IZR n)%R ->
  drawn n (WeatherSystem.movePattern (N := RNum) n dt p).
Proof.
  intros (Hx & Hy & Hr & Hi & Hdx & Hdy) Hdt.
  assert (Bx : (- IZR n <= WeatherSystem.driftX p * dt <= IZR n)%R) by nra.
  assert (By : (- IZR n <= WeatherSystem.driftY p * dt <= IZR n)%R) by nra.
  destruct (@movePattern_wraps n dt p Hx Hy Bx By) as (Hx' & Hy' & _).
  unfold drawn. split; [exact Hx'|]. split; [exact Hy'|].
  unfold WeatherSystem.movePattern.
  repeat match goal with
         | |- context [if ?c then _ else _] => destruct c
         end; cbn; repeat split; lra.
Qed.

Lemma running_drawn (ws : WeatherSystem.state RNum) :
  running ws ->
  1 <= WeatherSystem.gridSize ws
  /\ (exists b, WeatherSystem.bounds ws = Some b)
  /\ (3 <= length (WeatherSystem.patterns ws) <= 5)%nat
  /\ forall p, In p (WeatherSystem.patterns ws) -> drawn (WeatherSystem.gridSize ws) p.
Proof.
  induction 1 as [b rnd noise ws Hn Hrnd|dt noise ws _ (Hn & Hb & Hlen & Hd) Hdt].
  - destruct (@init_drawn b rnd noise ws Hn Hrnd) as (Eg & Eb & Hlen & Hd).
    rewrite Eg. split; [exact Hn|]. split; [eauto|]. split; assumption.
  - unfold WeatherSystem.update.
    cbn [WeatherSystem.patterns WeatherSystem.updateGrid WeatherSystem.gridSize
         WeatherSystem.bounds].
    split; [exact Hn|]. split; [exact Hb|]. split; [now rewrite length_map|].
    intros p Hp. apply in_map_iff in Hp. destruct Hp as (q & <- & Hq).
    apply movePattern_drawn; [now apply Hd|exact Hdt].
Qed.

(** [init] leaves three to five systems, each drawn from the ranges of
    [generatePatterns], when [Math.random()] returns values in [[0, 1)]
    (exact arithmetic). *)
Theorem init_draws_three_to_five_systems (b : Bounds RNum) (rnd : nat -> R)
        (noise : Z -> Z -> R) (ws0 : WeatherSystem.state RNum) :
  1 <= WeatherSystem.gridSize ws0 ->
  (forall k, (0 <= rnd k < 1)%R) ->
  let ws := WeatherSystem.init b rnd noise ws0 in
  (3 <= length (WeatherSystem.patterns ws) <= 5)%nat
  /\ forall p, In p (WeatherSystem.patterns ws) ->
       drawn (WeatherSystem.gridSize ws) p.
Proof.
  intros Hn Hrnd ws.
  destruct (@init_drawn b rnd noise ws0 Hn Hrnd) as (Eg & _ & Hlen & Hd).
  fold ws in Eg, Hlen, Hd. rewrite Eg. split; assumption.
Qed.

(** While the program runs, every system stays in the grid: [update] with a
    tick of at most [20 * gridSize] keeps the number of systems, their
    radius, intensity and drift, and leaves each position in
    [[0, gridSize)]. *)
Theorem systems_stay_in_grid (ws : WeatherSystem.state RNum) (dt : R)
        (noise : Z -> Z -> R) :
  running ws -> (0 <= dt <= 20 * IZR (WeatherSystem.gridSize ws))%R ->
  let ws' := WeatherSystem.update dt noise ws in
  length (WeatherSystem.patterns ws') = length (WeatherSystem.patterns ws)
  /\ WeatherSystem.timeOffset ws' = (WeatherSystem.timeOffset ws + dt)%R
  /\ (forall p', In p' (WeatherSystem.patterns ws') ->
        drawn (WeatherSystem.gridSize ws) p')
  /\ Forall2 (fun p p' =>
                WeatherSystem.radius p' = WeatherSystem.radius p
                /\ WeatherSystem.type p' = WeatherSystem.type p
                /\ WeatherSystem.intensity p' = WeatherSystem.intensity p
                /\ WeatherSystem.driftX p' = WeatherSystem.driftX p
                /\ WeatherSystem.driftY p' = WeatherSystem.driftY p)
             (WeatherSystem.patterns ws) (WeatherSystem.patterns ws').
Proof.
  intros Hrun Hdt ws'.
  pose proof (@running_update dt noise ws Hrun Hdt) as Hrun'. fold ws' in Hrun'.
  destruct (running_drawn Hrun') as (_ & _ & _ & Hd').
  split; [unfold ws'; cbn; now rewrite length_map|].
  split; [reflexivity|]. split; [exact Hd'|].
  unfold ws', WeatherSystem.update.
  cbn [WeatherSystem.patterns WeatherSystem.updateGrid].
  induction (WeatherSystem.patterns ws) as [|p l IH]; cbn [map]; constructor.
  - unfold WeatherSystem.movePattern.
    repeat match goal with
           | |- context [if ?c then _ else _] => destruct c
           end; cbn; repeat split.
  - exact IH.
Qed.

(** ** Clear sky *)

Lemma influence_out_of_reach (cx cy : Z) (l : list (WeatherSystem.Pattern RNum))
      (acc : R * R * R) :
  (forall p, In p l -> (WeatherSystem.radius p <= distanceTo cx cy p)%R) ->
  fold_left (WeatherSystem.influence (N := RNum) cx cy) l acc = acc.
Proof.
  induction l as [|p l IH]; intros Hfar; [reflexivity|].
  cbn [fold_left].
  replace (WeatherSystem.influence cx cy acc p) with acc;
    [apply IH; intros q Hq; apply Hfar; now right|].
  destruct acc as [[wind rain] visibility]. unfold WeatherSystem.influence.
  change (nltb RNum
            (nsqrt RNum (nadd RNum (pow2 (nsub RNum (ofZ RNum cx) (WeatherSystem.x p)))
                                   (pow2 (nsub RNum (ofZ RNum cy) (WeatherSystem.y p)))))
            (WeatherSystem.radius p))
    with (Rltb (distanceTo cx cy p) (WeatherSystem.radius p)).
  rewrite (proj2 (Rltb_false _ _)); [reflexivity|]. apply Hfar. now left.
Qed.

(** A cell that no system reaches has no rain, full visibility, the wind of
    the noise alone (below 5) and risk 0 (exact arithmetic). *)
Theorem clear_sky_cell (ws : WeatherSystem.state RNum) (noise : R) (cx cy : Z) :
  (0 <= noise < 1)%R ->
  (forall p, In p (WeatherSystem.patterns ws) ->
             (WeatherSystem.radius p <= distanceTo cx cy p)%R) ->
  let c := WeatherSystem.cellWeather ws noise cx cy in
  WeatherSystem.wind c = (noise * 5)%R
  /\ WeatherSystem.rain c = 0%R
  /\ WeatherSystem.visibility c = 100%R
  /\ WeatherSystem.risk c = 0%R.
Proof.
  intros Hnoise Hfar c. unfold c, WeatherSystem.cellWeather.
  rewrite (@influence_out_of_reach cx cy _ _ Hfar).
  cbn [WeatherSystem.wind WeatherSystem.rain WeatherSystem.visibility WeatherSystem.risk].
  rewrite !nmin_R, !nmax_R. cbn [ofZ RNum nadd nsub nmul ndiv]. rewrite !dec_R.
  assert (Ew : Rmin 100 (Rmax 0 (0 + noise * 5)) = (noise * 5)%R).
  { unfold Rmin, Rmax. repeat destruct (Rle_dec _ _); lra. }
  assert (Er : Rmin 50 (Rmax 0 0) = 0%R).
  { unfold Rmin, Rmax. repeat destruct (Rle_dec _ _); lra. }
  assert (Ev : Rmin 100 (Rmax 0 100) = 100%R).
  { unfold Rmin, Rmax. repeat destruct (Rle_dec _ _); lra. }
  rewrite Ew, Er, Ev. repeat split; try reflexivity.
  unfold Rmin, Rmax. repeat destruct (Rle_dec _ _); lra.
Qed.

(** ** The risk sampled at a point *)

Lemma initialised_bounds (N : JSNum) (ws : WeatherSystem.state N) :
  initialised ws -> exists b, WeatherSystem.bounds ws = Some b.
Proof.
  induction 1 as [b rnd noise ws|dt noise ws _ [b Hb]]; [now exists b|].
  exists b. exact Hb.
Qed.

Lemma weather_risk_range (ws : WeatherSystem.state RNum) (latlng : LatLng RNum) :
  initialised ws -> 1 <= WeatherSystem.gridSize ws ->
  (0 <= WeatherSystem.getRisk ws latlng <= 100)%R
  /\ exists c, WeatherSystem.getWeatherAt ws latlng = Some c.
Proof.
  intros Hinit Hn. destruct (initialised_bounds Hinit) as [b Hb].
  destruct (initialised_recomputed Hinit) as [_ Hcell].
  unfold WeatherSystem.getRisk, WeatherSystem.getWeatherAt. rewrite Hb.
  pose proof (latLngToGrid_valid b latlng Hn) as Hv.
  unfold WeatherSystem.isValid, WeatherSystem.latLngToGrid. rewrite Hv.
  apply isValid_iff in Hv. destruct Hv as [Hx Hy].
  destruct (Hcell _ _ Hx Hy) as [noise ->].
  split; [|eauto]. apply (cellWeather_clamped ws noise).
Qed.

(** The risk [Pathfinder.getRisk] reports at a point, once the weather is
    initialised and the terrain risk of the cell lies in [[0, 100]], is the
    larger of the terrain risk of the cell and the weather risk there; it is
    at most 100 (exact arithmetic, a region with [minLat < maxLat] and
    [minLng < maxLng]). *)
Theorem getRisk_is_the_larger_risk (pf : Pathfinder.state RNum)
        (ws : WeatherSystem.state RNum) (latlng : LatLng RNum) :
  Pathfinder.weatherSystem pf = Some ws -> initialised ws ->
  1 <= Pathfinder.gridSize pf -> 1 <= WeatherSystem.gridSize ws ->
  (minLat (Pathfinder.bounds pf) < maxLat (Pathfinder.bounds pf))%R ->
  (minLng (Pathfinder.bounds pf) < maxLng (Pathfinder.bounds pf))%R ->
  (forall b, WeatherSystem.bounds ws = Some b ->
             (minLat b < maxLat b)%R /\ (minLng b < maxLng b)%R) ->
  let node := Pathfinder.latLngToGrid pf latlng in
  let terrain := Grid.get 0 (Pathfinder.grid pf) (fst node) (snd node) in
  0 <= terrain <= 100 ->
  let weather := WeatherSystem.getRisk ws latlng in
  (0 <= weather <= 100)%R
  /\ Pathfinder.getRisk pf latlng = Rmax (IZR terrain) weather
  /\ (IZR terrain <= Pathfinder.getRisk pf latlng <= 100)%R
  /\ (weather <= Pathfinder.getRisk pf latlng)%R.
Proof.
  intros Hws Hinit Hn Hwn _ _ _ node terrain Hterrain weather.
  destruct (weather_risk_range latlng Hinit Hwn) as [Hw _]. fold weather in Hw.
  assert (Ht : (0 <= IZR terrain <= 100)%R) by (split; apply IZR_le; lia).
  assert (E : Pathfinder.getRisk pf latlng = Rmax (IZR terrain) weather).
  { unfold Pathfinder.getRisk. rewrite Hws.
    unfold Pathfinder.isValid, Pathfinder.latLngToGrid.
    rewrite (latLngToGrid_valid _ _ Hn). cbv zeta.
    rewrite nmin_R, nmax_R.
    change (ofZ RNum 100) with 100%R.
    change (ofZ RNum (Grid.get 0 (Pathfinder.grid pf)
              (fst (Geo.latLngToGrid (Pathfinder.gridSize pf) (Pathfinder.bounds pf) latlng))
              (snd (Geo.latLngToGrid (Pathfinder.gridSize pf) (Pathfinder.bounds pf) latlng))))
      with (IZR terrain).
    change (WeatherSystem.getRisk ws latlng) with weather.
    apply Rmin_right. apply Rmax_lub; lra. }
  split; [exact Hw|]. split; [exact E|]. rewrite E.
  pose proof (Rmax_l (IZR terrain) weather). pose proof (Rmax_r (IZR terrain) weather).
  assert (Rmax (IZR terrain) weather <= 100)%R by (apply Rmax_lub; lra).
  repeat split; lra.
Qed.

(** * Further properties of the mission driver *)

(** [pauseMission] and then [resumeMission] give back the mission as it
    was, for a mission that is active and not paused; on a mission that is
    not active neither does anything. *)
Theorem resume_after_pause (N : JSNum) (w : Mission.World N) :
  (Mission.active (Mission.mission w) = true ->
   Mission.paused (Mission.mission w) = false ->
   Mission.paused (Mission.mission (Mission.pauseMission w)) = true
   /\ Mission.status (Mission.pauseMission w) = Mission.PAUSED
   /\ Mission.resumeMission (Mission.pauseMission w)
      = Mission.withMission w (Mission.mission w) Mission.MISSION_ACTIVE)
  /\ (Mission.active (Mission.mission w) = false ->
      Mission.pauseMission w = w /\ Mission.resumeMission w = w).
Proof.
  destruct w as [pf e cp m st]. destruct m as [a p path i pr bat tr].
  unfold Mission.pauseMission, Mission.resumeMission, Mission.withMission. cbn.
  split.
  - intros -> ->. cbn. repeat split.
  - intros ->. cbn. split; reflexivity.
Qed.

(** What a tick of [simulationLoop] leaves alone: the planner, the goal and
    the route; it never raises the battery and lowers it by 0.5 at most; it
    advances the index by one at most; and it asks for a re-route only for
    an active mission that is not paused, at a position where [getRisk] is
    above 60, and then the mission is paused. *)
Theorem simulationLoop_frame (N : JSNum) (w : Mission.World N) :
  let m := Mission.mission w in
  let w' := fst (Mission.simulationLoop w) in
  let m' := Mission.mission w' in
  Mission.pathfinder w' = Mission.pathfinder w
  /\ Mission.endPoint w' = Mission.endPoint w
  /\ Mission.calculatedPath w' = Mission.calculatedPath w
  /\ Mission.path m' = Mission.path m
  /\ (Mission.currentIndex m' = Mission.currentIndex m
      \/ Mission.currentIndex m' = Mission.currentIndex m + 1)
  /\ (Mission.battery m' = Mission.battery m
      \/ Mission.battery m' = nsub N (Mission.battery m) (dec 5 10))
  /\ (Mission.trailPoints m' = Mission.trailPoints m
      \/ exists pos, Mission.trailPoints m' = Mission.trailPoints m ++ [pos])
  /\ (Mission.active m = false -> Mission.active m' = false)
  /\ forall currentPos, snd (Mission.simulationLoop w) = Some currentPos ->
       Mission.active m = true /\ Mission.paused m = false
       /\ nltb N (ofZ N 60) (Pathfinder.getRisk (Mission.pathfinder w) currentPos) = true
       /\ Mission.active m' = true /\ Mission.paused m' = true
       /\ Mission.status w' = Mission.PAUSED
       /\ Mission.trailPoints m' = Mission.trailPoints m ++ [currentPos].
Proof.
  intros m w' m'. unfold m', w', Mission.simulationLoop. fold m.
  destruct (nleb N (Mission.battery m) (ofZ N 0)).
  { cbn. repeat split; auto; intros; discriminate. }
  destruct (nleb N (ofZ N 1) (nadd N (Mission.progress m) (dec 2 10)));
    cbv beta iota;
    (destruct (_ >=? _)%Z;
     [cbn; repeat split; auto; intros; discriminate|]);
    (destruct (nltb N (ofZ N 60) _) eqn:Erisk;
     [destruct (_ && _) eqn:Eact|]).
  all: try (cbn in Eact; apply andb_true_iff in Eact; destruct Eact as [Ea Ep];
            apply negb_true_iff in Ep; unfold Mission.pauseMission; cbn;
            rewrite Ea; cbn; repeat split; auto;
            try (right; eexists; reflexivity);
            match goal with
            | H : Some _ = Some _ |- _ =>
                injection H as <-; first [exact Erisk | reflexivity]
            end).
  all: repeat match goal with
       | |- context [if ?c then _ else _] => destruct c
       end; cbn; repeat split; auto; try (intros; discriminate);
       try (right; eexists; reflexivity).
Qed.


(** [startMission] needs a route of two points: without a route, or with a
    shorter one (such as the route between two points of one cell), it
    changes nothing; otherwise the mission starts at the first point, with
    a full battery. *)
Theorem startMission_needs_two_points (N : JSNum) (w : Mission.World N) :
  (Mission.calculatedPath w = None -> Mission.startMission w = w)
  /\ (forall p, Mission.calculatedPath w = Some p -> (length p < 2)%nat ->
        Mission.startMission w = w)
  /\ (forall startLatLng endLatLng userRiskTolerance,
        let pf := Mission.pathfinder w in
        1 <= Pathfinder.gridSize pf ->
        Pathfinder.latLngToGrid pf endLatLng = Pathfinder.latLngToGrid pf startLatLng ->
        Mission.calculatedPath w
        = Some (Pathfinder.findPath pf startLatLng endLatLng userRiskTolerance) ->
        Mission.startMission w = w)
  /\ (forall p, Mission.calculatedPath w = Some p -> (2 <= length p)%nat ->
        Mission.startMission w
        = Mission.withMission w
            {| Mission.active := true; Mission.paused := false;
               Mission.path := p; Mission.currentIndex := 0;
               Mission.progress := ofZ N 0; Mission.battery := ofZ N 100;
               Mission.trailPoints := [hd Mission.noPoint p] |}
            Mission.MISSION_ACTIVE).
Proof.
  assert (Hshort : forall p, Mission.calculatedPath w = Some p -> (length p < 2)%nat ->
                             Mission.startMission w = w).
  { intros p E Hlen. unfold Mission.startMission. rewrite E.
    now rewrite (proj2 (Z.ltb_lt _ _)) by lia. }
  split; [|split; [exact Hshort|split]].
  - intros E. unfold Mission.startMission. now rewrite E.
  - intros s e tol pf Hn Esame E. apply (Hshort _ E).
    unfold Pathfinder.findPath. rewrite (@same_cell_fuel _ _ s e tol Hn Esame). cbn. lia.
  - intros p E Hlen. unfold Mission.startMission. rewrite E.
    rewrite (proj2 (Z.ltb_ge _ _)) by lia. destruct p; reflexivity.
Qed.

(** A re-route asked for at a position in the cell of the goal: [findPath]
    returns the centre of that cell alone, [startMission] ignores a route
    that short, so the mission resumes on it with its battery as it was,
    and the next tick finds the index at the end of the route and finishes
    the mission (exact arithmetic). *)
Theorem reroute_in_goal_cell (w : Mission.World RNum) (currentPos : LatLng RNum) :
  let pf := Mission.pathfinder w in
  1 <= Pathfinder.gridSize pf ->
  Pathfinder.latLngToGrid pf (Mission.endPoint w) = Pathfinder.latLngToGrid pf currentPos ->
  Mission.active (Mission.mission w) = true ->
  (0 < Mission.battery (Mission.mission w))%R ->
  let w' := Mission.reroute currentPos w in
  let goalCell := Pathfinder.gridToLatLng pf (Pathfinder.latLngToGrid pf currentPos) in
  Mission.path (Mission.mission w') = [goalCell]
  /\ Mission.battery (Mission.mission w') = Mission.battery (Mission.mission w)
  /\ Mission.active (Mission.mission w') = true
  /\ Mission.paused (Mission.mission w') = false
  /\ Mission.status w' = Mission.MISSION_ACTIVE
  /\ snd (Mission.simulationLoop w') = None
  /\ Mission.active (Mission.mission (fst (Mission.simulationLoop w'))) = false
  /\ Mission.status (fst (Mission.simulationLoop w')) = Mission.MISSION_COMPLETE.
Proof.
  intros pf Hn Esame Hact Hbat w' goalCell.
  assert (Ew : w' = Mission.withMission
                      {| Mission.pathfinder := pf; Mission.endPoint := Mission.endPoint w;
                         Mission.calculatedPath := Some [goalCell];
                         Mission.mission := Mission.mission w;
                         Mission.status := Mission.status w |}
                      {| Mission.active := true; Mission.paused := false;
                         Mission.path := [goalCell]; Mission.currentIndex := 0;
                         Mission.progress := 0%R;
                         Mission.battery := Mission.battery (Mission.mission w);
                         Mission.trailPoints := Mission.trailPoints (Mission.mission w) |}
                      Mission.MISSION_ACTIVE).
  { unfold w', Mission.reroute. fold pf.
    unfold Pathfinder.findPath.
    rewrite (@same_cell_fuel _ pf currentPos (Mission.endPoint w) (ofZ RNum 10) Hn Esame).
    fold goalCell. cbn [length Z.of_nat Z.gtb Z.compare Pos.of_succ_nat].
    unfold Mission.startMission, Mission.resumeMission, Mission.withMission. cbn.
    rewrite Hact. reflexivity. }
  rewrite Ew. cbn [Mission.withMission Mission.mission Mission.path Mission.battery
                   Mission.active Mission.paused Mission.status].
  repeat split.
  all: unfold Mission.simulationLoop; cbn [Mission.withMission Mission.mission Mission.battery
         Mission.progress Mission.currentIndex Mission.path length].
  all: change (nleb RNum (Mission.battery (Mission.mission w)) (ofZ RNum 0))
         with (Rleb (Mission.battery (Mission.mission w)) 0);
       rewrite (proj2 (Rleb_false _ _) Hbat).
  all: change (nleb RNum (ofZ RNum 1) (nadd RNum 0%R (dec 2 10)))
         with (Rleb 1 (0 + 2 / 10));
       rewrite (proj2 (Rleb_false 1 (0 + 2 / 10))) by lra.
  all: reflexivity.
Qed.

(** * The risk shown for a route *)

Lemma getRisk_le_100 (pf : Pathfinder.state RNum) (latlng : LatLng RNum) :
  (Pathfinder.getRisk pf latlng <= 100)%R.
Proof. unfold Pathfinder.getRisk. cbv zeta. rewrite nmin_R. apply Rmin_l. Qed.

Lemma totalPathRisk_le (pf : Pathfinder.state RNum) (path : list (LatLng RNum)) :
  (Dashboard.totalPathRisk pf path <= 100 * INR (length path))%R.
Proof.
  unfold Dashboard.totalPathRisk, Grid.forEach.
  assert (H : forall acc : R,
             (fold_left (fun s b => s + Pathfinder.getRisk pf b)%R path acc
              <= acc + 100 * INR (length path))%R).
  { induction path as [|pt path IH]; intros acc.
    - cbn. lra.
    - cbn [fold_left length]. specialize (IH (acc + Pathfinder.getRisk pf pt)%R).
      pose proof (getRisk_le_100 pf pt). rewrite S_INR. lra. }
  specialize (H 0%R). cbn in H |- *. lra.
Qed.

Lemma averageRisk_le_100 (pf : Pathfinder.state RNum) (path : list (LatLng RNum)) :
  (Dashboard.averageRisk pf path <= 100)%R.
Proof.
  unfold Dashboard.averageRisk.
  pose proof (totalPathRisk_le pf path) as Htot.
  destruct path as [|pt path]; [cbn; lra|].
  change (Z.of_nat (length (pt :: path)) >? 0) with true. cbv iota.
  change (ndiv RNum (Dashboard.totalPathRisk pf (pt :: path))
                    (ofZ RNum (Z.of_nat (length (pt :: path)))))
    with (Dashboard.totalPathRisk pf (pt :: path)
          / IZR (Z.of_nat (length (pt :: path))))%R.
  rewrite <- INR_IZR_INZ.
  assert (Hpos : (0 < INR (length (pt :: path)))%R) by (apply lt_0_INR; cbn; lia).
  apply (Rmult_le_reg_r (INR (length (pt :: path)))); [exact Hpos|].
  unfold Rdiv. rewrite Rmult_assoc, Rinv_l by lra. lra.
Qed.

(** The test [displayRisk > 100] is never true. *)
Lemma displayRisk_unclamped (pf : Pathfinder.state RNum) (path : list (LatLng RNum)) :
  Dashboard.displayRisk pf path
  = Rmax 0 ((Dashboard.averageRisk pf path - 10) * (100 / 90)).
Proof.
  pose proof (averageRisk_le_100 pf path) as Havg.
  unfold Dashboard.displayRisk. cbv zeta. rewrite nmax_R.
  change (nltb RNum (ofZ RNum 100)
            (Rmax (ofZ RNum 0)
               (nmul RNum (nsub RNum (Dashboard.averageRisk pf path) (ofZ RNum 10))
                          (ndiv RNum (ofZ RNum 100) (ofZ RNum 90)))))
    with (Rltb 100 (Rmax 0 ((Dashboard.averageRisk pf path - 10) * (100 / 90)))).
  rewrite (proj2 (Rltb_false _ _)); [reflexivity|].
  apply Rmax_lub; lra.
Qed.

Lemma displayRisk_bounds (pf : Pathfinder.state RNum) (path : list (LatLng RNum)) :
  (0 <= Dashboard.displayRisk pf path <= 100)%R.
Proof.
  pose proof (averageRisk_le_100 pf path) as Havg.
  rewrite displayRisk_unclamped. split; [apply Rmax_l|apply Rmax_lub; lra].
Qed.

(** The risk the dashboard shows for a route, in exact arithmetic: the
    average of [getRisk] over the points of the route, rescaled from
    [[10, 100]] to [[0, 100]]; it lies in [[0, 100]], is 0 for an average of
    10 or less, and the cap at 100 never applies, the average being at most
    100. *)
Theorem displayRisk_in_range (pf : Pathfinder.state RNum) (path : list (LatLng RNum)) :
  let average := Dashboard.averageRisk pf path in
  let shown := Dashboard.displayRisk pf path in
  (average <= 100)%R
  /\ shown = Rmax 0 ((average - 10) * (100 / 90))
  /\ (0 <= shown <= 100)%R
  /\ ((average <= 10)%R -> shown = 0%R)
  /\ (path = [] -> shown = 0%R).
Proof.
  intros average shown.
  pose proof (averageRisk_le_100 pf path) as Havg. fold average in Havg.
  assert (Hshown : shown = Rmax 0 ((average - 10) * (100 / 90)))
    by apply displayRisk_unclamped.
  split; [exact Havg|]. split; [exact Hshown|]. rewrite Hshown.
  split; [split; [apply Rmax_l|apply Rmax_lub; lra]|].
  split.
  - intros Hlow. apply Rmax_left. nra.
  - intros ->. unfold average, Dashboard.averageRisk. cbn. apply Rmax_left. lra.
Qed.

(** The estimates shown with an accepted route, in exact arithmetic: the
    battery usage is at most 100 (a longer route is refused), and the time
    saved is the flight time at 60 km/h, in minutes, times half the risk
    shown, so between nothing and half the flight time. *)
Theorem accepted_route_estimates (pf : Pathfinder.state RNum) (path : list (LatLng RNum))
        (totalDist batteryLimit : R) :
  (0 <= totalDist)%R -> (0 < batteryLimit)%R ->
  Dashboard.insufficientPower (N := RNum) totalDist batteryLimit = false ->
  let shown := Dashboard.displayRisk pf path in
  let saved := Dashboard.timeSavedMin (N := RNum) totalDist shown in
  (0 <= Dashboard.estBatteryUsage (N := RNum) totalDist batteryLimit <= 100)%R
  /\ saved = (totalDist * (shown / 200))%R
  /\ (0 <= saved <= totalDist / 2)%R.
Proof.
  intros Hdist Hlimit Hok shown saved.
  apply Rltb_false in Hok.
  destruct (displayRisk_bounds pf path) as [Hs0 Hs1]. fold shown in Hs0, Hs1.
  assert (Esaved : saved = (totalDist * (shown / 200))%R).
  { unfold saved, Dashboard.timeSavedMin. cbv zeta. rewrite dec_R. cbn. field. }
  split; [|split; [exact Esaved|rewrite Esaved; nra]].
  unfold Dashboard.estBatteryUsage. cbn.
  assert (Hq : (0 <= totalDist / batteryLimit <= 1)%R).
  { split.
    - apply Rmult_le_pos; [exact Hdist|]. left. now apply Rinv_0_lt_compat.
    - apply (Rmult_le_reg_r batteryLimit); [exact Hlimit|].
      unfold Rdiv. rewrite Rmult_assoc, Rinv_l by lra. lra. }
  lra.
Qed.

(** * The battery bounds the flight *)

Lemma tick_drains (w : Mission.World RNum) :
  (0 < Mission.battery (Mission.mission w))%R ->
  snd (Mission.simulationLoop w) = None ->
  let m' := Mission.mission (fst (Mission.simulationLoop w)) in
  Mission.active m' = false
  \/ Mission.battery m' = (Mission.battery (Mission.mission w) - 5 / 10)%R.
Proof.
  intros Hbat. unfold Mission.simulationLoop.
  change (nleb RNum (Mission.battery (Mission.mission w)) (ofZ RNum 0))
    with (Rleb (Mission.battery (Mission.mission w)) 0).
  rewrite (proj2 (Rleb_false _ _) Hbat).
  destruct (nleb RNum (ofZ RNum 1) _); cbv beta iota;
    (destruct (_ >=? _)%Z; [intros _; left; reflexivity|]);
    (destruct (nltb RNum (ofZ RNum 60) _);
     [destruct (_ && _); [cbn; discriminate|]|]).
  all: repeat match goal with
       | |- context [if ?c then _ else _] => destruct c
       end; cbn; intros _; right; reflexivity.
Qed.

(** No branch of [simulationLoop] sets [active]: a mission that is not
    active stays so, and the planner is the same after the call. *)
Lemma tick_keeps (N : JSNum) (w : Mission.World N) :
  Mission.pathfinder (fst (Mission.simulationLoop w)) = Mission.pathfinder w
  /\ (Mission.active (Mission.mission w) = false ->
      Mission.active (Mission.mission (fst (Mission.simulationLoop w))) = false).
Proof.
  unfold Mission.simulationLoop.
  destruct (nleb N (Mission.battery (Mission.mission w)) (ofZ N 0)).
  { cbn. split; reflexivity. }
  destruct (nleb N (ofZ N 1) _); cbv beta iota;
    (destruct (_ >=? _)%Z; [cbn; split; reflexivity|]);
    (destruct (nltb N (ofZ N 60) _);
     [destruct (_ && _) eqn:Eact|]).
  all: try (cbn in Eact; apply andb_true_iff in Eact; destruct Eact as [Ea _];
            unfold Mission.pauseMission; cbn; rewrite Ea; cbn;
            split; [reflexivity|intros; congruence]).
  all: repeat match goal with
       | |- context [if ?c then _ else _] => destruct c
       end; cbn; split; auto.
Qed.

(** Where [getRisk] never exceeds 60 no call schedules the re-route. *)
Lemma tick_calm (N : JSNum) (w : Mission.World N) :
  (forall p, nltb N (ofZ N 60) (Pathfinder.getRisk (Mission.pathfinder w) p) = false) ->
  snd (Mission.simulationLoop w) = None.
Proof.
  intros Hcalm. unfold Mission.simulationLoop.
  destruct (nleb N (Mission.battery (Mission.mission w)) (ofZ N 0)); [reflexivity|].
  destruct (nleb N (ofZ N 1) _); cbv beta iota;
    (destruct (_ >=? _)%Z; [reflexivity|]);
    rewrite Hcalm.
  all: repeat match goal with
       | |- context [if ?c then _ else _] => destruct c
       end; reflexivity.
Qed.

Lemma quietRun_calm (N : JSNum) (k : nat) :
  forall w : Mission.World N,
    (forall p, nltb N (ofZ N 60) (Pathfinder.getRisk (Mission.pathfinder w) p) = false) ->
    exists w', quietRun k w = Some w'.
Proof.
  induction k as [|k IH]; intros w Hcalm; [now exists w|].
  cbn [quietRun]. pose proof (tick_calm w Hcalm) as Hnone.
  pose proof (proj1 (tick_keeps w)) as Hpf.
  destruct (Mission.simulationLoop w) as [w1 r]. cbn [fst snd] in *. subst r.
  apply IH. now rewrite Hpf.
Qed.

Lemma quietRun_inactive (N : JSNum) (k : nat) :
  forall w w' : Mission.World N,
    Mission.active (Mission.mission w) = false ->
    quietRun k w = Some w' -> Mission.active (Mission.mission w') = false.
Proof.
  induction k as [|k IH]; intros w w' Hoff; cbn [quietRun]; [now intros [= <-]|].
  pose proof (proj2 (tick_keeps w) Hoff) as Hoff1.
  destruct (Mission.simulationLoop w) as [w1 r]. cbn [fst] in Hoff1.
  destruct r; [discriminate|]. now apply IH.
Qed.

Lemma quietRun_drained (n : nat) :
  forall w w' : Mission.World RNum,
    (Mission.battery (Mission.mission w) <= INR n * (5 / 10))%R ->
    quietRun (S n) w = Some w' -> Mission.active (Mission.mission w') = false.
Proof.
  induction n as [|n IH]; intros w w' Hbat;
    change (quietRun (S ?k) w)
      with (match Mission.simulationLoop w with
            | (w1, None) => quietRun k w1
            | (_, Some _) => None
            end).
  - unfold Mission.simulationLoop.
    change (nleb RNum (Mission.battery (Mission.mission w)) (ofZ RNum 0))
      with (Rleb (Mission.battery (Mission.mission w)) 0).
    rewrite (proj2 (Rleb_true _ _)) by (cbn in Hbat; lra).
    cbn [quietRun]. now intros [= <-].
  - destruct (Rle_dec (Mission.battery (Mission.mission w)) 0) as [Hemp|Hpos].
    + unfold Mission.simulationLoop.
      change (nleb RNum (Mission.battery (Mission.mission w)) (ofZ RNum 0))
        with (Rleb (Mission.battery (Mission.mission w)) 0).
      rewrite (proj2 (Rleb_true _ _) Hemp).
      apply quietRun_inactive. reflexivity.
    + apply Rnot_le_lt in Hpos.
      pose proof (tick_drains w Hpos) as Hd.
      destruct (Mission.simulationLoop w) as [w1 r] eqn:E.
      destruct r; [discriminate|]. cbn [fst snd] in Hd.
      destruct (Hd eq_refl) as [Hoff|Hless].
      * now apply quietRun_inactive.
      * apply IH. rewrite Hless. rewrite S_INR in Hbat. lra.
Qed.

(** A battery of at most 100 lasts 200 ticks: after 201 calls of
    [simulationLoop] one after the other, none of which schedules the
    re-route, the mission is not active; it finished or was aborted, each
    call that moves the drone draining 0.5 and a call with an empty battery
    aborting (exact arithmetic). *)
Theorem battery_bounds_the_flight (w w' : Mission.World RNum) :
  (Mission.battery (Mission.mission w) <= 100)%R ->
  quietRun 201 w = Some w' ->
  Mission.active (Mission.mission w') = false.
Proof.
  intros Hbat. apply quietRun_drained.
  replace (INR 200) with 200%R; [lra|].
  rewrite INR_IZR_INZ. reflexivity.
Qed.

(** * The further properties at concrete inputs *)

Lemma walled_center (x y : Z) :
  0 <= x < 3 -> 0 <= y < 3 ->
  Pathfinder.latLngToGrid Ideal.walled (Pathfinder.gridToLatLng Ideal.walled (x, y)) = (x, y).
Proof.
  intros Hx Hy. unfold Ideal.walled, Pathfinder.latLngToGrid.
  apply center_in_cell; cbn; first [lia | lra].
Qed.

Lemma field_center (w : option (WeatherSystem.state RNum)) (x y : Z) :
  0 <= x < 5 -> 0 <= y < 5 ->
  let pf := {| Pathfinder.gridSize := 5; Pathfinder.grid := Grid.make 5 10;
               Pathfinder.bounds := Ideal.region; Pathfinder.weatherSystem := w |} in
  Pathfinder.latLngToGrid pf (Pathfinder.gridToLatLng pf (x, y)) = (x, y).
Proof.
  intros Hx Hy pf. unfold pf, Pathfinder.latLngToGrid.
  apply center_in_cell; cbn; first [lia | lra].
Qed.

(** Across open terrain there is a way, and a route is found. *)
Lemma findPath_finds_a_way_witness :
  let a := Pathfinder.gridToLatLng Ideal.field (0, 0) in
  let b := Pathfinder.gridToLatLng Ideal.field (4, 4) in
  1 <= Pathfinder.gridSize Ideal.field
  /\ (Pathfinder.findPath Ideal.field a b 50%R <> []
      <-> exists way, wayBetween Ideal.field (Pathfinder.latLngToGrid Ideal.field a)
                                 (Pathfinder.latLngToGrid Ideal.field b) way).
Proof.
  intros a b.
  assert (H : 1 <= Pathfinder.gridSize Ideal.field) by (cbn; lia).
  split; [exact H|].
  exact (@findPath_finds_a_way RNum Ideal.field a b 50%R H).
Defined.

(** No route leads into the walled cell in the middle of the grid of 3 by 3. *)
Lemma findPath_goal_in_wall_witness :
  let a := Pathfinder.gridToLatLng Ideal.walled (0, 0) in
  let b := Pathfinder.gridToLatLng Ideal.walled (1, 1) in
  100 <= Grid.get 0 (Pathfinder.grid Ideal.walled)
           (fst (Pathfinder.latLngToGrid Ideal.walled b))
           (snd (Pathfinder.latLngToGrid Ideal.walled b))
  /\ Pathfinder.latLngToGrid Ideal.walled b <> Pathfinder.latLngToGrid Ideal.walled a
  /\ Pathfinder.findPath Ideal.walled a b 50%R = [].
Proof.
  intros a b.
  assert (Ea : Pathfinder.latLngToGrid Ideal.walled a = (0, 0))
    by (apply walled_center; lia).
  assert (Eb : Pathfinder.latLngToGrid Ideal.walled b = (1, 1))
    by (apply walled_center; lia).
  assert (H1 : 100 <= Grid.get 0 (Pathfinder.grid Ideal.walled)
                        (fst (Pathfinder.latLngToGrid Ideal.walled b))
                        (snd (Pathfinder.latLngToGrid Ideal.walled b))).
  { rewrite Eb. cbn [fst snd]. read_grid. lia. }
  assert (H2 : Pathfinder.latLngToGrid Ideal.walled b
               <> Pathfinder.latLngToGrid Ideal.walled a).
  { rewrite Ea, Eb. discriminate. }
  split; [exact H1|]. split; [exact H2|].
  exact (@findPath_goal_in_wall RNum Ideal.walled a b 50%R H1 H2).
Defined.

(** A route from a point to itself. *)
Lemma findPath_same_cell_witness :
  let a : LatLng RNum := {| lat := 2%R; lng := 3%R |} in
  1 <= Pathfinder.gridSize Ideal.field
  /\ Pathfinder.findPath Ideal.field a a 50%R
     = [Pathfinder.gridToLatLng Ideal.field (Pathfinder.latLngToGrid Ideal.field a)].
Proof.
  intros a.
  assert (H : 1 <= Pathfinder.gridSize Ideal.field) by (cbn; lia).
  split; [exact H|].
  exact (@findPath_same_cell RNum Ideal.field a a 50%R H eq_refl).
Defined.

(** The cell [(2, 3)] of the grid of 5 by 5 around one no-fly zone. *)
Lemma markObstacles_gradient_witness :
  0 <= 2 < Pathfinder.gridSize Ideal.field
  /\ 0 <= 3 < Pathfinder.gridSize Ideal.field
  /\ Grid.get 0 (Pathfinder.grid (Pathfinder.markObstacles [Cases.zone] Ideal.field)) 2 3
     = gradient [Cases.zone] Ideal.field 2 3.
Proof.
  assert (H1 : 0 <= 2 < Pathfinder.gridSize Ideal.field) by (cbn; lia).
  assert (H2 : 0 <= 3 < Pathfinder.gridSize Ideal.field) by (cbn; lia).
  split; [exact H1|]. split; [exact H2|].
  exact (proj1 (@markObstacles_gradient [Cases.zone] Ideal.field 2 3 H1 H2)).
Defined.

(** One zone more never lowers the risk of the cell [(1, 1)]. *)
Lemma markObstacles_monotone_witness :
  0 <= 1 < Pathfinder.gridSize Ideal.field
  /\ 0 <= 1 < Pathfinder.gridSize Ideal.field
  /\ Grid.get 0 (Pathfinder.grid (Pathfinder.markObstacles [] Ideal.field)) 1 1
     <= Grid.get 0 (Pathfinder.grid (Pathfinder.markObstacles [Cases.zone] Ideal.field)) 1 1.
Proof.
  assert (H1 : 0 <= 1 < Pathfinder.gridSize Ideal.field) by (cbn; lia).
  split; [exact H1|]. split; [exact H1|].
  apply (proj1 (@markObstacles_monotone [] [Cases.zone] Ideal.field 1 1 H1 H1)).
  intros poly [].
Defined.

(** The step from [(0, 0)] to [(1, 0)] over open terrain, towards [(4, 4)]. *)
Lemma heuristic_is_consistent_witness :
  let a : Node := (0, 0) in
  let b : Node := (1, 0) in
  let e : Node := (4, 4) in
  let s := Pathfinder.startSearch (N := RNum) a e in
  let stepCost :=
    Rminus (Pathfinder.tentativeG Ideal.field (Pathfinder.riskWeightOf 50%R) s a b)
           (Pathfinder.scoreGet a (Pathfinder.gScore s)) in
  0 <= Grid.get 0 (Pathfinder.grid Ideal.field) (fst b) (snd b)
  /\ Rle (Pathfinder.heuristic (N := RNum) a e)
         (Rplus stepCost (Pathfinder.heuristic (N := RNum) b e)).
Proof.
  intros a b e s stepCost.
  assert (H : 0 <= Grid.get 0 (Pathfinder.grid Ideal.field) (fst b) (snd b)).
  { unfold b. cbn [fst snd]. read_grid. lia. }
  split; [exact H|].
  exact (proj2 (proj2 (proj2 (proj2 (proj2
           (@heuristic_is_consistent Ideal.field 50%R s a b e H)))))).
Defined.

(** The unit square. *)
Lemma isPointInPolygon_rectangle_witness :
  let p : LatLng RNum := {| lat := (5 / 10)%R; lng := (5 / 10)%R |} in
  (0 < 1)%R /\ (0 < 1)%R
  /\ (Pathfinder.isPointInPolygon p Cases.zone = true
      <-> (0 <= lat p < 1)%R /\ (0 <= lng p < 1)%R).
Proof.
  intros p. assert (H : (0 < 1)%R) by lra.
  split; [exact H|]. split; [exact H|].
  exact (@isPointInPolygon_rectangle 0 1 0 1 p H H).
Defined.

(** A polygon of two corners. *)
Lemma isPointInPolygon_needs_three_corners_witness :
  let p : LatLng RNum := {| lat := (5 / 10)%R; lng := (5 / 10)%R |} in
  let vs : list (LatLng RNum) :=
    [{| lat := 0%R; lng := 0%R |}; {| lat := 1%R; lng := 1%R |}] in
  (length vs < 3)%nat /\ Pathfinder.isPointInPolygon p vs = false.
Proof.
  intros p vs. assert (H : (length vs < 3)%nat) by (cbn; lia).
  split; [exact H|].
  exact (@isPointInPolygon_needs_three_corners p vs H).
Defined.

(** [init] on a grid of 5 cells, every draw of [Math.random()] being 0.5. *)
Lemma init_draws_three_to_five_systems_witness :
  let rnd (_ : nat) := (5 / 10)%R in
  1 <= WeatherSystem.gridSize (WeatherSystem.create (N := RNum) 5)
  /\ (forall k, (0 <= rnd k < 1)%R)
  /\ (3 <= length (WeatherSystem.patterns Ideal.weather) <= 5)%nat.
Proof.
  intros rnd.
  assert (H1 : 1 <= WeatherSystem.gridSize (WeatherSystem.create (N := RNum) 5))
    by (cbn; lia).
  assert (H2 : forall k, (0 <= rnd k < 1)%R) by (intros k; unfold rnd; lra).
  split; [exact H1|]. split; [exact H2|].
  exact (proj1 (@init_draws_three_to_five_systems Ideal.region rnd
                  (fun _ _ => (5 / 10)%R) (WeatherSystem.create 5) H1 H2)).
Defined.

Lemma weather_runs : running Ideal.weather.
Proof.
  unfold Ideal.weather. apply running_init; [cbn; lia|intros k; lra].
Qed.

(** The program's tick of 0.1 on the weather that [init] left. *)
Lemma systems_stay_in_grid_witness :
  running Ideal.weather
  /\ (0 <= 1 / 10 <= 20 * IZR (WeatherSystem.gridSize Ideal.weather))%R
  /\ length (WeatherSystem.patterns (WeatherSystem.update (1 / 10)%R Ideal.calm Ideal.weather))
     = length (WeatherSystem.patterns Ideal.weather).
Proof.
  assert (H1 : running Ideal.weather) by exact weather_runs.
  assert (H2 : (0 <= 1 / 10 <= 20 * IZR (WeatherSystem.gridSize Ideal.weather))%R)
    by (cbn; lra).
  split; [exact H1|]. split; [exact H2|].
  exact (proj1 (@systems_stay_in_grid Ideal.weather (1 / 10)%R Ideal.calm H1 H2)).
Defined.

(** The corner [(0, 0)] of the grid of 60 cells, far from the one system at
    [(59.5, 30)]. *)
Lemma clear_sky_cell_witness :
  (0 <= 5 / 10 < 1)%R
  /\ (forall p, In p (WeatherSystem.patterns Ideal.sky) ->
                (WeatherSystem.radius p <= distanceTo 0 0 p)%R)
  /\ WeatherSystem.risk (WeatherSystem.cellWeather Ideal.sky (5 / 10)%R 0 0) = 0%R.
Proof.
  assert (H1 : (0 <= 5 / 10 < 1)%R) by lra.
  assert (H2 : forall p, In p (WeatherSystem.patterns Ideal.sky) ->
                         (WeatherSystem.radius p <= distanceTo 0 0 p)%R).
  { intros p [<-|[]]. unfold distanceTo. cbn.
    replace 5%R with (sqrt (5 * 5)) at 1 by (apply sqrt_square; lra).
    apply sqrt_le_1_alt. lra. }
  split; [exact H1|]. split; [exact H2|].
  exact (proj2 (proj2 (proj2 (@clear_sky_cell Ideal.sky (5 / 10)%R 0 0 H1 H2)))).
Defined.

(** The centre of cell [(2, 3)] over open terrain under the weather. *)
Lemma getRisk_is_the_larger_risk_witness :
  let p := Pathfinder.gridToLatLng Cases.guarded (2, 3) in
  Grid.get 0 (Pathfinder.grid Cases.guarded)
    (fst (Pathfinder.latLngToGrid Cases.guarded p))
    (snd (Pathfinder.latLngToGrid Cases.guarded p)) = 10
  /\ (10 <= Pathfinder.getRisk Cases.guarded p <= 100)%R.
Proof.
  intros p.
  assert (Ep : Pathfinder.latLngToGrid Cases.guarded p = (2, 3)).
  { apply (@field_center (Some Ideal.weather) 2 3); lia. }
  assert (Et : Grid.get 0 (Pathfinder.grid Cases.guarded)
                 (fst (Pathfinder.latLngToGrid Cases.guarded p))
                 (snd (Pathfinder.latLngToGrid Cases.guarded p)) = 10).
  { rewrite Ep. cbn [fst snd]. read_grid. reflexivity. }
  split; [exact Et|].
  set (terrain := Grid.get 0 (Pathfinder.grid Cases.guarded)
                    (fst (Pathfinder.latLngToGrid Cases.guarded p))
                    (snd (Pathfinder.latLngToGrid Cases.guarded p))) in *.
  assert (H : (IZR terrain <= Pathfinder.getRisk Cases.guarded p <= 100)%R).
  { refine (proj1 (proj2 (proj2
             (@getRisk_is_the_larger_risk Cases.guarded Ideal.weather p
                eq_refl (initialised_init _ _ _ _) _ _ _ _ _ _)))).
    - cbn; lia.
    - cbn; lia.
    - cbn; lra.
    - cbn; lra.
    - intros b [= <-]. cbn; lra.
    - change (0 <= terrain <= 100). rewrite Et. lia. }
  rewrite Et in H. exact H.
Defined.

(** The re-route of the halted mission, asked for at its goal. *)
Lemma reroute_in_goal_cell_witness :
  let goal := Mission.endPoint Cases.halted in
  1 <= Pathfinder.gridSize (Mission.pathfinder Cases.halted)
  /\ Mission.active (Mission.mission Cases.halted) = true
  /\ (0 < Mission.battery (Mission.mission Cases.halted))%R
  /\ Mission.battery (Mission.mission (Mission.reroute goal Cases.halted)) = 96%R
  /\ Mission.status (fst (Mission.simulationLoop (Mission.reroute goal Cases.halted)))
     = Mission.MISSION_COMPLETE.
Proof.
  intros goal.
  assert (H1 : 1 <= Pathfinder.gridSize (Mission.pathfinder Cases.halted)) by (cbn; lia).
  assert (H2 : Mission.active (Mission.mission Cases.halted) = true) by reflexivity.
  assert (H3 : (0 < Mission.battery (Mission.mission Cases.halted))%R) by (cbn; lra).
  split; [exact H1|]. split; [exact H2|]. split; [exact H3|].
  pose proof (@reroute_in_goal_cell Cases.halted goal H1 eq_refl H2 H3) as H.
  cbv zeta in H. split; [exact (proj1 (proj2 H))|].
  exact (proj2 (proj2 (proj2 (proj2 (proj2 (proj2 (proj2 H))))))).
Defined.

(** Over open terrain without weather [getRisk] reads the terrain risk, 10
    in every cell. *)
Lemma field_risk (p : LatLng RNum) :
  (Pathfinder.getRisk Ideal.field p <= 10)%R.
Proof.
  unfold Pathfinder.getRisk. cbv zeta.
  change (Pathfinder.weatherSystem Ideal.field) with (@None (WeatherSystem.state RNum)).
  cbv iota. rewrite nmin_R.
  apply Rle_trans with (2 := Rle_refl 10). eapply Rle_trans; [apply Rmin_r|].
  destruct (Pathfinder.isValid Ideal.field _ _) eqn:E; [|cbn; lra].
  apply isValid_iff in E. destruct E as [Hx Hy].
  change (Pathfinder.grid Ideal.field) with (Grid.make 5 10).
  rewrite get_make by assumption. cbn. lra.
Qed.

Lemma field_calm (p : LatLng RNum) :
  nltb RNum (ofZ RNum 60) (Pathfinder.getRisk (Mission.pathfinder Cases.flight) p) = false.
Proof.
  change (Rltb 60 (Pathfinder.getRisk Ideal.field p) = false).
  apply Rltb_false. pose proof (field_risk p). lra.
Qed.

(** The first tick of the flight: the drone moves a fifth of the way to the
    next cell and the battery goes from 100 to 99.5. *)
Lemma flight_first_tick :
  let w1 := fst (Mission.simulationLoop Cases.flight) in
  snd (Mission.simulationLoop Cases.flight) = None
  /\ Mission.active (Mission.mission w1) = true
  /\ Mission.paused (Mission.mission w1) = false
  /\ Mission.currentIndex (Mission.mission w1) = 0
  /\ Mission.progress (Mission.mission w1) = (2 / 10)%R
  /\ Mission.battery (Mission.mission w1) = (995 / 10)%R
  /\ Mission.status w1 = Mission.MISSION_ACTIVE.
Proof.
  unfold Mission.simulationLoop.
  cbn [Cases.flight Cases.mission Mission.mission Mission.battery Mission.progress
       Mission.currentIndex Mission.path Mission.active Mission.paused length
       Mission.pathfinder].
  change (nleb RNum 100%R (ofZ RNum 0)) with (Rleb 100 0).
  rewrite (proj2 (Rleb_false 100 0)) by lra.
  change (nleb RNum (ofZ RNum 1) (nadd RNum 0%R (dec 2 10))) with (Rleb 1 (0 + 2 / 10)).
  rewrite (proj2 (Rleb_false 1 (0 + 2 / 10))) by lra.
  cbv beta iota.
  change (0 >=? Z.of_nat 2 - 1) with false. cbv iota.
  match goal with
  | |- context [nltb RNum (ofZ RNum 60) (Pathfinder.getRisk Ideal.field ?p)] =>
      pose proof (field_risk p) as Hrisk;
      change (nltb RNum (ofZ RNum 60) (Pathfinder.getRisk Ideal.field p))
        with (Rltb 60 (Pathfinder.getRisk Ideal.field p));
      rewrite (proj2 (Rltb_false 60 (Pathfinder.getRisk Ideal.field p))) by lra;
      change (nltb RNum (ofZ RNum 30) (Pathfinder.getRisk Ideal.field p))
        with (Rltb 30 (Pathfinder.getRisk Ideal.field p));
      rewrite (proj2 (Rltb_false 30 (Pathfinder.getRisk Ideal.field p))) by lra
  end.
  cbn [Mission.withMission Mission.mission Mission.battery].
  change (nltb RNum (nsub RNum 100%R (dec 5 10)) (ofZ RNum 20))
    with (Rltb (100 - 5 / 10) 20).
  rewrite (proj2 (Rltb_false (100 - 5 / 10) 20)) by lra.
  cbn. repeat split; lra.
Qed.

(** A flight from cell [(0, 0)] to cell [(1, 0)] over open terrain, started
    with a full battery: its first tick moves the drone, no tick asks for a
    re-route, and after 201 ticks the mission is over. *)
Lemma battery_bounds_the_flight_witness :
  (Mission.battery (Mission.mission Cases.flight) <= 100)%R
  /\ Mission.active (Mission.mission Cases.flight) = true
  /\ Mission.paused (Mission.mission Cases.flight) = false
  /\ Mission.battery (Mission.mission (fst (Mission.simulationLoop Cases.flight)))
     = (995 / 10)%R
  /\ exists w', quietRun 201 Cases.flight = Some w'
                /\ Mission.active (Mission.mission w') = false.
Proof.
  assert (H1 : (Mission.battery (Mission.mission Cases.flight) <= 100)%R) by (cbn; lra).
  split; [exact H1|]. split; [reflexivity|]. split; [reflexivity|].
  split; [exact (proj1 (proj2 (proj2 (proj2 (proj2 (proj2 flight_first_tick))))))|].
  destruct (@quietRun_calm RNum 201 Cases.flight field_calm) as [w' Hrun].
  exists w'. split; [exact Hrun|].
  exact (@battery_bounds_the_flight Cases.flight w' H1 Hrun).
Defined.

(** A route of 6 km with a range of 15 km. *)
Lemma accepted_route_estimates_witness :
  (0 <= 6)%R /\ (0 < 15)%R
  /\ Dashboard.insufficientPower (N := RNum) 6%R 15%R = false
  /\ (0 <= Dashboard.estBatteryUsage (N := RNum) 6%R 15%R <= 100)%R.
Proof.
  assert (H1 : (0 <= 6)%R) by lra.
  assert (H2 : (0 < 15)%R) by lra.
  assert (H3 : Dashboard.insufficientPower (N := RNum) 6%R 15%R = false).
  { apply Rltb_false. lra. }
  split; [exact H1|]. split; [exact H2|]. split; [exact H3|].
  exact (proj1 (@accepted_route_estimates Ideal.field [] 6%R 15%R H1 H2 H3)).
Defined.
